(** * Simplex helper: exact-arithmetic pivoting and the iteration controller

    A shallow embedding of [simplex_helper.py].  Tableau entries are Python
    [int]s or [fractions.Fraction]s; a [Fraction] is always stored in lowest
    terms with a positive denominator, which is what [Qc] is.  Python
    exceptions are an error result, and the in-place mutation of the list
    [matrix] is made explicit: a failing call also returns the contents the
    list object has at the moment of the raise. *)

From Stdlib Require String DecimalString.
From Stdlib Require Import ZArith QArith Qcanon Qround List Lia Bool.
Import ListNotations.
Open Scope Z_scope.

(** ** Exceptions and results *)

Inductive exn : Type :=
| ZeroDivisionError
| IndexError
| OverflowError
| EOFError
| ValueError (msg : String.string).

Inductive res (A : Type) : Type :=
| Ok (a : A)
| Raise (e : exn).
Arguments Ok {A} a.
Arguments Raise {A} e.

Definition bind {A B : Type} (r : res A) (f : A -> res B) : res B :=
  match r with
  | Ok a => f a
  | Raise e => Raise e
  end.

Notation "x <- r ;; k" := (bind r (fun x => k))
  (at level 61, r at next level, right associativity).

Fixpoint mapM {A B : Type} (f : A -> res B) (l : list A) : res (list B) :=
  match l with
  | [] => Ok []
  | a :: l' => b <- f a ;; bs <- mapM f l' ;; Ok (b :: bs)
  end.

(** ** Numbers: [int] and [Fraction] *)

Inductive num : Type :=
| Int (z : Z)
| Fraction (q : Qc).

Definition Qc_of_Z (z : Z) : Qc := Q2Qc (inject_Z z).

(** The rational a number denotes. *)
Definition value (x : num) : Qc :=
  match x with
  | Int z => Qc_of_Z z
  | Fraction q => q
  end.

Definition isinstance_int (x : num) : bool :=
  match x with Int _ => true | Fraction _ => false end.

Definition isinstance_Fraction (x : num) : bool :=
  match x with Int _ => false | Fraction _ => true end.

Definition numerator (q : Qc) : Z := Qnum (this q).
Definition denominator (q : Qc) : Z := Zpos (Qden (this q)).

Definition Qc_ltb (p q : Qc) : bool := negb (Qle_bool (this q) (this p)).
Definition Qc_floor (q : Qc) : Z := Qfloor (this q).

(** [==], [<], [>=] between ints and Fractions compare the exact values. *)
Definition num_eqb (x y : num) : bool := Qc_eq_bool (value x) (value y).
Definition num_ltb (x y : num) : bool := Qc_ltb (value x) (value y).
Definition num_geb (x y : num) : bool := negb (num_ltb x y).

(** [x - y] and [x * y]: an int when both operands are ints, a Fraction
    otherwise. *)
Definition py_sub (x y : num) : num :=
  match x, y with
  | Int a, Int b => Int (a - b)
  | _, _ => Fraction (value x - value y)%Qc
  end.

Definition py_mul (x y : num) : num :=
  match x, y with
  | Int a, Int b => Int (a * b)
  | _, _ => Fraction (value x * value y)%Qc
  end.

(** [x % y]: floor remainder; a Fraction as soon as one operand is one. *)
Definition py_mod (x y : num) : res num :=
  if num_eqb y (Int 0) then Raise ZeroDivisionError
  else match x, y with
       | Int a, Int b => Ok (Int (a mod b))
       | _, _ =>
           Ok (Fraction (value x
                         - value y * Qc_of_Z (Qc_floor (value x / value y)))%Qc)
       end.

(** [x // y]: floor quotient, always an int for these operand types. *)
Definition py_floordiv (x y : num) : res num :=
  if num_eqb y (Int 0) then Raise ZeroDivisionError
  else match x, y with
       | Int a, Int b => Ok (Int (a / b))
       | _, _ => Ok (Int (Qc_floor (value x / value y)%Qc))
       end.

(** [Fraction(x, y)]: the two-argument constructor on rational operands. *)
Definition Fraction_of (x y : num) : res num :=
  if num_eqb y (Int 0) then Raise ZeroDivisionError
  else Ok (Fraction (value x / value y)%Qc).

(** [x / q] where the divisor [q] is a Fraction: exact, a Fraction. *)
Definition truediv_Fraction (x : num) (q : Qc) : res num :=
  if Qc_eq_bool q (Qc_of_Z 0) then Raise ZeroDivisionError
  else Ok (Fraction (value x / q)%Qc).

(** ** Python list indexing *)

Definition tableau : Type := list (list num).

Section Indexing.
Context {A : Type}.

Definition len (l : list A) : Z := Z.of_nat (length l).

(** Position of index [i] in [l]; negative indices count from the end. *)
Definition py_pos (l : list A) (i : Z) : option nat :=
  if (0 <=? i) && (i <? len l) then Some (Z.to_nat i)
  else if (i <? 0) && (0 <=? len l + i) then Some (Z.to_nat (len l + i))
  else None.

(** [l[i]] *)
Definition getitem (l : list A) (i : Z) : res A :=
  match py_pos l i with
  | Some n =>
      match nth_error l n with
      | Some a => Ok a
      | None => Raise IndexError
      end
  | None => Raise IndexError
  end.

Fixpoint set_nth (l : list A) (n : nat) (a : A) : list A :=
  match l, n with
  | [], _ => []
  | _ :: l', O => a :: l'
  | b :: l', S n' => b :: set_nth l' n' a
  end.

(** [l[i] = a] *)
Definition setitem (l : list A) (i : Z) (a : A) : res (list A) :=
  match py_pos l i with
  | Some n => Ok (set_nth l n a)
  | None => Raise IndexError
  end.

(** [zip(l1, l2)] stops at the shorter list. *)
Fixpoint zip {B : Type} (l1 : list A) (l2 : list B) : list (A * B) :=
  match l1, l2 with
  | a :: l1', b :: l2' => (a, b) :: zip l1' l2'
  | _, _ => []
  end.
End Indexing.

(** [matrix[r][c]] *)
Definition getitem2 (matrix : tableau) (r c : Z) : res num :=
  line <- getitem matrix r ;; getitem line c.

(** ** The pivot engine: [pivot(matrix, row, col)] *)

(** How a call ends.  [matrix] is mutated in place, so a raise also leaves
    the list object with some contents. *)
Inductive outcome : Type :=
| Done (matrix : tableau)
| Failed (e : exn) (matrix : tableau).

(** One entry of the pivot row when the pivot is an int:
    [x // pivot if x % pivot == 0 else Fraction(x, pivot)]. *)
Definition divide_by_int (pv x : num) : res num :=
  m <- py_mod x pv ;;
  if num_eqb m (Int 0) then py_floordiv x pv else Fraction_of x pv.

(** The new pivot row; [x / pivot] is only used with a Fraction pivot. *)
Definition normalize_row (pv : num) (line : list num) : res (list num) :=
  match pv with
  | Int _ => mapM (divide_by_int pv) line
  | Fraction q => mapM (fun x => truediv_Fraction x q) line
  end.

(** One entry of another row when both column entries are ints:
    [x - y * (f // p) if f % p == 0 else x - y * Fraction(f, p)]. *)
Definition reduce_by_int (f p : num) (xy : num * num) : res num :=
  let (x, y) := xy in
  m <- py_mod f p ;;
  if num_eqb m (Int 0)
  then k <- py_floordiv f p ;; Ok (py_sub x (py_mul y k))
  else k <- Fraction_of f p ;; Ok (py_sub x (py_mul y k)).

(** One entry of another row otherwise: [x - y * f]. *)
Definition reduce_plain (f : num) (xy : num * num) : res num :=
  Ok (py_sub (fst xy) (py_mul (snd xy) f)).

(** The new row [r], for [r != row]; [f] is [matrix[r][col]] and [p] is
    [matrix[row][col]], both read from the list as it is now, and [p] only
    when [f] is an int. *)
Definition eliminate_row (matrix : tableau) (r : nat) (row col : Z)
  : res (list num) :=
  f <- getitem2 matrix (Z.of_nat r) col ;;
  if isinstance_int f
  then
    p <- getitem2 matrix row col ;;
    line_r <- getitem matrix (Z.of_nat r) ;;
    line_row <- getitem matrix row ;;
    if isinstance_int p
    then mapM (reduce_by_int f p) (zip line_r line_row)
    else mapM (reduce_plain f) (zip line_r line_row)
  else
    line_r <- getitem matrix (Z.of_nat r) ;;
    line_row <- getitem matrix row ;;
    mapM (reduce_plain f) (zip line_r line_row).

(** [for r in range(len(matrix))], over the rows still to visit. *)
Fixpoint eliminate (rows : list nat) (matrix : tableau) (row col : Z)
  : outcome :=
  match rows with
  | [] => Done matrix
  | r :: rest =>
      if Z.of_nat r =? row then eliminate rest matrix row col
      else match eliminate_row matrix r row col with
           | Raise e => Failed e matrix
           | Ok line => eliminate rest (set_nth matrix r line) row col
           end
  end.

(** A Fraction with denominator 1 goes back to an int. *)
Definition to_int_if_whole (x : num) : num :=
  match x with
  | Int _ => x
  | Fraction q => if denominator q =? 1 then Int (numerator q) else x
  end.

Definition pivot (matrix : tableau) (row col : Z) : outcome :=
  match getitem2 matrix row col with
  | Raise e => Failed e matrix
  | Ok pv =>
      match (line <- getitem matrix row ;; normalize_row pv line) with
      | Raise e => Failed e matrix
      | Ok new_row =>
          match setitem matrix row new_row with
          | Raise e => Failed e matrix
          | Ok m1 =>
              match eliminate (seq 0 (length m1)) m1 row col with
              | Failed e m2 => Failed e m2
              | Done m2 => Done (map (map to_int_if_whole) m2)
              end
          end
      end
  end.

(** ** Text of numbers and the display: [pretty_print(matrix)] *)

Import String.StringSyntax.
Local Open Scope string_scope.

(** The decimal text of an int: its digits, after a minus sign when it is
    negative. *)
Definition int_text (z : Z) : String.string :=
  DecimalString.NilZero.string_of_int (Z.to_int z).

(** CPython (3.11, and the security releases of the earlier versions)
    refuses to convert to a string an int of more than
    [sys.get_int_max_str_digits()] decimal digits, the sign not counted;
    the program leaves this limit at its default, 4300. *)
Definition int_max_str_digits : nat := 4300.

Definition digits_error : exn :=
  ValueError
    (String.append
       "Exceeds the limit (4300 digits) for integer string conversion; "
       "use sys.set_int_max_str_digits() to increase the limit").

Definition digit_count (z : Z) : nat := String.length (int_text (Z.abs z)).

Definition fits (z : Z) : bool :=
  (digit_count z <=? int_max_str_digits)%nat.

(** [str(z)] and [f"{z}"] for an int. *)
Definition str_int (z : Z) : res String.string :=
  if fits z then Ok (int_text z) else Raise digits_error.

(** [str(x)], which is also what [print] and an f-string show of [x]: a
    Fraction of denominator 1 shows as its numerator. *)
Definition str_num (x : num) : res String.string :=
  match x with
  | Int z => str_int z
  | Fraction q =>
      if denominator q =? 1 then str_int (numerator q)
      else n <- str_int (numerator q) ;;
           d <- str_int (denominator q) ;;
           Ok (String.append n (String.append "/" d))
  end.

(** The text of an entry in the second loop of [pretty_print]:
    [str(int(x))], or numerator, ["/"], denominator. *)
Definition formatted (x : num) : res String.string :=
  match x with
  | Int z => str_int z
  | Fraction q =>
      n <- str_int (numerator q) ;;
      d <- str_int (denominator q) ;;
      Ok (String.append n (String.append "/" d))
  end.

(** The width the first loop counts for an entry. *)
Definition num_chars (x : num) : res nat :=
  match x with
  | Int z => s <- str_int z ;; Ok (String.length s)
  | Fraction q =>
      n <- str_int (numerator q) ;;
      d <- str_int (denominator q) ;;
      Ok (String.length n + String.length d + 1)%nat
  end.

(** The first pair of loops: [max_chars = max(max_chars, num_chars)] over
    the entries of a row, and over the rows. *)
Fixpoint widen_row (max_chars : nat) (row : list num) : res nat :=
  match row with
  | [] => Ok max_chars
  | x :: rest =>
      n <- num_chars x ;; widen_row (Nat.max max_chars n) rest
  end.

Fixpoint widen (max_chars : nat) (matrix : tableau) : res nat :=
  match matrix with
  | [] => Ok max_chars
  | row :: rest => w <- widen_row max_chars row ;; widen w rest
  end.

Definition max_chars (matrix : tableau) : res nat := widen 0 matrix.

Fixpoint spaces (n : nat) : String.string :=
  match n with
  | O => String.EmptyString
  | S n' => String.append " " (spaces n')
  end.

(** [s.rjust(width)]: padded on the left, never cut. *)
Definition rjust (s : String.string) (width : nat) : String.string :=
  String.append (spaces (width - String.length s)) s.

(** One turn of the second loop: [" ".join(formatted_row)]. *)
Definition format_row (width : nat) (row : list num) : res String.string :=
  cells <- mapM (fun x => s <- formatted x ;; Ok (rjust s width)) row ;;
  Ok (String.concat " " cells).

(** The lines printed, one for each row.  Nothing is printed before the
    first pair of loops is through, and the second pair converts the same
    ints again, so that a call that raises has printed nothing. *)
Definition pretty_print (matrix : tableau) : res (list String.string) :=
  width <- max_chars matrix ;;
  mapM (format_row width) matrix.

(** ** The iteration controller: [simplex(matrix)] *)

(** [min(l)] keeps the first of the smallest elements. *)
Fixpoint min_from (best : num) (l : list num) : num :=
  match l with
  | [] => best
  | x :: l' => min_from (if num_ltb x best then x else best) l'
  end.

Definition py_min (l : list num) : res num :=
  match l with
  | [] => Raise (ValueError "min() arg is an empty sequence")
  | x :: l' => Ok (min_from x l')
  end.

(** [l.index(v)], counting from [i]. *)
Fixpoint index_from (v : num) (l : list num) (i : nat) : res nat :=
  match l with
  | [] => Raise (ValueError "x is not in list")
  | x :: l' => if num_eqb x v then Ok i else index_from v l' (S i)
  end.

Definition py_index (v : num) (l : list num) : res nat := index_from v l 0.

(** [col = matrix[-1][:-1].index(min(matrix[-1][:-1]))] *)
Definition candidate_col (matrix : tableau) : res nat :=
  last_row <- getitem matrix (-1) ;;
  mn <- py_min (removelast last_row) ;;
  py_index mn (removelast last_row).

(** *** The ratio key

    [matrix[x][-1] / matrix[x][col]] is a Fraction when one operand is a
    Fraction, and a float when both are ints: the quotient rounded to the
    nearest binary64 value, ties to even, [OverflowError] from [2^1024] on.
    A key is compared by its exact value; [float('inf')] is above all. *)

Definition round_half_even (n d : Z) : Z :=
  let q := n / d in
  let r := n mod d in
  if 2 * r <? d then q
  else if d <? 2 * r then q + 1
  else if Z.even q then q else q + 1.

(** [floor (log2 (a / b))] for positive [a] and [b]. *)
Definition ilog2_ratio (a b : Z) : Z :=
  let d := Z.log2 a - Z.log2 b in
  if (if 0 <=? d then b * 2 ^ d <=? a else b <=? a * 2 ^ (- d))
  then d else d - 1.

(** [a / b] on two ints. *)
Definition int_truediv (a b : Z) : res Qc :=
  if b =? 0 then Raise ZeroDivisionError
  else if a =? 0 then Ok (Qc_of_Z 0)
  else
    let n := Z.abs a in
    let d := Z.abs b in
    let s := Z.max (ilog2_ratio n d) (-1022) - 52 in
    let m := if 0 <=? s then round_half_even n (d * 2 ^ s)
             else round_half_even (n * 2 ^ (- s)) d in
    if 1024 <=? s + Z.log2 m then Raise OverflowError
    else Ok (Q2Qc (inject_Z (Z.sgn a * Z.sgn b * m) * Qpower (2 # 1) s)).

(** The value of [x / y]. *)
Definition py_truediv (x y : num) : res Qc :=
  if num_eqb y (Int 0) then Raise ZeroDivisionError
  else match x, y with
       | Int a, Int b => int_truediv a b
       | _, _ => Ok (value x / value y)%Qc
       end.

Inductive key : Type :=
| Finite (q : Qc)
| Infinity.

Definition key_ltb (a b : key) : bool :=
  match a, b with
  | Finite p, Finite q => Qc_ltb p q
  | Finite _, Infinity => true
  | Infinity, _ => false
  end.

(** [matrix[x][-1] / matrix[x][col] if matrix[x][col] != 0 else float('inf')] *)
Definition ratio_key (matrix : tableau) (col : nat) (x : nat) : res key :=
  c <- getitem2 matrix (Z.of_nat x) (Z.of_nat col) ;;
  if negb (num_eqb c (Int 0))
  then rhs <- getitem2 matrix (Z.of_nat x) (-1) ;;
       q <- py_truediv rhs c ;;
       Ok (Finite q)
  else Ok Infinity.

(** [min(items, key=...)]: an item replaces the current one only when its
    key is strictly smaller. *)
Fixpoint argmin_from (best : nat) (kbest : key) (l : list (nat * key)) : nat :=
  match l with
  | [] => best
  | (i, k) :: l' =>
      if key_ltb k kbest then argmin_from i k l' else argmin_from best kbest l'
  end.

Definition py_min_key (items : list nat) (keyf : nat -> res key) : res nat :=
  ks <- mapM (fun i => k <- keyf i ;; Ok (i, k)) items ;;
  match ks with
  | [] => Raise (ValueError "min() arg is an empty sequence")
  | (i, k) :: rest => Ok (argmin_from i k rest)
  end.

(** [row = min(range(len(matrix) - 1), key=...)] *)
Definition min_ratio_row (matrix : tableau) (col : nat) : res nat :=
  py_min_key (seq 0 (length matrix - 1)) (ratio_key matrix col).

(** What the top of the loop body decides before it asks the operator. *)
Inductive selection : Type :=
| Optimal
| Unbounded
| Suggest (row col : nat).

Definition select (matrix : tableau) : res selection :=
  col <- candidate_col matrix ;;
  c <- getitem2 matrix (-1) (Z.of_nat col) ;;
  if num_geb c (Int 0) then Ok Optimal
  else
    row <- min_ratio_row matrix col ;;
    rhs <- getitem2 matrix (Z.of_nat row) (-1) ;;
    if num_eqb rhs (Int 0) then Ok Unbounded else Ok (Suggest row col).

(** *** The operator

    The lines typed at the prompts: [console n] is the [n]-th line read.
    [IntLine z] is a line that [int] accepts, with value [z]; [NotInt] is
    any line on which [int] raises [ValueError], a run of digits above the
    conversion limit included. *)
Inductive line : Type :=
| Eof
| NotInt
| IntLine (z : Z).

Definition console : Type := nat -> line.

(** What a turn prints: the request for an integer, the new matrix (its
    heading and the lines of [pretty_print]), the refusal to pivot on
    zero. *)
Inductive event : Type :=
| SayEnterInteger
| ShowMatrix (matrix : tableau)
| SayZeroPivot.

(** The two [int(input(...))] under [try]; a [ValueError] leaves the
    variables not yet assigned at the suggested values. *)
Definition read_choice (ins : console) (pos : nat) (row col : Z)
  : res (Z * Z * nat * list event) :=
  match ins pos with
  | Eof => Raise EOFError
  | NotInt => Ok (row, col, S pos, [SayEnterInteger])
  | IntLine c =>
      match ins (S pos) with
      | Eof => Raise EOFError
      | NotInt => Ok (row, c, S (S pos), [SayEnterInteger])
      | IntLine r => Ok (r, c, S (S pos), [])
      end
  end.

Inductive step_result : Type :=
| Return (matrix : tableau)
| Throw (e : exn) (matrix : tableau)
| Continue (matrix : tableau) (pos : nat) (out : list event).

Definition unbounded_error : exn := ValueError "Linear program is unbounded".

(** One turn of [while True].  Only [ZeroDivisionError] is caught around
    the pivot and the display: a [ValueError] of [pretty_print] ends the
    run, with the list as the pivot has left it. *)
Definition simplex_step (ins : console) (matrix : tableau) (pos : nat)
  : step_result :=
  match select matrix with
  | Raise e => Throw e matrix
  | Ok Optimal => Return matrix
  | Ok Unbounded => Throw unbounded_error matrix
  | Ok (Suggest row col) =>
      match read_choice ins pos (Z.of_nat row) (Z.of_nat col) with
      | Raise e => Throw e matrix
      | Ok (r, c, pos', out) =>
          match pivot matrix r c with
          | Done m' =>
              match pretty_print m' with
              | Ok _ => Continue m' pos' (out ++ [ShowMatrix m'])
              | Raise e => Throw e m'
              end
          | Failed ZeroDivisionError m' =>
              Continue m' pos' (out ++ [SayZeroPivot])
          | Failed e m' => Throw e m'
          end
      end
  end.

Inductive run_result : Type :=
| Returned (matrix : tableau) (pos : nat)
| Raised (e : exn) (matrix : tableau) (pos : nat)
| Running (matrix : tableau) (pos : nat).

(** The loop, for at most [fuel] turns. *)
Fixpoint simplex (fuel : nat) (ins : console) (matrix : tableau) (pos : nat)
  : run_result :=
  match fuel with
  | O => Running matrix pos
  | S fuel' =>
      match simplex_step ins matrix pos with
      | Return m => Returned m pos
      | Throw e m => Raised e m pos
      | Continue m pos' _ => simplex fuel' ins m pos'
      end
  end.

(** ** The report of [main] *)

(** [[x[i] for x in result]] *)
Definition column (result : tableau) (i : nat) : res (list num) :=
  mapM (fun x => getitem x (Z.of_nat i)) result.

(** The value printed for [x_i]: the body of the [try], which ends with
    the [print] of the value read, or 0 on any exception. *)
Definition report_var (result : tableau) (i : nat) : num :=
  match (c <- column result i ;;
         row <- py_index (Int 1) c ;;
         v <- getitem2 result (Z.of_nat row) (-1) ;;
         _ <- str_num v ;;
         Ok v) with
  | Ok v => v
  | Raise _ => Int 0
  end.

(** The values printed for [x0 .. x(n-2)], in order. *)
Definition report (result : tableau) : res (list num) :=
  first <- getitem result 0 ;;
  Ok (map (report_var result) (seq 0 (length first - 1))).

(** * Reference definitions

    The notions the properties below are stated with: the shape of a
    tableau and the rational matrix it denotes, hand-exact Gaussian
    elimination as the specification words it, the ratio test, the linear
    program a tableau stands for, and the example tableaus. *)

(** ** Shape and denotation *)

Fixpoint mapi_from {A B : Type} (f : nat -> A -> B) (i : nat) (l : list A)
  : list B :=
  match l with
  | [] => []
  | a :: l' => f i a :: mapi_from f (S i) l'
  end.

Definition rectangular {A : Type} (n : nat) (m : list (list A)) : Prop :=
  Forall (fun line => length line = n) m.

(** The exact rational matrix a tableau denotes. *)
Definition exact (matrix : tableau) : list (list Qc) := map (map value) matrix.

(** The contents of the list after a call, however it ended. *)
Definition contents (o : outcome) : tableau :=
  match o with
  | Done m => m
  | Failed _ m => m
  end.

(** The tableau a run of the loop stopped or paused on. *)
Definition tableau_of (r : run_result) : tableau :=
  match r with
  | Returned m _ => m
  | Raised _ m _ => m
  | Running m _ => m
  end.

(** ** Hand-exact Gaussian elimination *)

(** With [p] the pivot entry: the pivot row is divided entrywise by [p], and
    every other row [r] becomes, entrywise,
    [M[r][j] - factor * (M[row][j] / p)] with [factor = M[r][col]]. *)
Definition gauss_pivot (M : list (list Qc)) (row col : nat) : list (list Qc) :=
  let pivot_row := nth row M [] in
  let p := nth col pivot_row 0%Qc in
  let unit_row := map (fun y => (y / p)%Qc) pivot_row in
  mapi_from
    (fun r line =>
       if (r =? row)%nat then unit_row
       else map (fun xy => (fst xy - nth col line 0%Qc * snd xy)%Qc)
                (zip line unit_row))
    0 M.

Definition gauss_pivots (M : list (list Qc)) (ps : list (nat * nat))
  : list (list Qc) :=
  fold_left (fun M' rc => gauss_pivot M' (fst rc) (snd rc)) ps M.

(** A pivot selection: a constraint row, a decision column, a nonzero
    entry. *)
Definition valid_selection (M : list (list Qc)) (rc : nat * nat) : bool :=
  (fst rc + 2 <=? length M)%nat
  && (snd rc + 2 <=? length (nth (fst rc) M []))%nat
  && negb (Qc_eq_bool (nth (snd rc) (nth (fst rc) M []) 0%Qc) 0%Qc).

Fixpoint valid_selections (M : list (list Qc)) (ps : list (nat * nat)) : bool :=
  match ps with
  | [] => true
  | rc :: ps' =>
      valid_selection M rc
      && valid_selections (gauss_pivot M (fst rc) (snd rc)) ps'
  end.

(** Repeated calls of [pivot] on the same list. *)
Fixpoint pivot_all (matrix : tableau) (ps : list (nat * nat)) : outcome :=
  match ps with
  | [] => Done matrix
  | (row, col) :: ps' =>
      match pivot matrix (Z.of_nat row) (Z.of_nat col) with
      | Done m' => pivot_all m' ps'
      | Failed e m' => Failed e m'
      end
  end.

(** ** What [pivot] stores *)

(** What the loop of [pivot] stores in a row other than the pivot row, once
    the pivot row holds [line_row]. *)
Definition reduce_line (col : nat) (line_row line : list num) : list num :=
  match nth_error line col with
  | Some f =>
      map (fun xy => py_sub (fst xy) (py_mul (snd xy) f)) (zip line line_row)
  | None => line
  end.

(** The list [pivot] leaves behind on a valid, nonzero selection. *)
Definition pivoted (matrix : tableau) (row col : nat) (new_row : list num)
  : tableau :=
  map (map to_int_if_whole)
      (mapi_from (fun r line => if (r =? row)%nat then line
                                else reduce_line col new_row line)
                 0 (set_nth matrix row new_row)).

(** ** The selection *)

(** [col] is the lowest-index position of the minimum of [costs]. *)
Definition lowest_minimum (costs : list num) (col : nat) : Prop :=
  exists c,
    nth_error costs col = Some c
    /\ forall j x, nth_error costs j = Some x ->
                   (value c <= value x)%Qc
                   /\ (value x = value c -> (col <= j)%nat).

(** The optimality criterion: no negative entry in the objective row, its
    last entry (the right-hand side) left out. *)
Definition nonnegative (x : num) : Prop := num_geb x (Int 0) = true.

(** [row] is the first position of a smallest key. *)
Definition first_argmin (keys : list key) (row : nat) : Prop :=
  exists k,
    nth_error keys row = Some k
    /\ forall i ki, nth_error keys i = Some ki ->
                    key_ltb ki k = false
                    /\ ((i < row)%nat -> key_ltb k ki = true).

(** What the key of row [x] is: infinite on a zero coefficient, and else
    the quotient [matrix[x][-1] / matrix[x][col]] as [/] evaluates it. *)
Definition key_of_row (matrix : tableau) (col x : nat) (k : key) : Prop :=
  exists c,
    getitem2 matrix (Z.of_nat x) (Z.of_nat col) = Ok c
    /\ match k with
       | Infinity => value c = 0%Qc
       | Finite q =>
           value c <> 0%Qc
           /\ exists rhs,
               getitem2 matrix (Z.of_nat x) (-1) = Ok rhs
               /\ py_truediv rhs c = Ok q
       end.

(** The ratio of row [x] as an exact rational, infinite on a zero
    coefficient. *)
Definition exact_key (matrix : tableau) (col : nat) (x : nat) : res key :=
  c <- getitem2 matrix (Z.of_nat x) (Z.of_nat col) ;;
  rhs <- getitem2 matrix (Z.of_nat x) (-1) ;;
  if num_eqb c (Int 0) then Ok Infinity
  else Ok (Finite (value rhs / value c)%Qc).

(** The test the controller makes before it reports [Unbounded]: the most
    negative objective entry is negative, and the row the ratio test
    returns has right-hand side 0. *)
Definition zero_rhs_at_ratio_row (matrix : tableau) : Prop :=
  exists col c row rhs,
    candidate_col matrix = Ok col
    /\ getitem2 matrix (-1) (Z.of_nat col) = Ok c
    /\ num_ltb c (Int 0) = true
    /\ min_ratio_row matrix col = Ok row
    /\ getitem2 matrix (Z.of_nat row) (-1) = Ok rhs
    /\ num_eqb rhs (Int 0) = true.

(** Every candidate row has an entry [<= 0] in column [col]. *)
Definition column_nonpositive (matrix : tableau) (col : nat) : bool :=
  forallb (fun x => match getitem2 matrix (Z.of_nat x) (Z.of_nat col) with
                    | Ok c => negb (num_ltb (Int 0) c)
                    | Raise _ => false
                    end)
          (seq 0 (length matrix - 1)).


(** ** The linear program a tableau stands for

    A constraint row [a_1 .. a_n | b] reads [a_1 x_1 + .. + a_n x_n = b]
    over [x >= 0]; the objective row [c_1 .. c_n | d] reads
    [z + c_1 x_1 + .. + c_n x_n = d], and [z] is maximized. *)

Definition dot (a x : list Qc) : Qc :=
  fold_right Qcplus 0%Qc (map (fun ax => (fst ax * snd ax)%Qc) (zip a x)).

Definition coefficients (line : list num) : list Qc :=
  map value (removelast line).

Definition rhs_of (line : list num) : Qc := value (last line (Int 0)).

Definition feasible (matrix : tableau) (x : list Qc) : Prop :=
  Forall (fun xi => (0 <= xi)%Qc) x
  /\ Forall (fun line => length x = length (coefficients line)
                         /\ dot (coefficients line) x = rhs_of line)
            (removelast matrix).

Definition objective (matrix : tableau) (x : list Qc) : Qc :=
  (rhs_of (last matrix []) - dot (coefficients (last matrix [])) x)%Qc.


(** The constraints in homogeneous form: every row above the objective
    row, read on a point extended by [-1], sums to zero; [n] is the width
    of the tableau. *)
Definition constraints (n : nat) (m : tableau) (x : list Qc) : Prop :=
  forall r l, (r + 2 <= length m)%nat -> nth_error m r = Some l ->
              S (length x) = n
              /\ dot (map value l) (x ++ [(- (1))%Qc]) = 0%Qc.

(** ** Numbers that can be shown *)

(** Every int that showing [x] converts is within the digit limit. *)
Definition printable (x : num) : bool :=
  match x with
  | Int z => fits z
  | Fraction q => fits (numerator q) && fits (denominator q)
  end.

Definition all_printable (matrix : tableau) : bool :=
  forallb (forallb printable) matrix.

(** ** Normal form of numbers *)

(** A number in the form the last loop of [pivot] leaves: an int, or a
    Fraction whose denominator is not 1. *)
Definition canonical (x : num) : Prop :=
  match x with
  | Int _ => True
  | Fraction q => denominator q <> 1
  end.

(** ** Unit columns *)

(** A unit column: 1 in row [r], 0 in every other row. *)
Definition unit_column (c : list num) (r : nat) : Prop :=
  forall i x, nth_error c i = Some x ->
              value x = if (i =? r)%nat then 1%Qc else 0%Qc.

(** ** Example tableaus and operators *)

(** The example of the specification: maximize [3 x0 + 2 x1]. *)
Definition ex1 : tableau :=
  [[Int 1; Int 1; Int 1; Int 0; Int 4];
   [Int 2; Int 1; Int 0; Int 1; Int 10];
   [Int (-3); Int (-2); Int 0; Int 0; Int 0]].

(** [ex1] after the pivot (0, 0): optimal. *)
Definition ex1_final : tableau :=
  [[Int 1; Int 1; Int 1; Int 0; Int 4];
   [Int 0; Int (-1); Int (-2); Int 1; Int 2];
   [Int 0; Int 1; Int 3; Int 0; Int 12]].

(** Two objective entries tie for the minimum. *)
Definition ex_tie : tableau :=
  [[Int 1; Int 2; Int 1; Int 6];
   [Int (-2); Int (-2); Int 0; Int 0]].

(** A column with no positive entry: maximize [x0] under [- x0 + x1 = 4]. *)
Definition ex_unbounded : tableau :=
  [[Int (-1); Int 1; Int 4];
   [Int (-1); Int 0; Int 0]].

(** [ex_unbounded] after the pivot (0, 0). *)
Definition ex_unbounded_1 : tableau :=
  [[Int 1; Int (-1); Int (-4)];
   [Int 0; Int (-1); Int (-4)]].



(** The selected column is zero in the only candidate row. *)
Definition ex_zero_column : tableau :=
  [[Int 0; Int 1; Int 4];
   [Int (-1); Int 0; Int 0]].

(** A tableau with Fraction right-hand sides: [1/2] and [1/3]. *)
Definition ex_halves : tableau :=
  [[Int 1; Fraction (Q2Qc (1 # 2))];
   [Int 1; Fraction (Q2Qc (1 # 3))];
   [Int (-1); Int 0]].

(** Two integer ratios that round to the same float. *)
Definition ex_round : tableau :=
  [[Int 1; Int (2 ^ 53 + 1)];
   [Int 1; Int (2 ^ 53)];
   [Int (-1); Int 0]].

(** The operator who answers 0 to every prompt. *)
Definition always_zero : console := fun _ => IntLine 0.

(** The operator who answers column 3, row 0 at the first turn: a zero
    entry of [ex1]. *)
Definition picks_zero_entry : console :=
  fun n => match n with O => IntLine 3 | _ => IntLine 0 end.

(** The operator who answers column 0, row 7 at the first turn: no such
    row in [ex1]. *)
Definition picks_row_7 : console :=
  fun n => match n with 1%nat => IntLine 7 | _ => IntLine 0 end.

(** The operator who never types a number: each turn then pivots on the
    controller's own suggestion. *)
Definition accepts_suggestions : console := fun _ => NotInt.

(** * Properties *)

(** ** Numbers *)

Lemma Q2Qc_correct (q : Q) : Q2Qc q == q.
Proof. unfold Q2Qc. cbn [this]. apply Qred_correct. Qed.

Lemma Qc_of_Z_sub (a b : Z) : Qc_of_Z (a - b) = (Qc_of_Z a - Qc_of_Z b)%Qc.
Proof.
  unfold Qc_of_Z, Qcminus, Qcplus, Qcopp. apply Q2Qc_eq_iff.
  rewrite !Q2Qc_correct. unfold Z.sub. rewrite inject_Z_plus, inject_Z_opp.
  reflexivity.
Qed.

Lemma Qc_of_Z_mul (a b : Z) : Qc_of_Z (a * b) = (Qc_of_Z a * Qc_of_Z b)%Qc.
Proof.
  unfold Qc_of_Z, Qcmult. apply Q2Qc_eq_iff.
  rewrite !Q2Qc_correct, inject_Z_mult. reflexivity.
Qed.

Lemma Qc_of_Z_inj (a b : Z) : Qc_of_Z a = Qc_of_Z b -> a = b.
Proof.
  intros H. apply Q2Qc_eq_iff in H. unfold Qeq in H. simpl in H. lia.
Qed.

Lemma Qc_of_Z_0 : Qc_of_Z 0 = 0%Qc.
Proof. apply Qc_is_canon. reflexivity. Qed.

Lemma Qc_of_Z_1 : Qc_of_Z 1 = 1%Qc.
Proof. apply Qc_is_canon. reflexivity. Qed.

Lemma num_eqb_eq (x y : num) : num_eqb x y = true <-> value x = value y.
Proof.
  unfold num_eqb, Qc_eq_bool.
  destruct (Qc_eq_dec (value x) (value y)); split; congruence.
Qed.

Lemma num_eqb_neq (x y : num) : num_eqb x y = false <-> value x <> value y.
Proof.
  rewrite <- num_eqb_eq. destruct (num_eqb x y); split; congruence.
Qed.

Lemma value_sub (x y : num) : value (py_sub x y) = (value x - value y)%Qc.
Proof. destruct x, y; simpl; auto using Qc_of_Z_sub. Qed.

Lemma value_mul (x y : num) : value (py_mul x y) = (value x * value y)%Qc.
Proof. destruct x, y; simpl; auto using Qc_of_Z_mul. Qed.

Lemma value_to_int_if_whole (x : num) : value (to_int_if_whole x) = value x.
Proof.
  destruct x as [z | q]; [reflexivity |]. unfold to_int_if_whole.
  destruct (denominator q =? 1) eqn:E; [| reflexivity].
  apply Z.eqb_eq in E. unfold denominator in E. cbn [value].
  apply Qc_is_canon. unfold Qc_of_Z, numerator. rewrite Q2Qc_correct.
  destruct q as [[n d] c]. cbn [this Qnum Qden] in *.
  injection E as ->. reflexivity.
Qed.

(** ** Lists and indexing *)

Section ListFacts.
Context {A : Type}.

Lemma py_pos_of_nat (l : list A) (n : nat) :
  (n < length l)%nat -> py_pos l (Z.of_nat n) = Some n.
Proof.
  intros H. unfold py_pos, len.
  replace (0 <=? Z.of_nat n) with true by (symmetry; apply Z.leb_le; lia).
  replace (Z.of_nat n <? Z.of_nat (length l)) with true
    by (symmetry; apply Z.ltb_lt; lia).
  simpl. now rewrite Nat2Z.id.
Qed.

Lemma py_pos_lt (l : list A) (i : Z) (n : nat) :
  py_pos l i = Some n -> (n < length l)%nat.
Proof.
  unfold py_pos, len. intros H.
  destruct (0 <=? i) eqn:E1; destruct (i <? Z.of_nat (length l)) eqn:E2;
    simpl in H;
    destruct (i <? 0) eqn:E3; destruct (0 <=? Z.of_nat (length l) + i) eqn:E4;
    simpl in H; try discriminate; injection H as <-;
    repeat match goal with
      | H : (_ <=? _) = true |- _ => apply Z.leb_le in H
      | H : (_ <? _) = true |- _ => apply Z.ltb_lt in H
      | H : (_ <=? _) = false |- _ => apply Z.leb_gt in H
      | H : (_ <? _) = false |- _ => apply Z.ltb_ge in H
      end; lia.
Qed.

Lemma getitem_of_nat (l : list A) (n : nat) (a : A) :
  nth_error l n = Some a -> getitem l (Z.of_nat n) = Ok a.
Proof.
  intros H. unfold getitem.
  rewrite py_pos_of_nat by (apply nth_error_Some; congruence).
  now rewrite H.
Qed.

Lemma getitem_Ok (l : list A) (i : Z) (a : A) :
  getitem l i = Ok a <->
  exists n, py_pos l i = Some n /\ nth_error l n = Some a.
Proof.
  unfold getitem. split.
  - destruct (py_pos l i) as [n |]; [| discriminate].
    destruct (nth_error l n) eqn:E; [| discriminate].
    intros [= ->]. eauto.
  - intros (n & -> & ->). reflexivity.
Qed.

Lemma getitem_error (l : list A) (i : Z) (e : exn) :
  getitem l i = Raise e -> e = IndexError.
Proof.
  unfold getitem. destruct (py_pos l i) as [n |]; [| congruence].
  destruct (nth_error l n); congruence.
Qed.

Lemma setitem_of_nat (l : list A) (n : nat) (a : A) :
  (n < length l)%nat -> setitem l (Z.of_nat n) a = Ok (set_nth l n a).
Proof. intros H. unfold setitem. now rewrite py_pos_of_nat. Qed.

Lemma length_set_nth (l : list A) (n : nat) (a : A) :
  length (set_nth l n a) = length l.
Proof.
  revert n. induction l as [| b l IH]; intros [| n]; simpl; auto.
Qed.

Lemma set_nth_app (l1 l2 : list A) (b a : A) :
  set_nth (l1 ++ b :: l2) (length l1) a = l1 ++ a :: l2.
Proof. induction l1 as [| c l1 IH]; simpl; congruence. Qed.

Lemma Forall_set_nth (P : A -> Prop) (l : list A) (n : nat) (a : A) :
  Forall P l -> P a -> Forall P (set_nth l n a).
Proof.
  intros Hl Ha. revert n.
  induction Hl as [| b l Hb Hl IH]; intros [| n]; simpl; auto.
Qed.

Lemma length_zip {B : Type} (l1 : list A) (l2 : list B) :
  length (zip l1 l2) = Nat.min (length l1) (length l2).
Proof.
  revert l2. induction l1 as [| a l1 IH]; intros [| b l2]; simpl; auto.
Qed.

Lemma mapM_length {B : Type} (f : A -> res B) (l : list A) (l' : list B) :
  mapM f l = Ok l' -> length l' = length l.
Proof.
  revert l'. induction l as [| a l IH]; simpl; intros l' H.
  - injection H as <-. reflexivity.
  - destruct (f a); [| discriminate]. simpl in H.
    destruct (mapM f l); [| discriminate]. simpl in H.
    injection H as <-. simpl. f_equal. auto.
Qed.

Lemma mapM_Forall2 {B : Type} (R : A -> B -> Prop) (f : A -> res B)
      (l : list A) :
  (forall a, In a l -> exists b, f a = Ok b /\ R a b) ->
  exists l', mapM f l = Ok l' /\ Forall2 R l l'.
Proof.
  induction l as [| a l IH]; intros H; simpl.
  - exists []. auto.
  - destruct (H a (or_introl eq_refl)) as (b & -> & Hb).
    destruct IH as (l' & -> & Hl'); [intros; apply H; now right |].
    exists (b :: l'). simpl. auto.
Qed.

Lemma mapM_Ok_Forall2 {B : Type} (f : A -> res B) (l : list A) (l' : list B) :
  mapM f l = Ok l' -> Forall2 (fun a b => f a = Ok b) l l'.
Proof.
  revert l'. induction l as [| a l IH]; simpl; intros l' H.
  - injection H as <-. constructor.
  - destruct (f a) eqn:E; [| discriminate]. simpl in H.
    destruct (mapM f l); [| discriminate]. simpl in H.
    injection H as <-. constructor; auto.
Qed.

Lemma mapM_error {B : Type} (f : A -> res B) (l : list A) (e : exn) :
  mapM f l = Raise e -> exists a, In a l /\ f a = Raise e.
Proof.
  induction l as [| a l IH]; simpl; [discriminate |].
  destruct (f a) eqn:E; simpl.
  - destruct (mapM f l); simpl; [discriminate |].
    intros [= ->]. destruct IH as (a' & Hin & Ha'); eauto.
  - intros [= ->]. eauto.
Qed.
End ListFacts.

(** ** The pivot row *)

Lemma value_nonzero (pv : num) :
  num_eqb pv (Int 0) = false <-> value pv <> 0%Qc.
Proof. apply num_eqb_neq. Qed.

Lemma value_zero (pv : num) : num_eqb pv (Int 0) = true <-> value pv = 0%Qc.
Proof. apply num_eqb_eq. Qed.

Lemma divide_by_int_ok (p : Z) (x : num) :
  p <> 0 ->
  exists y, divide_by_int (Int p) x = Ok y
            /\ value y = (value x / Qc_of_Z p)%Qc.
Proof.
  intros Hp.
  assert (HP : Qc_of_Z p <> 0%Qc).
  { intros H. apply Hp, Qc_of_Z_inj. exact H. }
  assert (E0 : num_eqb (Int p) (Int 0) = false) by now apply num_eqb_neq.
  unfold divide_by_int, py_mod, py_floordiv, Fraction_of. rewrite E0.
  destruct x as [a | q]; cbn [bind value].
  - destruct (num_eqb (Int (a mod p)) (Int 0)) eqn:E.
    + eexists. split; [reflexivity |]. cbn [value].
      apply num_eqb_eq, Qc_of_Z_inj in E.
      assert (Ha : a = p * (a / p)) by (apply Z.div_exact; assumption).
      rewrite Ha at 2. rewrite Qc_of_Z_mul. field. exact HP.
    + eexists. split; reflexivity.
  - match goal with
    | |- context [num_eqb ?m _] => destruct (num_eqb m (Int 0)) eqn:E
    end.
    + eexists. split; [reflexivity |]. cbn [value].
      apply num_eqb_eq in E. cbn [value] in E.
      set (F := Qc_of_Z (Qc_floor (q / Qc_of_Z p))) in *.
      assert (Hq : q = (Qc_of_Z p * F)%Qc).
      { rewrite <- (Qcplus_0_l (Qc_of_Z p * F)), <- Qc_of_Z_0, <- E. ring. }
      clearbody F. subst q. field. exact HP.
    + eexists. split; reflexivity.
Qed.

Lemma normalize_row_ok (pv : num) (line : list num) :
  value pv <> 0%Qc ->
  exists new_row,
    normalize_row pv line = Ok new_row
    /\ map value new_row = map (fun x => (value x / value pv)%Qc) line.
Proof.
  intros Hpv.
  assert (H : exists new_row, normalize_row pv line = Ok new_row
              /\ Forall2 (fun x y => value y = (value x / value pv)%Qc)
                         line new_row).
  { destruct pv as [p | q]; cbn [normalize_row].
    - apply mapM_Forall2. intros x _. apply divide_by_int_ok.
      intros ->. apply Hpv. reflexivity.
    - apply mapM_Forall2. intros x _. unfold truediv_Fraction.
      destruct (Qc_eq_bool q (Qc_of_Z 0)) eqn:E.
      + apply Qc_eq_bool_correct in E. contradiction.
      + eexists. split; reflexivity. }
  destruct H as (new_row & E & HF). exists new_row. split; [exact E |].
  clear E. induction HF; simpl; congruence.
Qed.

(** A zero pivot fails at the first entry of the row, before any store. *)
Lemma normalize_row_zero (pv x : num) (line : list num) :
  value pv = 0%Qc -> normalize_row pv (x :: line) = Raise ZeroDivisionError.
Proof.
  intros Hpv. destruct pv as [p | q]; cbn [normalize_row mapM].
  - unfold divide_by_int, py_mod.
    replace (num_eqb (Int p) (Int 0)) with true; [reflexivity |].
    symmetry. apply num_eqb_eq. exact Hpv.
  - unfold truediv_Fraction. cbn [value] in Hpv. subst q. reflexivity.
Qed.

(** ** The elimination loop *)

Lemma mapM_pure {A B : Type} (f : A -> res B) (g : A -> B) (l : list A) :
  (forall a, In a l -> f a = Ok (g a)) -> mapM f l = Ok (map g l).
Proof.
  induction l as [| a l IH]; intros H; simpl; [reflexivity |].
  rewrite (H a (or_introl eq_refl)). simpl.
  rewrite IH by (intros; apply H; now right). reflexivity.
Qed.

Lemma value_one_int (z : Z) : value (Int z) = 1%Qc -> z = 1.
Proof. intros H. apply Qc_of_Z_inj. rewrite Qc_of_Z_1. exact H. Qed.

Lemma reduce_by_int_one (a : Z) (xy : num * num) :
  reduce_by_int (Int a) (Int 1) xy
  = Ok (py_sub (fst xy) (py_mul (snd xy) (Int a))).
Proof.
  destruct xy as [x y]. unfold reduce_by_int, py_mod, py_floordiv.
  assert (E0 : num_eqb (Int 1) (Int 0) = false).
  { apply num_eqb_neq. cbn [value]. intros H. apply Qc_of_Z_inj in H. lia. }
  rewrite E0. cbn [bind]. rewrite Z.mod_1_r, Z.div_1_r.
  replace (num_eqb (Int 0) (Int 0)) with true
    by (symmetry; now apply num_eqb_eq).
  reflexivity.
Qed.

Lemma eliminate_row_ok (st : tableau) (r row col : nat)
      (line_r line_row : list num) (p : num) :
  nth_error st r = Some line_r ->
  nth_error st row = Some line_row ->
  (col < length line_r)%nat ->
  nth_error line_row col = Some p ->
  value p = 1%Qc ->
  eliminate_row st r (Z.of_nat row) (Z.of_nat col)
  = Ok (reduce_line col line_row line_r).
Proof.
  intros Hr Hrow Hcol Hp Hone.
  destruct (nth_error line_r col) as [f |] eqn:Hf;
    [| apply nth_error_None in Hf; lia].
  unfold eliminate_row, getitem2, reduce_line.
  rewrite (getitem_of_nat _ _ _ Hr), (getitem_of_nat _ _ _ Hrow). cbn [bind].
  rewrite (getitem_of_nat _ _ _ Hf), (getitem_of_nat _ _ _ Hp). cbn [bind].
  rewrite Hf.
  destruct f as [a | qf]; destruct p as [b | qp]; cbn [isinstance_int];
    try (apply mapM_pure; reflexivity).
  apply value_one_int in Hone. subst b.
  apply mapM_pure. intros xy _. apply reduce_by_int_one.
Qed.

Lemma nth_error_app_swap {A : Type} (l1 l2 : list A) (a b : A) (n : nat) :
  n <> length l1 ->
  nth_error (l1 ++ a :: l2) n = nth_error (l1 ++ b :: l2) n.
Proof.
  intros Hn. destruct (Nat.lt_ge_cases n (length l1)) as [Hlt | Hge].
  - now rewrite !nth_error_app1.
  - rewrite !nth_error_app2 by lia.
    destruct (n - length l1)%nat eqn:E; [lia | reflexivity].
Qed.

Lemma eliminate_loop (row col : nat) (line_row : list num) (p : num)
      (todo done : list (list num)) :
  nth_error (done ++ todo) row = Some line_row ->
  nth_error line_row col = Some p ->
  value p = 1%Qc ->
  Forall (fun line => (col < length line)%nat) todo ->
  eliminate (seq (length done) (length todo)) (done ++ todo)
            (Z.of_nat row) (Z.of_nat col)
  = Done (done ++ mapi_from
                    (fun r line => if (r =? row)%nat then line
                                   else reduce_line col line_row line)
                    (length done) todo).
Proof.
  intros Hrow Hp Hone. revert done Hrow.
  induction todo as [| line rest IH]; intros done Hrow Hall.
  - reflexivity.
  - inversion Hall as [| ? ? Hline Hrest]; subst.
    cbn [length seq eliminate mapi_from].
    assert (Hnext : forall new : list num,
               S (length done) = length (done ++ [new])).
    { intros new. rewrite length_app. simpl. lia. }
    destruct (Nat.eqb_spec (length done) row) as [E | E].
    + replace (Z.of_nat (length done) =? Z.of_nat row) with true
        by (symmetry; apply Z.eqb_eq; lia).
      rewrite (Hnext line).
      replace (done ++ line :: rest) with ((done ++ [line]) ++ rest)
        by (rewrite <- app_assoc; reflexivity).
      rewrite IH; [| rewrite <- app_assoc; exact Hrow | exact Hrest].
      rewrite <- app_assoc. reflexivity.
    + replace (Z.of_nat (length done) =? Z.of_nat row) with false
        by (symmetry; apply Z.eqb_neq; lia).
      rewrite (eliminate_row_ok _ _ _ _ line line_row p); auto.
      2:{ rewrite nth_error_app2, Nat.sub_diag by lia. reflexivity. }
      rewrite set_nth_app.
      set (new := reduce_line col line_row line).
      rewrite (Hnext new).
      replace (done ++ new :: rest) with ((done ++ [new]) ++ rest)
        by (rewrite <- app_assoc; reflexivity).
      rewrite IH; [| | exact Hrest].
      * rewrite <- app_assoc. reflexivity.
      * rewrite <- app_assoc. cbn [app].
        rewrite (nth_error_app_swap _ _ new line) by auto. exact Hrow.
Qed.

(** ** Lists read and written by position *)

Lemma nth_error_set_nth {A : Type} (l : list A) (n i : nat) (a : A) :
  nth_error (set_nth l n a) i
  = if (i =? n)%nat then option_map (fun _ => a) (nth_error l i)
    else nth_error l i.
Proof.
  revert n i. induction l as [| b l IH]; intros [| n] [| i]; simpl; auto.
  now destruct (i =? n)%nat.
Qed.

Lemma nth_error_mapi_from {A B : Type} (f : nat -> A -> B) (k : nat)
      (l : list A) (i : nat) :
  nth_error (mapi_from f k l) i = option_map (f (k + i)%nat) (nth_error l i).
Proof.
  revert k i. induction l as [| a l IH]; intros k [| i]; simpl; auto.
  - now rewrite Nat.add_0_r.
  - rewrite IH. now rewrite Nat.add_succ_r.
Qed.

Lemma length_mapi_from {A B : Type} (f : nat -> A -> B) (k : nat) (l : list A) :
  length (mapi_from f k l) = length l.
Proof. revert k. induction l as [| a l IH]; intros k; simpl; auto. Qed.

(** ** The values of the stored rows *)

Lemma value_reduce (f : num) (l1 l2 : list num) :
  map value
      (map to_int_if_whole
           (map (fun xy => py_sub (fst xy) (py_mul (snd xy) f)) (zip l1 l2)))
  = map (fun xy => (fst xy - value f * snd xy)%Qc)
        (zip (map value l1) (map value l2)).
Proof.
  revert l2. induction l1 as [| x l1 IH]; intros [| y l2]; simpl; auto.
  rewrite IH, value_to_int_if_whole, value_sub, value_mul. f_equal. ring.
Qed.

Lemma map_value_to_int (l : list num) :
  map value (map to_int_if_whole l) = map value l.
Proof.
  rewrite map_map. apply map_ext. apply value_to_int_if_whole.
Qed.

Lemma rectangular_nth {A : Type} (n : nat) (m : list (list A)) (r : nat)
      (l : list A) :
  rectangular n m -> nth_error m r = Some l -> length l = n.
Proof.
  unfold rectangular. rewrite Forall_forall. intros H E.
  apply H. eapply nth_error_In; eauto.
Qed.

(** ** Shape *)

Lemma length_reduce_line (col : nat) (line_row line : list num) :
  length line_row = length line ->
  length (reduce_line col line_row line) = length line.
Proof.
  intros H. unfold reduce_line. destruct (nth_error line col); [| reflexivity].
  rewrite length_map, length_zip. lia.
Qed.

Lemma map_map_shape {A B : Type} (f : A -> B) (n : nat) (m : list (list A)) :
  rectangular n m -> rectangular n (map (map f) m).
Proof.
  unfold rectangular. intros H. apply Forall_map.
  eapply Forall_impl; [| exact H]. simpl. intros l <-. apply length_map.
Qed.

Lemma getitem_In {A : Type} (l : list A) (i : Z) (a : A) :
  getitem l i = Ok a -> In a l.
Proof.
  intros H. apply getitem_Ok in H as (k & _ & Hk).
  eapply nth_error_In; eauto.
Qed.

Lemma eliminate_row_shape (n : nat) (st : tableau) (r : nat) (row col : Z)
      (l : list num) :
  rectangular n st -> eliminate_row st r row col = Ok l -> length l = n.
Proof.
  intros Hrect. unfold eliminate_row.
  unfold rectangular in Hrect. rewrite Forall_forall in Hrect.
  destruct (getitem2 st (Z.of_nat r) col) as [f |]; [| discriminate].
  cbn [bind].
  assert (Hzip : forall (g : num * num -> res num) line_r line_row,
             getitem st (Z.of_nat r) = Ok line_r ->
             getitem st row = Ok line_row ->
             mapM g (zip line_r line_row) = Ok l -> length l = n).
  { intros g line_r line_row Er Erow H.
    pose proof (Hrect _ (getitem_In _ _ _ Er)) as H1.
    pose proof (Hrect _ (getitem_In _ _ _ Erow)) as H2.
    apply mapM_length in H. rewrite H, length_zip. lia. }
  destruct (isinstance_int f).
  - destruct (getitem2 st row col) as [p |]; [| discriminate].
    destruct (getitem st (Z.of_nat r)) as [line_r |] eqn:Er; [| discriminate].
    destruct (getitem st row) as [line_row |] eqn:Erow; [| discriminate].
    cbn [bind]. destruct (isinstance_int p); eauto.
  - destruct (getitem st (Z.of_nat r)) as [line_r |] eqn:Er; [| discriminate].
    destruct (getitem st row) as [line_row |] eqn:Erow; [| discriminate].
    cbn [bind]. eauto.
Qed.

Lemma eliminate_shape (n : nat) (row col : Z) (rows : list nat) (st : tableau) :
  rectangular n st ->
  rectangular n (contents (eliminate rows st row col))
  /\ length (contents (eliminate rows st row col)) = length st.
Proof.
  revert st. induction rows as [| r rows IH]; intros st Hrect; cbn [eliminate].
  - auto.
  - destruct (Z.of_nat r =? row); [auto |].
    destruct (eliminate_row st r row col) as [l |] eqn:E; [| auto].
    destruct (IH (set_nth st r l)) as [H1 H2].
    + apply Forall_set_nth; [exact Hrect |].
      eapply eliminate_row_shape; eauto.
    + rewrite length_set_nth in H2. auto.
Qed.

Lemma normalize_row_length (pv : num) (line new_row : list num) :
  normalize_row pv line = Ok new_row -> length new_row = length line.
Proof. destruct pv; apply mapM_length. Qed.

(** Whatever the indices and however the call ends, the list keeps its
    shape. *)
Lemma pivot_shape (n : nat) (matrix : tableau) (row col : Z) :
  rectangular n matrix ->
  rectangular n (contents (pivot matrix row col))
  /\ length (contents (pivot matrix row col)) = length matrix.
Proof.
  intros Hrect. unfold pivot.
  destruct (getitem2 matrix row col) as [pv |]; [| auto].
  destruct (getitem matrix row) as [line |] eqn:Eline; cbn [bind]; [| auto].
  destruct (normalize_row pv line) as [new_row |] eqn:Enorm; [| auto].
  unfold setitem. destruct (py_pos matrix row) as [k |]; [| auto].
  assert (Hm1 : rectangular n (set_nth matrix k new_row)).
  { apply Forall_set_nth; [exact Hrect |].
    rewrite (normalize_row_length _ _ _ Enorm).
    unfold rectangular in Hrect. rewrite Forall_forall in Hrect.
    apply Hrect. eapply getitem_In; eauto. }
  destruct (eliminate_shape n row col
              (seq 0 (length (set_nth matrix k new_row)))
              (set_nth matrix k new_row) Hm1) as [H1 H2].
  rewrite !length_set_nth in *.
  destruct (eliminate _ _ row col) as [m2 | e m2]; cbn [contents] in *.
  - split; [now apply map_map_shape | now rewrite length_map].
  - auto.
Qed.

(** ** Reading entries back *)

Lemma to_int_if_whole_of_Z (y : num) (z : Z) :
  value y = Qc_of_Z z -> to_int_if_whole y = Int z.
Proof.
  destruct y as [z' | q]; cbn [value]; intros H.
  - cbn [to_int_if_whole]. f_equal. now apply Qc_of_Z_inj.
  - subst q.
    assert (E : this (Qc_of_Z z) = inject_Z z).
    { unfold Qc_of_Z, Q2Qc. cbn [this]. apply Qred_identity.
      simpl. apply Z.gcd_1_r. }
    unfold to_int_if_whole, denominator, numerator. rewrite E. reflexivity.
Qed.

Lemma nth_error_zip {A B : Type} (l1 : list A) (l2 : list B) (i : nat) :
  nth_error (zip l1 l2) i
  = match nth_error l1 i, nth_error l2 i with
    | Some a, Some b => Some (a, b)
    | _, _ => None
    end.
Proof.
  revert l2 i. induction l1 as [| a l1 IH]; intros [| b l2] [| i]; simpl; auto.
  now destruct (nth_error l1 i).
Qed.

Lemma py_pos_of_nat_inv {A : Type} (l : list A) (n k : nat) :
  py_pos l (Z.of_nat n) = Some k -> k = n.
Proof.
  unfold py_pos.
  replace (Z.of_nat n <? 0) with false by (symmetry; apply Z.ltb_ge; lia).
  cbn [andb]. destruct (_ && _); [| discriminate].
  intros [= <-]. apply Nat2Z.id.
Qed.

Lemma getitem_of_nat_inv {A : Type} (l : list A) (n : nat) (a : A) :
  getitem l (Z.of_nat n) = Ok a -> nth_error l n = Some a.
Proof.
  intros H. apply getitem_Ok in H as (k & Hk & Ha).
  apply py_pos_of_nat_inv in Hk. now subst k.
Qed.

Lemma getitem2_of_nat_inv (matrix : tableau) (r c : nat) (x : num) :
  getitem2 matrix (Z.of_nat r) (Z.of_nat c) = Ok x ->
  exists line, nth_error matrix r = Some line /\ nth_error line c = Some x.
Proof.
  unfold getitem2.
  destruct (getitem matrix (Z.of_nat r)) as [line |] eqn:E; [| discriminate].
  cbn [bind]. intros H. exists line.
  split; now apply getitem_of_nat_inv.
Qed.

(** ** A valid, nonzero selection

    The facts about one call [pivot(matrix, row, col)] share their
    assumptions: the tableau is rectangular, [line] is its row [row], and
    [pv], the entry of [line] in column [col], is not zero. *)

Section ValidPivot.
Variables (matrix : tableau) (n row col : nat) (line : list num) (pv : num).
Hypothesis Hrect : rectangular n matrix.
Hypothesis Hline : nth_error matrix row = Some line.
Hypothesis Hpv : nth_error line col = Some pv.
Hypothesis Hnz : value pv <> 0%Qc.

Lemma selected_line_length : length line = n.
Proof. eapply rectangular_nth; eauto. Qed.

Lemma selected_col_lt : (col < n)%nat.
Proof.
  rewrite <- selected_line_length. apply nth_error_Some. congruence.
Qed.

(** [new_row] is the pivot row divided by the pivot. *)
Variable new_row : list num.
Hypothesis Hval :
  map value new_row = map (fun x => (value x / value pv)%Qc) line.

Lemma new_row_length : length new_row = n.
Proof.
  rewrite <- selected_line_length, <- (length_map value new_row), Hval.
  apply length_map.
Qed.

Lemma new_row_one :
  exists p, nth_error new_row col = Some p /\ value p = 1%Qc.
Proof.
  pose proof selected_col_lt as Hcol. pose proof new_row_length as Hlen.
  destruct (nth_error new_row col) as [p |] eqn:Hp;
    [| apply nth_error_None in Hp; lia].
  exists p. split; [reflexivity |].
  assert (E : nth_error (map value new_row) col
              = nth_error (map (fun x => (value x / value pv)%Qc) line) col)
    by now rewrite Hval.
  rewrite !nth_error_map, Hp, Hpv in E. simpl in E. injection E as ->.
  field. exact Hnz.
Qed.

(** The call returns, and the list then holds [pivoted]. *)
Lemma pivot_pivoted :
  normalize_row pv line = Ok new_row ->
  pivot matrix (Z.of_nat row) (Z.of_nat col)
  = Done (pivoted matrix row col new_row).
Proof.
  intros Hnorm.
  assert (Hrow : (row < length matrix)%nat)
    by (apply nth_error_Some; congruence).
  pose proof selected_col_lt as Hcol. pose proof new_row_length as Hlen.
  destruct new_row_one as (p & Hp & Hone).
  unfold pivot, getitem2.
  rewrite (getitem_of_nat _ _ _ Hline). cbn [bind].
  rewrite (getitem_of_nat _ _ _ Hpv), Hnorm, (setitem_of_nat _ _ _ Hrow).
  pose proof (eliminate_loop row col new_row p (set_nth matrix row new_row) [])
    as Hloop.
  cbn [app length] in Hloop. rewrite Hloop; auto.
  - rewrite nth_error_set_nth, Nat.eqb_refl, Hline. reflexivity.
  - apply Forall_set_nth; [| lia].
    unfold rectangular in Hrect. eapply Forall_impl; [| exact Hrect].
    simpl. intros l ->. lia.
Qed.

(** It denotes the Gaussian step of the matrix denoted before. *)
Lemma exact_pivoted :
  exact (pivoted matrix row col new_row) = gauss_pivot (exact matrix) row col.
Proof.
  assert (Hprow : nth row (exact matrix) [] = map value line).
  { apply nth_error_nth. unfold exact. rewrite nth_error_map, Hline.
    reflexivity. }
  assert (Hp : nth col (map value line) 0%Qc = value pv).
  { apply nth_error_nth. rewrite nth_error_map, Hpv. reflexivity. }
  assert (Hunit : map (fun y => (y / value pv)%Qc) (map value line)
                  = map value new_row).
  { rewrite Hval, map_map. reflexivity. }
  pose proof selected_col_lt as Hcol.
  apply nth_error_ext. intros r.
  unfold gauss_pivot. rewrite Hprow, Hp, Hunit.
  unfold pivoted, exact.
  rewrite !nth_error_map, !nth_error_mapi_from, nth_error_set_nth,
    nth_error_map.
  cbn [Nat.add].
  destruct (Nat.eqb_spec r row) as [-> | Hr].
  - rewrite Hline. cbn [option_map]. now rewrite map_value_to_int.
  - destruct (nth_error matrix r) as [l |] eqn:Hl; [| reflexivity].
    cbn [option_map]. f_equal.
    pose proof (rectangular_nth n matrix r l Hrect Hl) as Hlen.
    unfold reduce_line.
    destruct (nth_error l col) as [f |] eqn:Hf;
      [| apply nth_error_None in Hf; lia].
    rewrite value_reduce.
    replace (nth col (map value l) 0%Qc) with (value f); [reflexivity |].
    symmetry. apply nth_error_nth. rewrite nth_error_map, Hf. reflexivity.
Qed.

(** It has the shape of the tableau before. *)
Lemma pivoted_shape :
  length (pivoted matrix row col new_row) = length matrix
  /\ rectangular n (pivoted matrix row col new_row).
Proof.
  pose proof new_row_length as Hnew. unfold pivoted. split.
  - now rewrite length_map, length_mapi_from, length_set_nth.
  - unfold rectangular. apply Forall_forall. intros l Hin.
    apply In_nth_error in Hin as [r Hr].
    rewrite nth_error_map, nth_error_mapi_from in Hr. cbn [Nat.add] in Hr.
    destruct (nth_error (set_nth matrix row new_row) r) as [l0 |] eqn:Hl0;
      [| discriminate].
    injection Hr as <-. rewrite length_map.
    assert (Hlen0 : length l0 = n).
    { apply (rectangular_nth n (set_nth matrix row new_row) r l0);
        [| exact Hl0].
      apply Forall_set_nth; assumption. }
    destruct (r =? row)%nat; [exact Hlen0 |].
    rewrite length_reduce_line; congruence.
Qed.

(** Its column [col] is the unit column of row [row], in ints. *)
Lemma pivoted_column (r : nat) :
  (r < length matrix)%nat ->
  getitem2 (pivoted matrix row col new_row) (Z.of_nat r) (Z.of_nat col)
  = Ok (if (r =? row)%nat then Int 1 else Int 0).
Proof.
  intros Hr.
  pose proof selected_col_lt as Hcol. pose proof new_row_length as Hlen.
  destruct new_row_one as (p & Hp & Hone).
  destruct (nth_error matrix r) as [l |] eqn:Hl;
    [| apply nth_error_None in Hl; lia].
  unfold getitem2.
  assert (Hrow' : nth_error (pivoted matrix row col new_row) r
                  = Some (map to_int_if_whole
                            (if (r =? row)%nat then new_row
                             else reduce_line col new_row l))).
  { unfold pivoted.
    rewrite nth_error_map, nth_error_mapi_from, nth_error_set_nth, Hl.
    cbn [Nat.add option_map]. now destruct (r =? row)%nat. }
  rewrite (getitem_of_nat _ _ _ Hrow'). cbn [bind].
  apply getitem_of_nat. rewrite nth_error_map.
  destruct (r =? row)%nat.
  - rewrite Hp. cbn [option_map]. f_equal. apply to_int_if_whole_of_Z.
    now rewrite Qc_of_Z_1.
  - pose proof (rectangular_nth n matrix r l Hrect Hl) as Hll.
    unfold reduce_line.
    destruct (nth_error l col) as [f |] eqn:Hf;
      [| apply nth_error_None in Hf; lia].
    rewrite nth_error_map, nth_error_zip, Hf, Hp. cbn [option_map fst snd].
    f_equal. apply to_int_if_whole_of_Z.
    rewrite value_sub, value_mul, Hone, Qc_of_Z_0. ring.
Qed.

(** Everything at once about the call. *)
Lemma pivot_Done :
  normalize_row pv line = Ok new_row ->
  pivot matrix (Z.of_nat row) (Z.of_nat col)
  = Done (pivoted matrix row col new_row)
  /\ exact (pivoted matrix row col new_row)
     = gauss_pivot (exact matrix) row col
  /\ length (pivoted matrix row col new_row) = length matrix
  /\ rectangular n (pivoted matrix row col new_row)
  /\ forall r, (r < length matrix)%nat ->
               getitem2 (pivoted matrix row col new_row)
                        (Z.of_nat r) (Z.of_nat col)
               = Ok (if (r =? row)%nat then Int 1 else Int 0).
Proof.
  intros Hnorm. destruct pivoted_shape as [Hlen Hshape].
  split; [now apply pivot_pivoted |]. split; [apply exact_pivoted |].
  split; [exact Hlen |]. split; [exact Hshape |]. apply pivoted_column.
Qed.
End ValidPivot.

(** On a rectangular tableau, a selection of an existing nonzero entry makes
    [pivot] return the Gaussian step, of the same shape, with a unit
    column. *)
Lemma pivot_valid (matrix : tableau) (n row col : nat) (pv : num) :
  rectangular n matrix ->
  getitem2 matrix (Z.of_nat row) (Z.of_nat col) = Ok pv ->
  num_eqb pv (Int 0) = false ->
  exists m',
    pivot matrix (Z.of_nat row) (Z.of_nat col) = Done m'
    /\ exact m' = gauss_pivot (exact matrix) row col
    /\ length m' = length matrix
    /\ rectangular n m'
    /\ forall r, (r < length matrix)%nat ->
                 getitem2 m' (Z.of_nat r) (Z.of_nat col)
                 = Ok (if (r =? row)%nat then Int 1 else Int 0).
Proof.
  intros Hrect Hpv Hnz.
  apply getitem2_of_nat_inv in Hpv as (line & Hline & Hpv).
  apply value_nonzero in Hnz.
  destruct (normalize_row_ok pv line Hnz) as (new_row & Hnorm & Hval).
  exists (pivoted matrix row col new_row).
  eapply pivot_Done; eauto.
Qed.

(** ** What [pivot] guarantees *)

(** C1.  On a tableau whose rows all have length [n], pivoting on a
    constraint row [row <= rowCount - 2] and a decision column
    [col <= colCount - 2] with a nonzero entry returns, and afterwards column
    [col] is a unit column: the entry in row [row] is the int 1 and the
    entry in every other row is the int 0. *)
Theorem pivot_unit_column (matrix : tableau) (n row col : nat) (pv : num) :
  rectangular n matrix ->
  (row + 2 <= length matrix)%nat ->
  (col + 2 <= n)%nat ->
  getitem2 matrix (Z.of_nat row) (Z.of_nat col) = Ok pv ->
  num_eqb pv (Int 0) = false ->
  exists m',
    pivot matrix (Z.of_nat row) (Z.of_nat col) = Done m'
    /\ forall r, (r < length matrix)%nat ->
                 getitem2 m' (Z.of_nat r) (Z.of_nat col)
                 = Ok (if (r =? row)%nat then Int 1 else Int 0).
Proof.
  intros Hrect _ _ Hpv Hnz.
  destruct (pivot_valid matrix n row col pv Hrect Hpv Hnz)
    as (m' & Hdone & _ & _ & _ & Hcolumn).
  exists m'. split; [exact Hdone | exact Hcolumn].
Qed.

Lemma pivot_unit_column_witness :
  exists m',
    pivot ex1 0 0 = Done m'
    /\ forall r, (r < 3)%nat ->
                 getitem2 m' (Z.of_nat r) 0
                 = Ok (if (r =? 0)%nat then Int 1 else Int 0).
Proof.
  apply (pivot_unit_column ex1 5 0 0 (Int 1)).
  - repeat constructor.
  - simpl. lia.
  - lia.
  - reflexivity.
  - vm_compute. reflexivity.
Defined.

(** ** Showing numbers *)

Lemma length_append (s t : String.string) :
  String.length (String.append s t) = (String.length s + String.length t)%nat.
Proof. induction s as [| c s IH]; simpl; congruence. Qed.

Lemma length_spaces (n : nat) : String.length (spaces n) = n.
Proof. induction n as [| n IH]; simpl; congruence. Qed.

Lemma length_rjust (s : String.string) (width : nat) :
  (String.length s <= width)%nat -> String.length (rjust s width) = width.
Proof.
  intros H. unfold rjust. rewrite length_append, length_spaces. lia.
Qed.

Lemma fits_one : fits 1 = true.
Proof. reflexivity. Qed.

(** An entry can be shown exactly when its ints are within the limit; the
    width counted for it is then the length of its text. *)
Lemma formatted_printable (x : num) :
  printable x = true ->
  exists s, formatted x = Ok s /\ num_chars x = Ok (String.length s).
Proof.
  destruct x as [z | q]; cbn [printable formatted num_chars]; unfold str_int.
  - intros ->. cbn [bind]. eauto.
  - intros H. apply andb_true_iff in H as [-> ->]. cbn [bind].
    eexists. split; [reflexivity |]. f_equal.
    rewrite !length_append. simpl String.length. lia.
Qed.

Lemma formatted_not_printable (x : num) :
  printable x = false ->
  formatted x = Raise digits_error /\ num_chars x = Raise digits_error.
Proof.
  destruct x as [z | q]; cbn [printable formatted num_chars]; unfold str_int.
  - intros ->. auto.
  - intros H. destruct (fits (numerator q)); cbn [andb bind] in *; [| auto].
    rewrite H. auto.
Qed.

Lemma str_num_printable (x : num) :
  printable x = true -> exists s, str_num x = Ok s.
Proof.
  destruct x as [z | q]; cbn [printable str_num]; unfold str_int.
  - intros ->. eauto.
  - intros H. apply andb_true_iff in H as [-> ->]. cbn [bind].
    destruct (denominator q =? 1); eauto.
Qed.

Lemma str_num_not_printable (x : num) :
  printable x = false -> str_num x = Raise digits_error.
Proof.
  destruct x as [z | q]; cbn [printable str_num]; unfold str_int.
  - intros ->. reflexivity.
  - intros H. destruct (denominator q =? 1) eqn:E.
    + apply Z.eqb_eq in E. rewrite E, fits_one, andb_true_r in H.
      now rewrite H.
    + destruct (fits (numerator q)); cbn [andb bind] in *; [| reflexivity].
      now rewrite H.
Qed.

Lemma widen_row_printable (row : list num) (acc : nat) :
  forallb printable row = true ->
  exists w,
    widen_row acc row = Ok w
    /\ (acc <= w)%nat
    /\ forall x s, In x row -> formatted x = Ok s ->
                   (String.length s <= w)%nat.
Proof.
  revert acc. induction row as [| y row IH]; intros acc H;
    cbn [forallb widen_row] in *.
  - exists acc. split; [reflexivity |]. split; [lia | intros x s []].
  - apply andb_true_iff in H as [Hy Hrow].
    destruct (formatted_printable y Hy) as (sy & Hsy & Hny).
    rewrite Hny. cbn [bind].
    destruct (IH (Nat.max acc (String.length sy)) Hrow) as (w & Hw & Hle & Hin).
    exists w. split; [exact Hw |]. split; [lia |].
    intros x s [<- | Hx] Hs; [| eauto].
    assert (s = sy) by congruence. subst s. lia.
Qed.

Lemma widen_row_not_printable (row : list num) (acc : nat) :
  forallb printable row = false -> widen_row acc row = Raise digits_error.
Proof.
  revert acc. induction row as [| y row IH]; intros acc H;
    cbn [forallb widen_row] in *; [discriminate |].
  destruct (printable y) eqn:Hy; cbn [andb] in H.
  - destruct (formatted_printable y Hy) as (sy & _ & ->). cbn [bind].
    now apply IH.
  - now rewrite (proj2 (formatted_not_printable y Hy)).
Qed.

Lemma widen_printable (matrix : tableau) (acc : nat) :
  all_printable matrix = true ->
  exists w,
    widen acc matrix = Ok w
    /\ (acc <= w)%nat
    /\ forall row x s, In row matrix -> In x row -> formatted x = Ok s ->
                       (String.length s <= w)%nat.
Proof.
  unfold all_printable. revert acc.
  induction matrix as [| row0 matrix IH]; intros acc H;
    cbn [forallb widen] in *.
  - exists acc. split; [reflexivity |]. split; [lia | intros row x s []].
  - apply andb_true_iff in H as [Hrow0 Hrest].
    destruct (widen_row_printable row0 acc Hrow0) as (w0 & -> & Hle0 & Hin0).
    cbn [bind].
    destruct (IH w0 Hrest) as (w & Hw & Hle & Hin).
    exists w. split; [exact Hw |]. split; [lia |].
    intros row x s [<- | Hrow] Hx Hs; [| eauto].
    specialize (Hin0 x s Hx Hs). lia.
Qed.

Lemma widen_not_printable (matrix : tableau) (acc : nat) :
  all_printable matrix = false -> widen acc matrix = Raise digits_error.
Proof.
  unfold all_printable. revert acc.
  induction matrix as [| row0 matrix IH]; intros acc H;
    cbn [forallb widen] in *; [discriminate |].
  destruct (forallb printable row0) eqn:Hrow0; cbn [andb] in H.
  - destruct (widen_row_printable row0 acc Hrow0) as (w0 & -> & _).
    cbn [bind]. now apply IH.
  - now rewrite (widen_row_not_printable row0 acc Hrow0).
Qed.

(** What [pretty_print] prints when every entry can be shown: each line is
    the join of the cells of its row, each the text of its entry
    right-justified to the common width, which no text exceeds. *)
Lemma pretty_print_printable (matrix : tableau) :
  all_printable matrix = true ->
  exists w lines,
    max_chars matrix = Ok w
    /\ pretty_print matrix = Ok lines
    /\ Forall2
         (fun row line =>
            exists cells,
              line = String.concat " " cells
              /\ Forall2 (fun x c => exists s, formatted x = Ok s
                                               /\ c = rjust s w
                                               /\ String.length c = w)
                         row cells)
         matrix lines.
Proof.
  intros Hall.
  destruct (widen_printable matrix 0 Hall) as (w & Hw & _ & Hle).
  exists w. unfold pretty_print, max_chars. rewrite Hw. cbn [bind].
  assert (H : exists lines,
             mapM (format_row w) matrix = Ok lines
             /\ Forall2
                  (fun row line =>
                     exists cells,
                       line = String.concat " " cells
                       /\ Forall2 (fun x c => exists s, formatted x = Ok s
                                                        /\ c = rjust s w
                                                        /\ String.length c = w)
                                  row cells)
                  matrix lines).
  { apply mapM_Forall2. intros row Hrow. unfold format_row.
    assert (Hcells : exists cells,
               mapM (fun x => s <- formatted x ;; Ok (rjust s w)) row
               = Ok cells
               /\ Forall2 (fun x c => exists s, formatted x = Ok s
                                                /\ c = rjust s w
                                                /\ String.length c = w)
                          row cells).
    { apply mapM_Forall2. intros x Hx.
      assert (Hp : printable x = true).
      { unfold all_printable in Hall. rewrite forallb_forall in Hall.
        specialize (Hall row Hrow). rewrite forallb_forall in Hall. auto. }
      destruct (formatted_printable x Hp) as (s & Hs & _).
      rewrite Hs. cbn [bind]. eexists. split; [reflexivity |].
      exists s. split; [reflexivity |]. split; [reflexivity |].
      apply length_rjust. eauto. }
    destruct Hcells as (cells & -> & HF). cbn [bind]. eauto. }
  destruct H as (lines & Hlines & HF). exists lines. auto.
Qed.

Lemma pretty_print_not_printable (matrix : tableau) :
  all_printable matrix = false -> pretty_print matrix = Raise digits_error.
Proof.
  intros H. unfold pretty_print, max_chars.
  now rewrite (widen_not_printable matrix 0 H).
Qed.

Lemma pretty_print_Ok (matrix : tableau) :
  all_printable matrix = true -> exists lines, pretty_print matrix = Ok lines.
Proof.
  intros H. destruct (pretty_print_printable matrix H) as (w & l & _ & E & _).
  eauto.
Qed.

(** The only exception of [pretty_print] is that of the digit limit. *)
Lemma pretty_print_error (matrix : tableau) (e : exn) :
  pretty_print matrix = Raise e -> e = digits_error.
Proof.
  destruct (all_printable matrix) eqn:H.
  - destruct (pretty_print_Ok matrix H) as [lines ->]. discriminate.
  - rewrite (pretty_print_not_printable matrix H). congruence.
Qed.

Lemma digits_error_not_unbounded : digits_error <> unbounded_error.
Proof. intros H. vm_compute in H. discriminate. Qed.

(** Every run of the loop keeps the shape of the tableau. *)
Lemma simplex_shape (n fuel : nat) (ins : console) (matrix : tableau)
      (pos : nat) :
  rectangular n matrix ->
  length (tableau_of (simplex fuel ins matrix pos)) = length matrix
  /\ rectangular n (tableau_of (simplex fuel ins matrix pos)).
Proof.
  revert matrix pos.
  induction fuel as [| fuel IH]; intros matrix pos Hrect;
    cbn [simplex tableau_of]; [auto |].
  unfold simplex_step.
  destruct (select matrix) as [[| | row col] | e]; cbn [tableau_of]; auto.
  destruct (read_choice ins pos (Z.of_nat row) (Z.of_nat col))
    as [[[[r c] pos'] out] | e]; cbn [tableau_of]; auto.
  destruct (pivot_shape n matrix r c Hrect) as [H1 H2].
  destruct (pivot matrix r c) as [m' | e m']; cbn [contents] in *.
  - destruct (pretty_print m'); cbn [tableau_of]; auto.
    rewrite <- H2. apply IH. exact H1.
  - destruct e; cbn [tableau_of]; auto.
    rewrite <- H2. apply IH. exact H1.
Qed.

(** C9.  A tableau whose rows all have length [n] keeps that shape for its
    whole life: a valid nonzero pivot returns a tableau with the same number
    of rows, all of length [n]; and so does every call of [pivot], however
    it ends, and every run of the loop. *)
Theorem pivot_keeps_shape (matrix : tableau) (n row col : nat) (pv : num) :
  rectangular n matrix ->
  (row + 2 <= length matrix)%nat ->
  (col + 2 <= n)%nat ->
  getitem2 matrix (Z.of_nat row) (Z.of_nat col) = Ok pv ->
  num_eqb pv (Int 0) = false ->
  (exists m',
      pivot matrix (Z.of_nat row) (Z.of_nat col) = Done m'
      /\ length m' = length matrix
      /\ rectangular n m')
  /\ (forall r c : Z,
         length (contents (pivot matrix r c)) = length matrix
         /\ rectangular n (contents (pivot matrix r c)))
  /\ (forall (fuel : nat) (ins : console) (pos : nat),
         length (tableau_of (simplex fuel ins matrix pos)) = length matrix
         /\ rectangular n (tableau_of (simplex fuel ins matrix pos))).
Proof.
  intros Hrect _ _ Hpv Hnz. split; [| split].
  - destruct (pivot_valid matrix n row col pv Hrect Hpv Hnz)
      as (m' & Hdone & _ & Hlen & Hshape & _).
    exists m'. auto.
  - intros r c. destruct (pivot_shape n matrix r c Hrect). auto.
  - intros fuel ins pos. now apply simplex_shape.
Qed.

Lemma pivot_keeps_shape_witness :
  (exists m',
      pivot ex1 0 0 = Done m' /\ length m' = 3%nat /\ rectangular 5 m')
  /\ (forall r c : Z,
         length (contents (pivot ex1 r c)) = 3%nat
         /\ rectangular 5 (contents (pivot ex1 r c)))
  /\ (forall (fuel : nat) (ins : console) (pos : nat),
         length (tableau_of (simplex fuel ins ex1 pos)) = 3%nat
         /\ rectangular 5 (tableau_of (simplex fuel ins ex1 pos))).
Proof.
  apply (pivot_keeps_shape ex1 5 0 0 (Int 1)).
  - repeat constructor.
  - simpl. lia.
  - lia.
  - reflexivity.
  - vm_compute. reflexivity.
Defined.

(** ** The entries of the Gaussian step *)

Lemma gauss_pivot_entry (M : list (list Qc)) (row col r j : nat)
      (pivot_row line : list Qc) (p f x y : Qc) :
  nth_error M row = Some pivot_row ->
  nth_error pivot_row col = Some p ->
  nth_error M r = Some line ->
  nth_error line col = Some f ->
  nth_error line j = Some x ->
  nth_error pivot_row j = Some y ->
  exists line',
    nth_error (gauss_pivot M row col) r = Some line'
    /\ nth_error line' j
       = Some (if (r =? row)%nat then (y / p)%Qc else (x - f * (y / p))%Qc).
Proof.
  intros Hrow Hp Hr Hf Hx Hy. unfold gauss_pivot.
  rewrite (nth_error_nth _ _ _ Hrow), (nth_error_nth _ _ _ Hp).
  rewrite nth_error_mapi_from, Hr. cbn [Nat.add option_map].
  eexists. split; [reflexivity |].
  destruct (r =? row)%nat.
  - rewrite nth_error_map, Hy. reflexivity.
  - rewrite nth_error_map, nth_error_zip, Hx, nth_error_map, Hy.
    cbn [option_map fst snd]. now rewrite (nth_error_nth _ _ _ Hf).
Qed.

(** ** Repeated pivots *)

Lemma valid_selection_inv (matrix : tableau) (row col : nat) :
  valid_selection (exact matrix) (row, col) = true ->
  exists pv,
    getitem2 matrix (Z.of_nat row) (Z.of_nat col) = Ok pv
    /\ num_eqb pv (Int 0) = false.
Proof.
  unfold valid_selection. cbn [fst snd]. intros H.
  apply andb_prop in H as [H Hnz]. apply andb_prop in H as [Hrow Hcol].
  apply Nat.leb_le in Hrow. unfold exact in *. rewrite length_map in Hrow.
  destruct (nth_error matrix row) as [line |] eqn:Hline;
    [| apply nth_error_None in Hline; lia].
  assert (Hprow : nth row (map (map value) matrix) [] = map value line).
  { apply nth_error_nth. rewrite nth_error_map, Hline. reflexivity. }
  rewrite Hprow in Hcol, Hnz. apply Nat.leb_le in Hcol.
  rewrite length_map in Hcol.
  destruct (nth_error line col) as [pv |] eqn:Hpv;
    [| apply nth_error_None in Hpv; lia].
  assert (Hp : nth col (map value line) 0%Qc = value pv).
  { apply nth_error_nth. rewrite nth_error_map, Hpv. reflexivity. }
  rewrite Hp in Hnz. exists pv. split.
  - unfold getitem2. rewrite (getitem_of_nat _ _ _ Hline). cbn [bind].
    now apply getitem_of_nat.
  - apply value_nonzero. intros E. rewrite E in Hnz. discriminate.
Qed.

(** C2.  On a tableau of ints and Fractions whose rows all have length [n],
    every sequence of valid nonzero pivots returns, and the returned tableau
    denotes exactly the matrix of rationals that hand-exact Gaussian
    elimination [gauss_pivots] gives: at each pivot, with [p] the pivot
    entry, the pivot row divided entrywise by [p], and every other row [r]
    turned entrywise into [M[r][j] - M[r][col] * (M[row][j] / p)].  Entries
    are of type [num], an int or a Fraction: there is no float among them. *)
Theorem pivot_exact (matrix : tableau) (n : nat) (ps : list (nat * nat)) :
  rectangular n matrix ->
  valid_selections (exact matrix) ps = true ->
  exists m',
    pivot_all matrix ps = Done m'
    /\ exact m' = gauss_pivots (exact matrix) ps.
Proof.
  revert matrix. induction ps as [| [row col] ps IH]; intros matrix Hrect Hv.
  - exists matrix. split; reflexivity.
  - cbn [valid_selections fst snd] in Hv. apply andb_prop in Hv as [Hv1 Hv2].
    destruct (valid_selection_inv matrix row col Hv1) as (pv & Hpv & Hnz).
    destruct (pivot_valid matrix n row col pv Hrect Hpv Hnz)
      as (m1 & Hdone & Hex & _ & Hrect' & _).
    rewrite <- Hex in Hv2.
    destruct (IH m1 Hrect' Hv2) as (m' & Hall & Hm').
    exists m'. cbn [pivot_all]. rewrite Hdone. split; [exact Hall |].
    rewrite Hm', Hex. reflexivity.
Qed.

Lemma pivot_exact_witness :
  exists m',
    pivot_all ex1 [(0, 0); (1, 1)]%nat = Done m'
    /\ exact m' = gauss_pivots (exact ex1) [(0, 0); (1, 1)]%nat.
Proof.
  apply (pivot_exact ex1 5 [(0, 0); (1, 1)]%nat).
  - repeat constructor.
  - vm_compute. reflexivity.
Defined.

(** ** Order on numbers and keys *)

Lemma Qc_ltb_lt (p q : Qc) : Qc_ltb p q = true <-> (p < q)%Qc.
Proof.
  unfold Qc_ltb, Qclt. rewrite negb_true_iff.
  split.
  - intros H. apply Qnot_le_lt. intros Hle.
    apply Qle_bool_iff in Hle. congruence.
  - intros H. destruct (Qle_bool q p) eqn:E; [| reflexivity].
    apply Qle_bool_iff in E. exfalso. eapply Qlt_not_le; eauto.
Qed.

Lemma Qc_ltb_ge (p q : Qc) : Qc_ltb p q = false <-> (q <= p)%Qc.
Proof.
  unfold Qc_ltb, Qcle. rewrite negb_false_iff. apply Qle_bool_iff.
Qed.

Lemma num_geb_le (x y : num) : num_geb x y = true <-> (value y <= value x)%Qc.
Proof.
  unfold num_geb, num_ltb. rewrite negb_true_iff. apply Qc_ltb_ge.
Qed.

Lemma key_ltb_irrefl (a : key) : key_ltb a a = false.
Proof. destruct a; simpl; [| reflexivity]. apply Qc_ltb_ge, Qcle_refl. Qed.

Lemma key_ltb_asym (a b : key) : key_ltb a b = true -> key_ltb b a = false.
Proof.
  destruct a, b; simpl; try congruence.
  rewrite Qc_ltb_lt, Qc_ltb_ge. apply Qclt_le_weak.
Qed.

Lemma key_lt_le_trans (a b c : key) :
  key_ltb a b = true -> key_ltb c b = false -> key_ltb a c = true.
Proof.
  destruct a, b, c; simpl; try congruence.
  rewrite !Qc_ltb_lt, Qc_ltb_ge. apply Qclt_le_trans.
Qed.

Lemma key_le_trans (a b c : key) :
  key_ltb b a = false -> key_ltb c b = false -> key_ltb c a = false.
Proof.
  destruct a, b, c; simpl; try congruence.
  rewrite !Qc_ltb_ge. apply Qcle_trans.
Qed.

(** ** The candidate column *)

Lemma min_from_le (best : num) (l : list num) :
  (value (min_from best l) <= value best)%Qc
  /\ Forall (fun x => (value (min_from best l) <= value x)%Qc) l.
Proof.
  revert best. induction l as [| x l IH]; intros best; cbn [min_from].
  - split; [apply Qcle_refl | constructor].
  - destruct (IH (if num_ltb x best then x else best)) as [H1 H2].
    destruct (num_ltb x best) eqn:E; unfold num_ltb in E.
    + apply Qc_ltb_lt in E. split.
      * eapply Qcle_trans; [exact H1 | now apply Qclt_le_weak].
      * constructor; assumption.
    + apply Qc_ltb_ge in E. split; [exact H1 |].
      constructor; [| exact H2]. eapply Qcle_trans; eauto.
Qed.

Lemma min_from_In (best : num) (l : list num) :
  In (min_from best l) (best :: l).
Proof.
  revert best. induction l as [| x l IH]; intros best; cbn [min_from].
  - now left.
  - specialize (IH (if num_ltb x best then x else best)).
    destruct (num_ltb x best); destruct IH as [<- | H]; simpl; auto.
Qed.

Lemma index_from_spec (v : num) (l : list num) (i k : nat) :
  index_from v l i = Ok k ->
  exists x, (i <= k)%nat
            /\ nth_error l (k - i) = Some x
            /\ value x = value v
            /\ forall j y, (j < k - i)%nat -> nth_error l j = Some y ->
                           value y <> value v.
Proof.
  revert i. induction l as [| x l IH]; intros i; cbn [index_from];
    [discriminate |].
  destruct (num_eqb x v) eqn:E.
  - intros [= <-]. exists x. rewrite Nat.sub_diag. repeat split; auto.
    + now apply num_eqb_eq.
    + intros j y Hj. lia.
  - intros H. destruct (IH _ H) as (x' & Hle & Hx' & Hv & Hfirst).
    exists x'. replace (k - i)%nat with (S (k - S i)) by lia.
    repeat split; auto; try lia.
    intros [| j] y Hj Hy; simpl in Hy.
    + injection Hy as <-. now apply num_eqb_neq.
    + apply (Hfirst j y); [lia | exact Hy].
Qed.

Lemma index_from_In (v : num) (l : list num) (i : nat) :
  In v l -> exists k, index_from v l i = Ok k.
Proof.
  revert i. induction l as [| x l IH]; intros i Hin; [contradiction |].
  cbn [index_from]. destruct (num_eqb x v) eqn:E; [eauto |].
  destruct Hin as [-> | Hin]; [| auto].
  apply num_eqb_neq in E. congruence.
Qed.

Lemma nth_error_removelast {A : Type} (l : list A) (i : nat) :
  (i < length (removelast l))%nat ->
  nth_error (removelast l) i = nth_error l i.
Proof.
  rewrite removelast_firstn_len. intros H.
  rewrite nth_error_firstn.
  rewrite length_firstn in H.
  destruct (Nat.ltb_spec i (Init.Nat.pred (length l))); [reflexivity | lia].
Qed.

Lemma candidate_col_spec (matrix : tableau) (last_row : list num) :
  getitem matrix (-1) = Ok last_row ->
  removelast last_row <> [] ->
  exists col c,
    candidate_col matrix = Ok col
    /\ lowest_minimum (removelast last_row) col
    /\ nth_error (removelast last_row) col = Some c
    /\ getitem2 matrix (-1) (Z.of_nat col) = Ok c.
Proof.
  intros Hlast Hne. unfold candidate_col, getitem2. rewrite Hlast.
  cbn [bind]. destruct (removelast last_row) as [| x costs] eqn:Ecosts;
    [contradiction |].
  cbn [py_min bind].
  destruct (min_from_le x costs) as [Hle Hall].
  destruct (index_from_In (min_from x costs) (x :: costs) 0
              (min_from_In x costs)) as [col Hcol].
  unfold py_index. rewrite Hcol.
  destruct (index_from_spec _ _ _ _ Hcol) as (c & _ & Hc & Hv & Hfirst).
  rewrite Nat.sub_0_r in *.
  exists col, c. split; [reflexivity |]. split; [| split; [exact Hc |]].
  - exists c. split; [exact Hc |]. intros j y Hy. rewrite Hv. split.
    + destruct j as [| j]; simpl in Hy.
      * now injection Hy as <-.
      * rewrite Forall_forall in Hall. apply Hall.
        eapply nth_error_In; eauto.
    + intros Heq. destruct (Nat.le_gt_cases col j) as [| Hlt]; [assumption |].
      exfalso. exact (Hfirst j y Hlt Hy Heq).
  - apply getitem_of_nat. rewrite <- Hc, <- Ecosts.
    symmetry. apply nth_error_removelast.
    rewrite Ecosts. apply nth_error_Some. congruence.
Qed.

(** C10.  When the objective row, its last entry left out, attains its
    minimum at several columns, the controller takes the lowest-index one:
    [candidate_col] returns a column holding the minimum, no column before
    it holds the minimum, and it is the column of every suggestion. *)
Theorem candidate_col_lowest (matrix : tableau) (last_row : list num) :
  getitem matrix (-1) = Ok last_row ->
  removelast last_row <> [] ->
  exists col,
    candidate_col matrix = Ok col
    /\ lowest_minimum (removelast last_row) col
    /\ forall row c, select matrix = Ok (Suggest row c) -> c = col.
Proof.
  intros Hlast Hne.
  destruct (candidate_col_spec matrix last_row Hlast Hne)
    as (col & c & Hcol & Hlow & _ & _).
  exists col. split; [exact Hcol |]. split; [exact Hlow |].
  intros row c'. unfold select. rewrite Hcol. cbn [bind].
  destruct (getitem2 matrix (-1) (Z.of_nat col)); cbn [bind]; [| discriminate].
  destruct (num_geb _ _); [discriminate |].
  destruct (min_ratio_row matrix col) as [r |]; cbn [bind]; [| discriminate].
  destruct (getitem2 matrix (Z.of_nat r) (-1)); cbn [bind]; [| discriminate].
  destruct (num_eqb _ _); [discriminate |]. congruence.
Qed.

Lemma candidate_col_lowest_witness :
  exists col,
    candidate_col ex_tie = Ok col
    /\ lowest_minimum [Int (-2); Int (-2); Int 0] col
    /\ forall row c, select ex_tie = Ok (Suggest row c) -> c = col.
Proof.
  apply (candidate_col_lowest ex_tie [Int (-2); Int (-2); Int 0; Int 0]).
  - reflexivity.
  - simpl. discriminate.
Defined.

(** ** Optimality *)

Lemma select_Optimal_iff (matrix : tableau) (last_row : list num) :
  getitem matrix (-1) = Ok last_row ->
  removelast last_row <> [] ->
  select matrix = Ok Optimal <-> Forall nonnegative (removelast last_row).
Proof.
  intros Hlast Hne.
  destruct (candidate_col_spec matrix last_row Hlast Hne)
    as (col & c & Hcol & (c' & Hc' & Hmin) & Hc & Hget).
  assert (c' = c) by congruence. subst c'.
  unfold select. rewrite Hcol. cbn [bind]. rewrite Hget. cbn [bind].
  destruct (num_geb c (Int 0)) eqn:E.
  - split; [intros _ | reflexivity].
    apply Forall_forall. intros x Hin.
    apply In_nth_error in Hin as [j Hj].
    unfold nonnegative. apply num_geb_le. apply num_geb_le in E.
    eapply Qcle_trans; [exact E |]. apply (Hmin j x Hj).
  - split.
    + destruct (min_ratio_row matrix col) as [r |]; cbn [bind];
        [| discriminate].
      destruct (getitem2 matrix (Z.of_nat r) (-1)); cbn [bind];
        [| discriminate].
      destruct (num_eqb _ _); discriminate.
    + intros Hall. rewrite Forall_forall in Hall.
      specialize (Hall c (nth_error_In _ _ Hc)). unfold nonnegative in Hall.
      congruence.
Qed.

Lemma select_Optimal_inv (matrix : tableau) :
  select matrix = Ok Optimal ->
  exists last_row,
    getitem matrix (-1) = Ok last_row
    /\ Forall nonnegative (removelast last_row).
Proof.
  intros H.
  assert (Hc : exists last_row, getitem matrix (-1) = Ok last_row
                                /\ removelast last_row <> []).
  { unfold select, candidate_col in H.
    destruct (getitem matrix (-1)) as [last_row |]; [| discriminate].
    exists last_row. split; [reflexivity |].
    cbn [bind] in H. intros E. rewrite E in H. discriminate. }
  destruct Hc as (last_row & Hlast & Hne). exists last_row.
  split; [exact Hlast |]. now apply (select_Optimal_iff matrix last_row).
Qed.

Lemma simplex_step_Return (ins : console) (matrix m' : tableau) (pos : nat) :
  simplex_step ins matrix pos = Return m' <->
  m' = matrix /\ select matrix = Ok Optimal.
Proof.
  unfold simplex_step.
  destruct (select matrix) as [[| | row col] | e].
  - split; [intros [= <-]; auto | intros [-> _]; reflexivity].
  - split; [discriminate | intros [_ H]; discriminate].
  - split; [| intros [_ H]; discriminate].
    destruct (read_choice _ _ _ _) as [[[[r c] pos'] out] |]; [| discriminate].
    destruct (pivot matrix r c) as [m2 | []]; try discriminate.
    destruct (pretty_print m2); discriminate.
  - split; [discriminate | intros [_ H]; discriminate].
Qed.

Lemma simplex_Returned (fuel : nat) (ins : console) (matrix m' : tableau)
      (pos pos' : nat) :
  simplex fuel ins matrix pos = Returned m' pos' -> select m' = Ok Optimal.
Proof.
  revert matrix pos. induction fuel as [| fuel IH]; intros matrix pos;
    cbn [simplex]; [discriminate |].
  destruct (simplex_step ins matrix pos) as [m | e m | m p out] eqn:E.
  - intros [= <- <-]. now apply simplex_step_Return in E as [-> ?].
  - discriminate.
  - apply IH.
Qed.

(** C3.  On a tableau with an objective row that has at least one entry
    besides the right-hand side: a turn of the loop returns, and then
    returns the tableau unchanged, if and only if no such entry is negative
    (the minimum is >= 0); otherwise it goes on to the ratio test.  So the
    loop started on a tableau meeting the criterion returns it at once, and
    whatever tableau a run returns meets the criterion. *)
Theorem simplex_optimal_iff (matrix : tableau) (last_row : list num) :
  getitem matrix (-1) = Ok last_row ->
  removelast last_row <> [] ->
  (forall (ins : console) (pos : nat) (m' : tableau),
      simplex_step ins matrix pos = Return m' <->
      m' = matrix /\ Forall nonnegative (removelast last_row))
  /\ (forall (fuel : nat) (ins : console) (pos : nat),
         Forall nonnegative (removelast last_row) ->
         simplex (S fuel) ins matrix pos = Returned matrix pos)
  /\ (forall (fuel : nat) (ins : console) (pos pos' : nat) (m' : tableau),
         simplex fuel ins matrix pos = Returned m' pos' ->
         exists last_row',
           getitem m' (-1) = Ok last_row'
           /\ Forall nonnegative (removelast last_row')).
Proof.
  intros Hlast Hne.
  pose proof (select_Optimal_iff matrix last_row Hlast Hne) as Hiff.
  split; [| split].
  - intros ins pos m'. rewrite simplex_step_Return, Hiff. reflexivity.
  - intros fuel ins pos Hall. cbn [simplex].
    assert (E : simplex_step ins matrix pos = Return matrix)
      by (apply simplex_step_Return; split; [reflexivity | now apply Hiff]).
    rewrite E. reflexivity.
  - intros fuel ins pos pos' m' H.
    apply select_Optimal_inv. eapply simplex_Returned; eauto.
Qed.

Lemma simplex_optimal_iff_witness :
  (forall (ins : console) (pos : nat) (m' : tableau),
      simplex_step ins ex1 pos = Return m' <->
      m' = ex1 /\ Forall nonnegative [Int (-3); Int (-2); Int 0; Int 0])
  /\ (forall (fuel : nat) (ins : console) (pos : nat),
         Forall nonnegative [Int (-3); Int (-2); Int 0; Int 0] ->
         simplex (S fuel) ins ex1 pos = Returned ex1 pos)
  /\ (forall (fuel : nat) (ins : console) (pos pos' : nat) (m' : tableau),
         simplex fuel ins ex1 pos = Returned m' pos' ->
         exists last_row',
           getitem m' (-1) = Ok last_row'
           /\ Forall nonnegative (removelast last_row')).
Proof.
  apply (simplex_optimal_iff ex1 [Int (-3); Int (-2); Int 0; Int 0; Int 0]).
  - reflexivity.
  - simpl. discriminate.
Defined.

(** ** The model of [int / int], on known values *)

Example int_truediv_third :
  match int_truediv 1 3 with
  | Ok q => this q = 6004799503160661 # 18014398509481984
  | Raise _ => False
  end.
Proof. vm_compute. reflexivity. Qed.

Example int_truediv_ties_to_even :
  match int_truediv (2 ^ 53 + 1) 1, int_truediv (2 ^ 53 + 3) 1 with
  | Ok q, Ok q' => this q = inject_Z (2 ^ 53) /\ this q' = inject_Z (2 ^ 53 + 4)
  | _, _ => False
  end.
Proof. vm_compute. split; reflexivity. Qed.

Example int_truediv_overflow :
  int_truediv (2 ^ 1024) 1 = Raise OverflowError
  /\ int_truediv (- 2 ^ 1024) 3 <> Raise OverflowError.
Proof. split; [vm_compute; reflexivity | vm_compute; discriminate]. Qed.

(** ** The ratio test *)

Lemma argmin_from_spec (rest pre : list key) (best : nat) :
  first_argmin pre best ->
  forall kbest, nth_error pre best = Some kbest ->
  first_argmin (pre ++ rest)
    (argmin_from best kbest (combine (seq (length pre) (length rest)) rest)).
Proof.
  revert pre best.
  induction rest as [| k rest IH]; intros pre best Hbest kbest Hk.
  - cbn. now rewrite app_nil_r.
  - assert (Hlen : S (length pre) = length (pre ++ [k]))
      by (rewrite length_app; simpl; lia).
    assert (Hlt : (best < length pre)%nat)
      by (apply nth_error_Some; congruence).
    destruct Hbest as (kb & Hkb & Hmin).
    assert (kb = kbest) by congruence. subst kb.
    cbn [length seq combine argmin_from].
    replace (pre ++ k :: rest) with ((pre ++ [k]) ++ rest)
      by (rewrite <- app_assoc; reflexivity).
    rewrite Hlen.
    destruct (key_ltb k kbest) eqn:E.
    + apply IH.
      * exists k. split.
        { rewrite nth_error_app2, Nat.sub_diag by lia. reflexivity. }
        intros i ki Hi.
        destruct (Nat.lt_ge_cases i (length pre)) as [Hi' | Hi'].
        -- rewrite nth_error_app1 in Hi by assumption.
           destruct (Hmin i ki Hi) as [Hge _].
           assert (Hlt' : key_ltb k ki = true)
             by (eapply key_lt_le_trans; eauto).
           split; [now apply key_ltb_asym | auto].
        -- rewrite nth_error_app2 in Hi by assumption.
           destruct (i - length pre)%nat as [| d] eqn:Ed.
           ++ injection Hi as <-. split; [apply key_ltb_irrefl | lia].
           ++ destruct d; discriminate.
      * rewrite nth_error_app2, Nat.sub_diag by lia. reflexivity.
    + apply IH.
      * exists kbest. split; [now rewrite nth_error_app1 |].
        intros i ki Hi.
        destruct (Nat.lt_ge_cases i (length pre)) as [Hi' | Hi'].
        -- rewrite nth_error_app1 in Hi by assumption. now apply Hmin.
        -- rewrite nth_error_app2 in Hi by assumption.
           destruct (i - length pre)%nat as [| d] eqn:Ed.
           ++ injection Hi as <-. split; [exact E | lia].
           ++ destruct d; discriminate.
      * now rewrite nth_error_app1.
Qed.

Lemma first_argmin_unique (keys : list key) (r1 r2 : nat) :
  first_argmin keys r1 -> first_argmin keys r2 -> r1 = r2.
Proof.
  intros (k1 & Hk1 & H1) (k2 & Hk2 & H2).
  destruct (Nat.lt_trichotomy r1 r2) as [Hlt | [-> | Hlt]]; [| reflexivity |].
  - destruct (H2 r1 k1 Hk1) as [_ Hb]. specialize (Hb Hlt).
    destruct (H1 r2 k2 Hk2) as [Ha _]. congruence.
  - destruct (H1 r2 k2 Hk2) as [_ Hb]. specialize (Hb Hlt).
    destruct (H2 r1 k1 Hk1) as [Ha _]. congruence.
Qed.

Lemma mapM_indexed {A : Type} (f : nat -> res A) (items : list nat)
      (ks : list (nat * A)) :
  mapM (fun i => k <- f i ;; Ok (i, k)) items = Ok ks <->
  exists keys, mapM f items = Ok keys /\ ks = combine items keys.
Proof.
  revert ks. induction items as [| i items IH]; intros ks; cbn [mapM].
  - split.
    + intros [= <-]. exists []. auto.
    + intros (keys & [= <-] & ->). reflexivity.
  - destruct (f i) as [k |]; cbn [bind].
    + destruct (mapM (fun i => k <- f i ;; Ok (i, k)) items) as [ks' |];
        cbn [bind].
      * destruct (proj1 (IH ks') eq_refl) as (keys & Hkeys & ->).
        rewrite Hkeys. cbn [bind]. split.
        -- intros [= <-]. exists (k :: keys). auto.
        -- intros (keys' & [= <-] & ->). reflexivity.
      * split; [discriminate |].
        intros (keys' & H & _).
        destruct (mapM f items) as [keys |]; cbn [bind] in H; [| discriminate].
        assert (Hx : Raise e = Ok (combine items keys))
          by (apply IH; eauto).
        discriminate.
    + split; [discriminate | intros (keys & H & _); discriminate].
Qed.

(** [min(range(n), key=...)] returns exactly the first argmin of the keys,
    and returns as soon as there is a row and every key can be computed. *)
Lemma py_min_key_spec (n : nat) (keyf : nat -> res key) (row : nat) :
  py_min_key (seq 0 n) keyf = Ok row <->
  exists keys, mapM keyf (seq 0 n) = Ok keys /\ first_argmin keys row.
Proof.
  unfold py_min_key.
  destruct (mapM (fun i => k <- keyf i ;; Ok (i, k)) (seq 0 n)) as [ks |] eqn:E;
    cbn [bind].
  - apply mapM_indexed in E as (keys & Hkeys & ->).
    pose proof (mapM_length _ _ _ Hkeys) as Hlen. rewrite length_seq in Hlen.
    assert (Hspec : keys <> [] ->
                    exists r, match combine (seq 0 n) keys with
                              | [] => Raise (ValueError
                                               "min() arg is an empty sequence")
                              | (i, k) :: rest => Ok (argmin_from i k rest)
                              end = Ok r /\ first_argmin keys r).
    { destruct keys as [| k0 keys]; [congruence |]. intros _.
      simpl in Hlen. subst n. cbn [seq combine].
      eexists. split; [reflexivity |].
      apply (argmin_from_spec keys [k0] 0%nat); [| reflexivity].
      exists k0. split; [reflexivity |].
      intros [| i] ki Hi; simpl in Hi.
      - injection Hi as <-. split; [apply key_ltb_irrefl | lia].
      - destruct i; discriminate. }
    split.
    + intros H. exists keys. split; [exact Hkeys |].
      destruct keys as [| k0 keys].
      * simpl in Hlen. subst n. discriminate.
      * destruct Hspec as (r & Hr & Hfirst); [discriminate |].
        rewrite Hr in H. now injection H as <-.
    + intros (keys' & Hkeys' & Hfirst).
      assert (keys' = keys) by congruence. subst keys'.
      destruct Hspec as (r & Hr & Hfirst').
      * intros ->. destruct Hfirst as (k & Hk & _). destruct row; discriminate.
      * rewrite Hr. f_equal. eapply first_argmin_unique; eauto.
  - split; [discriminate |].
    intros (keys & Hkeys & _).
    assert (Hx : Raise e = Ok (combine (seq 0 n) keys))
      by (rewrite <- E; apply mapM_indexed; eauto).
    discriminate.
Qed.

Lemma ratio_key_spec (matrix : tableau) (col x : nat) (k : key) :
  ratio_key matrix col x = Ok k <-> key_of_row matrix col x k.
Proof.
  unfold ratio_key, key_of_row.
  destruct (getitem2 matrix (Z.of_nat x) (Z.of_nat col)) as [c |];
    cbn [bind].
  - destruct (num_eqb c (Int 0)) eqn:E; cbn [negb].
    + apply value_zero in E. split.
      * intros [= <-]. eauto.
      * intros (c' & [= <-] & H). destruct k as [q |]; [| reflexivity].
        destruct H as [H _]. contradiction.
    + apply value_nonzero in E. split.
      * destruct (getitem2 matrix (Z.of_nat x) (-1)) as [rhs |]; cbn [bind];
          [| discriminate].
        destruct (py_truediv rhs c) as [q |] eqn:Eq; cbn [bind];
          [| discriminate].
        intros [= <-]. exists c. split; [reflexivity |]. split; [exact E |].
        exists rhs. auto.
      * intros (c' & [= <-] & H). destruct k as [q |]; [| contradiction].
        destruct H as (_ & rhs & -> & Hq). cbn [bind]. rewrite Hq.
        reflexivity.
  - split; [discriminate | intros (c & H & _); discriminate].
Qed.

(** Either operand a Fraction: the quotient is the exact rational. *)
Lemma py_truediv_exact (x y : num) :
  isinstance_int x && isinstance_int y = false ->
  value y <> 0%Qc ->
  py_truediv x y = Ok (value x / value y)%Qc.
Proof.
  intros Hty Hnz. unfold py_truediv.
  replace (num_eqb y (Int 0)) with false
    by (symmetry; now apply value_nonzero).
  destruct x, y; try reflexivity. discriminate.
Qed.

Lemma Forall2_nth_error {A B : Type} (R : A -> B -> Prop) (l : list A)
      (l' : list B) (i : nat) (a : A) (b : B) :
  Forall2 R l l' -> nth_error l i = Some a -> nth_error l' i = Some b -> R a b.
Proof.
  intros HF. revert i. induction HF as [| x y l l' Hxy HF IH]; intros i Ha Hb.
  - destruct i; discriminate.
  - destruct i as [| i]; simpl in Ha, Hb.
    + congruence.
    + eapply IH; eauto.
Qed.

Lemma first_argmin_exists (keys : list key) :
  keys <> [] -> exists row, first_argmin keys row.
Proof.
  destruct keys as [| k0 keys]; [congruence |]. intros _.
  exists (argmin_from 0 k0 (combine (seq 1 (length keys)) keys)).
  apply (argmin_from_spec keys [k0] 0%nat); [| reflexivity].
  exists k0. split; [reflexivity |].
  intros [| i] ki Hi; simpl in Hi.
  - injection Hi as <-. split; [apply key_ltb_irrefl | lia].
  - destruct i; discriminate.
Qed.

Lemma ratio_keys_spec (matrix : tableau) (col : nat) (keys : list key) :
  mapM (ratio_key matrix col) (seq 0 (length matrix - 1)) = Ok keys ->
  forall x k, nth_error keys x = Some k -> key_of_row matrix col x k.
Proof.
  intros Hkeys x k Hk. apply ratio_key_spec.
  pose proof (mapM_Ok_Forall2 _ _ _ Hkeys) as HF.
  pose proof (mapM_length _ _ _ Hkeys) as Hlen. rewrite length_seq in Hlen.
  assert (Hx : nth_error (seq 0 (length matrix - 1)) x = Some x).
  { rewrite nth_error_seq.
    assert (x < length keys)%nat by (apply nth_error_Some; congruence).
    destruct (Nat.ltb_spec x (length matrix - 1)); [reflexivity | lia]. }
  exact (Forall2_nth_error _ _ _ x x k HF Hx Hk).
Qed.

(** The ratio test as the code computes it: it returns [row] exactly when
    the keys of the candidate rows [0 .. rowCount - 2] can all be computed
    and [row] is the first position, in row order, of a smallest key; it
    does return as soon as there is a candidate row and the keys can be
    computed.  The key of a row is infinite when its entry in column [col]
    is 0 and is otherwise the quotient of its right-hand side by that entry
    as [/] evaluates it. *)
Lemma min_ratio_row_first_argmin (matrix : tableau) (col row : nat) :
  (min_ratio_row matrix col = Ok row <->
   exists keys,
     mapM (ratio_key matrix col) (seq 0 (length matrix - 1)) = Ok keys
     /\ first_argmin keys row)
  /\ (forall keys,
         mapM (ratio_key matrix col) (seq 0 (length matrix - 1)) = Ok keys ->
         (forall x k, nth_error keys x = Some k -> key_of_row matrix col x k)
         /\ (keys <> [] -> exists r, min_ratio_row matrix col = Ok r)).
Proof.
  split; [apply py_min_key_spec |].
  intros keys Hkeys. split; [now apply ratio_keys_spec |].
  intros Hne. destruct (first_argmin_exists keys Hne) as [r Hr].
  exists r. apply py_min_key_spec. eauto.
Qed.

(** C6 fails on the code.  The claim, and the code's own comment on the
    line ("Find the row with the minimum ratio"), ask for the row of
    smallest ratio.  On [ex_round] the ratios are [2^53 + 1] for row 0 and
    [2^53] for row 1, so that row is row 1; but the ratio of two ints is
    computed as a float, both quotients round to the float [2^53], and the
    ratio test returns row 0, which the controller suggests. *)
Theorem ratio_test_rounds_to_float :
  select ex_round = Ok (Suggest 0 0)
  /\ min_ratio_row ex_round 0 = Ok 0%nat
  /\ ratio_key ex_round 0 0 = ratio_key ex_round 0 1
  /\ exists keys,
      mapM (exact_key ex_round 0) (seq 0 2) = Ok keys
      /\ first_argmin keys 1
      /\ ~ first_argmin keys 0.
Proof.
  split; [vm_compute; reflexivity |].
  split; [vm_compute; reflexivity |].
  split; [vm_compute; reflexivity |].
  eexists. split; [vm_compute; reflexivity |]. split.
  - eexists. split; [reflexivity |].
    intros [| [| i]] ki Hi; simpl in Hi.
    + injection Hi as <-. split; [vm_compute; reflexivity | intros _].
      vm_compute. reflexivity.
    + injection Hi as <-. split; [vm_compute; reflexivity | lia].
    + destruct i; discriminate.
  - intros (k & Hk & H). simpl in Hk. injection Hk as <-.
    destruct (H 1%nat _ eq_refl) as [Hge _].
    vm_compute in Hge. discriminate.
Qed.

(** A row with a zero entry in the column is not left out of the minimum:
    when every candidate row has one, all keys are infinite and row 0 is
    suggested, though pivoting there divides by zero. *)
Lemma zero_coefficient_row_suggested :
  select ex_zero_column = Ok (Suggest 0 0)
  /\ ratio_key ex_zero_column 0 0 = Ok Infinity
  /\ pivot ex_zero_column 0 0 = Failed ZeroDivisionError ex_zero_column.
Proof. repeat split; vm_compute; reflexivity. Qed.

(** ** Which exceptions can be raised where *)

Lemma py_mod_error (x y : num) (e : exn) :
  py_mod x y = Raise e -> e = ZeroDivisionError.
Proof.
  unfold py_mod. destruct (num_eqb y (Int 0)); [congruence |].
  destruct x, y; discriminate.
Qed.

Lemma py_floordiv_error (x y : num) (e : exn) :
  py_floordiv x y = Raise e -> e = ZeroDivisionError.
Proof.
  unfold py_floordiv. destruct (num_eqb y (Int 0)); [congruence |].
  destruct x, y; discriminate.
Qed.

Lemma Fraction_of_error (x y : num) (e : exn) :
  Fraction_of x y = Raise e -> e = ZeroDivisionError.
Proof.
  unfold Fraction_of. destruct (num_eqb y (Int 0)); [congruence | discriminate].
Qed.

Lemma divide_by_int_error (pv x : num) (e : exn) :
  divide_by_int pv x = Raise e -> e = ZeroDivisionError.
Proof.
  unfold divide_by_int.
  destruct (py_mod x pv) as [m |] eqn:E; cbn [bind].
  - destruct (num_eqb m (Int 0));
      [apply py_floordiv_error | apply Fraction_of_error].
  - intros [= <-]. eapply py_mod_error; eauto.
Qed.

Lemma normalize_row_error (pv : num) (line : list num) (e : exn) :
  normalize_row pv line = Raise e -> e = ZeroDivisionError.
Proof.
  destruct pv as [p | q]; cbn [normalize_row]; intros H;
    apply mapM_error in H as (x & _ & H).
  - eapply divide_by_int_error; eauto.
  - unfold truediv_Fraction in H.
    destruct (Qc_eq_bool q (Qc_of_Z 0)); congruence.
Qed.

Lemma getitem2_error (matrix : tableau) (r c : Z) (e : exn) :
  getitem2 matrix r c = Raise e -> e = IndexError.
Proof.
  unfold getitem2. destruct (getitem matrix r) as [line |] eqn:E; cbn [bind].
  - apply getitem_error.
  - intros [= <-]. eapply getitem_error; eauto.
Qed.

Lemma reduce_by_int_error (f p : num) (xy : num * num) (e : exn) :
  reduce_by_int f p xy = Raise e -> e = ZeroDivisionError.
Proof.
  destruct xy as [x y]. unfold reduce_by_int.
  destruct (py_mod f p) as [m |] eqn:E; cbn [bind].
  - destruct (num_eqb m (Int 0)).
    + destruct (py_floordiv f p) eqn:E'; cbn [bind]; [discriminate |].
      intros [= <-]. eapply py_floordiv_error; eauto.
    + destruct (Fraction_of f p) eqn:E'; cbn [bind]; [discriminate |].
      intros [= <-]. eapply Fraction_of_error; eauto.
  - intros [= <-]. eapply py_mod_error; eauto.
Qed.

Lemma eliminate_row_error (st : tableau) (r : nat) (row col : Z) (e : exn) :
  eliminate_row st r row col = Raise e ->
  e = IndexError \/ e = ZeroDivisionError.
Proof.
  unfold eliminate_row.
  destruct (getitem2 st (Z.of_nat r) col) as [f |] eqn:E1; cbn [bind];
    [| intros [= <-]; left; eapply getitem2_error; eauto].
  assert (Hplain : forall l, mapM (reduce_plain f) l = Raise e -> False).
  { intros l H. apply mapM_error in H as (xy & _ & H). discriminate. }
  destruct (isinstance_int f).
  - destruct (getitem2 st row col) as [p |] eqn:E2; cbn [bind];
      [| intros [= <-]; left; eapply getitem2_error; eauto].
    destruct (getitem st (Z.of_nat r)) as [line_r |] eqn:E3; cbn [bind];
      [| intros [= <-]; left; eapply getitem_error; eauto].
    destruct (getitem st row) as [line_row |] eqn:E4; cbn [bind];
      [| intros [= <-]; left; eapply getitem_error; eauto].
    destruct (isinstance_int p); intros H.
    + apply mapM_error in H as (xy & _ & H).
      right. eapply reduce_by_int_error; eauto.
    + exfalso. eauto.
  - destruct (getitem st (Z.of_nat r)) as [line_r |] eqn:E3; cbn [bind];
      [| intros [= <-]; left; eapply getitem_error; eauto].
    destruct (getitem st row) as [line_row |] eqn:E4; cbn [bind];
      [| intros [= <-]; left; eapply getitem_error; eauto].
    intros H. exfalso. eauto.
Qed.

Lemma eliminate_error (rows : list nat) (st st' : tableau) (row col : Z)
      (e : exn) :
  eliminate rows st row col = Failed e st' ->
  e = IndexError \/ e = ZeroDivisionError.
Proof.
  revert st. induction rows as [| r rows IH]; intros st; cbn [eliminate];
    [discriminate |].
  destruct (Z.of_nat r =? row); [apply IH |].
  destruct (eliminate_row st r row col) as [l |] eqn:E; [apply IH |].
  intros [= <- <-]. eapply eliminate_row_error; eauto.
Qed.

(** [pivot] raises nothing but [IndexError] and [ZeroDivisionError]. *)
Lemma pivot_error (matrix m' : tableau) (row col : Z) (e : exn) :
  pivot matrix row col = Failed e m' ->
  e = IndexError \/ e = ZeroDivisionError.
Proof.
  unfold pivot.
  destruct (getitem2 matrix row col) as [pv |] eqn:E1;
    [| intros [= <- <-]; left; eapply getitem2_error; eauto].
  destruct (getitem matrix row) as [line |] eqn:E2; cbn [bind];
    [| intros [= <- <-]; left; eapply getitem_error; eauto].
  destruct (normalize_row pv line) as [new_row |] eqn:E3;
    [| intros [= <- <-]; right; eapply normalize_row_error; eauto].
  unfold setitem. destruct (py_pos matrix row) as [k |];
    [| intros [= <- <-]; now left].
  destruct (eliminate _ _ row col) as [m2 | e2 m2] eqn:E4; [discriminate |].
  intros [= <- <-]. eapply eliminate_error; eauto.
Qed.

(** A zero pivot entry: the call raises before it stores anything. *)
Lemma pivot_zero (matrix : tableau) (row col : Z) (pv : num) :
  getitem2 matrix row col = Ok pv ->
  value pv = 0%Qc ->
  pivot matrix row col = Failed ZeroDivisionError matrix.
Proof.
  intros Hpv Hz. unfold pivot. rewrite Hpv.
  unfold getitem2 in Hpv.
  destruct (getitem matrix row) as [line |]; cbn [bind] in *; [| discriminate].
  destruct line as [| x line].
  - apply getitem_In in Hpv. contradiction.
  - now rewrite normalize_row_zero.
Qed.

Lemma int_truediv_error (a b : Z) (e : exn) :
  int_truediv a b = Raise e -> e = ZeroDivisionError \/ e = OverflowError.
Proof.
  unfold int_truediv. destruct (b =? 0); [intros [= <-]; now left |].
  destruct (a =? 0); [discriminate |].
  match goal with |- context [if ?c then Raise OverflowError else _] =>
    destruct c end; [intros [= <-]; now right | discriminate].
Qed.

Lemma py_truediv_error (x y : num) (e : exn) :
  py_truediv x y = Raise e -> e = ZeroDivisionError \/ e = OverflowError.
Proof.
  unfold py_truediv. destruct (num_eqb y (Int 0)); [intros [= <-]; now left |].
  destruct x, y; try discriminate. apply int_truediv_error.
Qed.

Lemma ratio_key_error (matrix : tableau) (col x : nat) (e : exn) :
  ratio_key matrix col x = Raise e ->
  e = IndexError \/ e = ZeroDivisionError \/ e = OverflowError.
Proof.
  unfold ratio_key.
  destruct (getitem2 matrix (Z.of_nat x) (Z.of_nat col)) as [c |] eqn:E1;
    cbn [bind]; [| intros [= <-]; left; eapply getitem2_error; eauto].
  destruct (negb (num_eqb c (Int 0))); [| discriminate].
  destruct (getitem2 matrix (Z.of_nat x) (-1)) as [rhs |] eqn:E2;
    cbn [bind]; [| intros [= <-]; left; eapply getitem2_error; eauto].
  destruct (py_truediv rhs c) as [q |] eqn:E3; cbn [bind]; [discriminate |].
  intros [= <-]. right. eapply py_truediv_error; eauto.
Qed.

Lemma index_from_error (v : num) (l : list num) (i : nat) (e : exn) :
  index_from v l i = Raise e -> e = ValueError "x is not in list".
Proof.
  revert i. induction l as [| x l IH]; intros i; cbn [index_from].
  - congruence.
  - destruct (num_eqb x v); [discriminate | apply IH].
Qed.

(** The selection never raises the [ValueError] of an unbounded program
    by accident. *)
Lemma select_error (matrix : tableau) (e : exn) :
  select matrix = Raise e -> e <> unbounded_error.
Proof.
  unfold select, candidate_col.
  destruct (getitem matrix (-1)) as [last_row |] eqn:E1; cbn [bind];
    [| intros [= <-]; apply getitem_error in E1; subst; discriminate].
  destruct (py_min (removelast last_row)) as [mn |] eqn:E2; cbn [bind].
  2:{ intros [= <-]. unfold py_min in E2.
      destruct (removelast last_row); [| discriminate].
      injection E2 as <-. discriminate. }
  destruct (py_index mn (removelast last_row)) as [col |] eqn:E3; cbn [bind];
    [| intros [= <-]; apply index_from_error in E3; subst; discriminate].
  destruct (getitem2 matrix (-1) (Z.of_nat col)) as [c |] eqn:E4; cbn [bind];
    [| intros [= <-]; apply getitem2_error in E4; subst; discriminate].
  destruct (num_geb c (Int 0)); [discriminate |].
  destruct (min_ratio_row matrix col) as [row |] eqn:E5; cbn [bind].
  - destruct (getitem2 matrix (Z.of_nat row) (-1)) as [rhs |] eqn:E6;
      cbn [bind];
      [| intros [= <-]; apply getitem2_error in E6; subst; discriminate].
    destruct (num_eqb rhs (Int 0)); discriminate.
  - intros [= <-]. unfold min_ratio_row, py_min_key in E5.
    destruct (mapM _ (seq 0 (length matrix - 1))) as [ks |] eqn:E7;
      cbn [bind] in E5.
    + destruct ks as [| [i k] ks]; [| discriminate].
      injection E5 as <-. discriminate.
    + injection E5 as <-. apply mapM_error in E7 as (x & _ & E7).
      destruct (ratio_key matrix col x) as [k |] eqn:E8; cbn [bind] in E7;
        [discriminate |].
      injection E7 as <-.
      apply ratio_key_error in E8 as [-> | [-> | ->]]; discriminate.
Qed.

(** ** Reporting an unbounded program *)

Lemma select_Unbounded_iff (matrix : tableau) :
  select matrix = Ok Unbounded <-> zero_rhs_at_ratio_row matrix.
Proof.
  unfold select, zero_rhs_at_ratio_row, num_geb. split.
  - intros H.
    destruct (candidate_col matrix) as [col |] eqn:Ecol; cbn [bind] in H;
      [| discriminate].
    destruct (getitem2 matrix (-1) (Z.of_nat col)) as [c |] eqn:Ec;
      cbn [bind] in H; [| discriminate].
    destruct (num_ltb c (Int 0)) eqn:Eneg; cbn [negb] in H; [| discriminate].
    destruct (min_ratio_row matrix col) as [row |] eqn:Erow; cbn [bind] in H;
      [| discriminate].
    destruct (getitem2 matrix (Z.of_nat row) (-1)) as [rhs |] eqn:Erhs;
      cbn [bind] in H; [| discriminate].
    destruct (num_eqb rhs (Int 0)) eqn:E0; [| discriminate].
    exists col, c, row, rhs. auto 10.
  - intros (col & c & row & rhs & -> & Hc & Hneg & Hrow & Hrhs & H0).
    cbn [bind]. rewrite Hc. cbn [bind]. rewrite Hneg. cbn [negb].
    rewrite Hrow. cbn [bind]. rewrite Hrhs. cbn [bind]. now rewrite H0.
Qed.

Lemma read_choice_error (ins : console) (pos : nat) (row col : Z) (e : exn) :
  read_choice ins pos row col = Raise e -> e = EOFError.
Proof.
  unfold read_choice. destruct (ins pos); try congruence.
  destruct (ins (S pos)); congruence.
Qed.

Lemma simplex_step_unbounded (ins : console) (matrix m' : tableau) (pos : nat) :
  simplex_step ins matrix pos = Throw unbounded_error m' <->
  m' = matrix /\ select matrix = Ok Unbounded.
Proof.
  unfold simplex_step.
  destruct (select matrix) as [[| | row col] | e] eqn:Esel.
  - split; [discriminate | intros [_ H]; discriminate].
  - split; [intros [= <-]; auto | intros [-> _]; reflexivity].
  - split; [| intros [_ H]; discriminate].
    destruct (read_choice _ _ _ _) as [[[[r c] pos'] out] | e] eqn:Eread.
    + destruct (pivot matrix r c) as [m2 | e m2] eqn:Epiv.
      * destruct (pretty_print m2) as [lines | e] eqn:Epp; [discriminate |].
        apply pretty_print_error in Epp as ->.
        intros H. exfalso. apply digits_error_not_unbounded. congruence.
      * apply pivot_error in Epiv as [-> | ->]; discriminate.
    + apply read_choice_error in Eread as ->. discriminate.
  - split; [| intros [_ H]; discriminate].
    intros [= -> <-]. exfalso. eapply select_error; eauto.
Qed.

(** C4, as the code has it.  A turn of the loop reports [Unbounded] exactly
    when the most negative objective entry is negative and the row returned
    by the ratio test has right-hand side 0; the report leaves the tableau
    as it was and comes before any pivot choice is read or any pivot
    attempted. *)
Theorem unbounded_report_iff (ins : console) (matrix m' : tableau) (pos : nat) :
  simplex_step ins matrix pos = Throw unbounded_error m' <->
  m' = matrix /\ zero_rhs_at_ratio_row matrix.
Proof.
  rewrite simplex_step_unbounded, select_Unbounded_iff. reflexivity.
Qed.

(** On [ex_unbounded] the selected column 0 has no positive entry in the
    only candidate row, yet the ratio test returns row 0 (ratio [4 / -1]),
    whose right-hand side is 4: the controller suggests the pivot (0, 0) and
    never reports [Unbounded]. *)
Lemma nonpositive_column_not_reported :
  candidate_col ex_unbounded = Ok 0%nat
  /\ column_nonpositive ex_unbounded 0 = true
  /\ select ex_unbounded = Ok (Suggest 0 0)
  /\ forall (ins : console) (pos : nat) (m' : tableau),
      simplex_step ins ex_unbounded pos <> Throw unbounded_error m'.
Proof.
  split; [vm_compute; reflexivity |].
  split; [vm_compute; reflexivity |].
  assert (Hsel : select ex_unbounded = Ok (Suggest 0 0))
    by (vm_compute; reflexivity).
  split; [exact Hsel |].
  intros ins pos m' H. apply simplex_step_unbounded in H as [_ H].
  rewrite Hsel in H. discriminate.
Qed.

(** ** A zero pivot entry *)

(** C5.  When [matrix[row][col]] exists and is zero, [pivot] raises
    [ZeroDivisionError] and the list holds what it held before; and a turn of
    the loop whose pivot choice is that entry catches the exception, says
    so, and goes back to the selection with the same tableau. *)
Theorem pivot_zero_entry (matrix : tableau) (row col : Z) (pv : num) :
  getitem2 matrix row col = Ok pv ->
  num_eqb pv (Int 0) = true ->
  pivot matrix row col = Failed ZeroDivisionError matrix
  /\ forall (ins : console) (pos pos' : nat) (r0 c0 : nat) (out : list event),
      select matrix = Ok (Suggest r0 c0) ->
      read_choice ins pos (Z.of_nat r0) (Z.of_nat c0)
      = Ok (row, col, pos', out) ->
      simplex_step ins matrix pos = Continue matrix pos' (out ++ [SayZeroPivot])
      /\ forall fuel, simplex (S fuel) ins matrix pos
                      = simplex fuel ins matrix pos'.
Proof.
  intros Hpv Hz. apply value_zero in Hz.
  pose proof (pivot_zero matrix row col pv Hpv Hz) as Hfail.
  split; [exact Hfail |].
  intros ins pos pos' r0 c0 out Hsel Hread.
  assert (Hstep : simplex_step ins matrix pos
                  = Continue matrix pos' (out ++ [SayZeroPivot])).
  { unfold simplex_step. now rewrite Hsel, Hread, Hfail. }
  split; [exact Hstep |].
  intros fuel. cbn [simplex]. now rewrite Hstep.
Qed.

Lemma pivot_zero_entry_witness :
  pivot ex1 0 3 = Failed ZeroDivisionError ex1
  /\ simplex_step picks_zero_entry ex1 0 = Continue ex1 2 [SayZeroPivot]
  /\ forall fuel, simplex (S fuel) picks_zero_entry ex1 0
                  = simplex fuel picks_zero_entry ex1 2.
Proof.
  destruct (pivot_zero_entry ex1 0 3 (Int 0)) as [Hfail Hloop].
  - reflexivity.
  - vm_compute. reflexivity.
  - split; [exact Hfail |].
    apply (Hloop picks_zero_entry 0%nat 2%nat 0%nat 0%nat []); reflexivity.
Defined.

(** ** Runs that end in [Unbounded] *)












(** ** The report *)

Lemma index_from_first (v : num) (l : list num) (i k : nat) (x : num) :
  nth_error l k = Some x ->
  value x = value v ->
  (forall j y, (j < k)%nat -> nth_error l j = Some y -> value y <> value v) ->
  index_from v l i = Ok (i + k)%nat.
Proof.
  revert i k. induction l as [| a l IH]; intros i k Hk Hv Hfirst.
  - destruct k; discriminate.
  - cbn [index_from]. destruct k as [| k]; simpl in Hk.
    + injection Hk as ->.
      replace (num_eqb x v) with true by (symmetry; now apply num_eqb_eq).
      f_equal. lia.
    + replace (num_eqb a v) with false.
      * assert (Hrec : index_from v l (S i) = Ok (S i + k)%nat).
        { apply IH; [exact Hk | exact Hv |].
          intros j y Hj Hy. apply (Hfirst (S j) y); [lia | exact Hy]. }
        rewrite Hrec. f_equal. lia.
      * symmetry. apply num_eqb_neq.
        apply (Hfirst 0%nat a); [lia | reflexivity].
Qed.

(** The value printed once the row of the first 1 is found: the last entry
    of that row, or 0 when its text is beyond the digit limit, the [print]
    being inside the [try]. *)
Lemma report_var_shown (result : tableau) (i r : nat) (c : list num)
      (v : num) :
  column result i = Ok c ->
  py_index (Int 1) c = Ok r ->
  getitem2 result (Z.of_nat r) (-1) = Ok v ->
  report_var result i = if printable v then v else Int 0.
Proof.
  intros Hc Hidx Hv. unfold report_var.
  rewrite Hc. cbn [bind]. rewrite Hidx. cbn [bind]. rewrite Hv. cbn [bind].
  destruct (printable v) eqn:P.
  - destruct (str_num_printable v P) as [s ->]. reflexivity.
  - rewrite (str_num_not_printable v P). reflexivity.
Qed.

(** On a unit column the report is right: the right-hand side of the row
    that holds the 1, as long as it can be shown. *)
Lemma report_unit_column (result : tableau) (i r : nat) (c : list num)
      (v : num) :
  column result i = Ok c ->
  unit_column c r ->
  (r < length c)%nat ->
  getitem2 result (Z.of_nat r) (-1) = Ok v ->
  report_var result i = if printable v then v else Int 0.
Proof.
  intros Hc Hunit Hr Hv.
  destruct (nth_error c r) as [x |] eqn:Hx;
    [| apply nth_error_None in Hx; lia].
  apply (report_var_shown result i r c v Hc); [| exact Hv].
  unfold py_index. rewrite (index_from_first (Int 1) c 0 r x Hx).
  - reflexivity.
  - rewrite (Hunit r x Hx), Nat.eqb_refl. cbn [value].
    now rewrite Qc_of_Z_1.
  - intros j y Hj Hy. rewrite (Hunit j y Hy).
    replace (j =? r)%nat with false by (symmetry; apply Nat.eqb_neq; lia).
    cbn [value]. rewrite Qc_of_Z_1. intros H. symmetry in H.
    exact (Q_apart_0_1 H).
Qed.

(** C7 fails on the code.  The example of the specification, with the pivot
    (0, 0), ends on [ex1_final].  Its column 1 is [1, -1, 1], not a unit
    column, so [x1] should be reported as 0; the code finds the first 1 of
    the column, in row 0, and reports the right-hand side 4 of that row.
    The same happens to [x2]. *)
Theorem report_first_one_not_unit :
  simplex 2 always_zero ex1 0 = Returned ex1_final 2
  /\ column ex1_final 1 = Ok [Int 1; Int (-1); Int 1]
  /\ (forall r, ~ unit_column [Int 1; Int (-1); Int 1] r)
  /\ report_var ex1_final 1 = Int 4
  /\ report ex1_final = Ok [Int 4; Int 4; Int 4; Int 2].
Proof.
  split; [vm_compute; reflexivity |].
  split; [vm_compute; reflexivity |].
  split; [| split; vm_compute; reflexivity].
  intros r H. specialize (H 1%nat (Int (-1)) eq_refl).
  destruct (1 =? r)%nat; cbn [value] in H.
  - rewrite <- Qc_of_Z_1 in H. apply Qc_of_Z_inj in H. discriminate.
  - rewrite <- Qc_of_Z_0 in H. apply Qc_of_Z_inj in H. discriminate.
Qed.

(** * Further properties of the code *)

(** ** What [pivot] returns and when it fails *)

Lemma to_int_if_whole_canonical (x : num) : canonical (to_int_if_whole x).
Proof.
  destruct x as [z | q]; cbn [to_int_if_whole canonical]; [exact I |].
  destruct (denominator q =? 1) eqn:E; cbn [canonical]; [exact I |].
  now apply Z.eqb_neq.
Qed.

Lemma pivot_Done_inv (matrix m' : tableau) (row col : Z) :
  pivot matrix row col = Done m' ->
  exists m2, m' = map (map to_int_if_whole) m2.
Proof.
  unfold pivot.
  destruct (getitem2 matrix row col) as [pv |]; [| discriminate].
  destruct (line <- getitem matrix row ;; normalize_row pv line)
    as [new_row |]; [| discriminate].
  destruct (setitem matrix row new_row) as [m1 |]; [| discriminate].
  destruct (eliminate _ _ row col) as [m2 | e m2]; [| discriminate].
  intros [= <-]. eauto.
Qed.

Lemma pivot_Done_canonical (matrix m' : tableau) (row col : Z) :
  pivot matrix row col = Done m' -> Forall (Forall canonical) m'.
Proof.
  intros H. apply pivot_Done_inv in H as (m2 & ->).
  apply Forall_map, Forall_forall. intros l _.
  apply Forall_map, Forall_forall. intros x _.
  apply to_int_if_whole_canonical.
Qed.

(** Whatever the indices, an entry read from a tableau that [pivot] has
    returned is never a Fraction with denominator 1: whole values are
    stored as ints. *)
Theorem pivot_returns_normal_form (matrix m' : tableau) (row col r c : Z)
        (x : num) :
  pivot matrix row col = Done m' ->
  getitem2 m' r c = Ok x ->
  canonical x.
Proof.
  intros Hdone Hx. apply pivot_Done_canonical in Hdone.
  unfold getitem2 in Hx.
  destruct (getitem m' r) as [line |] eqn:Hline; [| discriminate].
  cbn [bind] in Hx.
  apply getitem_In in Hline, Hx.
  rewrite Forall_forall in Hdone. specialize (Hdone line Hline).
  rewrite Forall_forall in Hdone. now apply Hdone.
Qed.

Lemma pivot_returns_normal_form_witness :
  canonical (Fraction (Q2Qc (1 # 2))).
Proof.
  apply (pivot_returns_normal_form ex1 (contents (pivot ex1 1 0)) 1 0 1 1).
  - vm_compute. reflexivity.
  - vm_compute. reflexivity.
Defined.

(** On a rectangular tableau and with indices that are not negative, a call
    that fails has stored nothing: it raised [IndexError] because the entry
    does not exist, or [ZeroDivisionError] because the entry is zero. *)
Theorem pivot_fails_unchanged (matrix m' : tableau) (n row col : nat)
        (e : exn) :
  rectangular n matrix ->
  pivot matrix (Z.of_nat row) (Z.of_nat col) = Failed e m' ->
  m' = matrix
  /\ ((e = IndexError
       /\ getitem2 matrix (Z.of_nat row) (Z.of_nat col) = Raise IndexError)
      \/ (e = ZeroDivisionError
          /\ exists pv, getitem2 matrix (Z.of_nat row) (Z.of_nat col) = Ok pv
                        /\ value pv = 0%Qc)).
Proof.
  intros Hrect Hfail.
  destruct (getitem2 matrix (Z.of_nat row) (Z.of_nat col)) as [pv | e0] eqn:E.
  - destruct (num_eqb pv (Int 0)) eqn:Ez.
    + apply value_zero in Ez.
      rewrite (pivot_zero matrix _ _ pv E Ez) in Hfail.
      injection Hfail as <- <-. split; [reflexivity |]. right. eauto.
    + destruct (pivot_valid matrix n row col pv Hrect E Ez) as (m1 & H1 & _).
      rewrite H1 in Hfail. discriminate.
  - pose proof (getitem2_error _ _ _ _ E) as ->.
    unfold pivot in Hfail. rewrite E in Hfail.
    injection Hfail as <- <-. auto.
Qed.

Lemma pivot_fails_unchanged_witness :
  ex1 = ex1
  /\ ((ZeroDivisionError = IndexError
       /\ getitem2 ex1 (Z.of_nat 0) (Z.of_nat 3) = Raise IndexError)
      \/ (ZeroDivisionError = ZeroDivisionError
          /\ exists pv, getitem2 ex1 (Z.of_nat 0) (Z.of_nat 3) = Ok pv
                        /\ value pv = 0%Qc)).
Proof.
  apply (pivot_fails_unchanged ex1 ex1 5 0 3 ZeroDivisionError).
  - repeat constructor.
  - vm_compute. reflexivity.
Defined.

(** ** What the loop raises *)

Lemma py_truediv_no_zero_division (x y : num) (e : exn) :
  value y <> 0%Qc -> py_truediv x y = Raise e -> e = OverflowError.
Proof.
  intros Hy. unfold py_truediv.
  replace (num_eqb y (Int 0)) with false
    by (symmetry; now apply value_nonzero).
  destruct x as [a | qa], y as [b | qb]; try discriminate.
  unfold int_truediv.
  assert (Hb : b <> 0).
  { intros ->. apply Hy. reflexivity. }
  replace (b =? 0) with false by (symmetry; now apply Z.eqb_neq).
  destruct (a =? 0); [discriminate |].
  match goal with |- context [if ?c then Raise OverflowError else _] =>
    destruct c end; [congruence | discriminate].
Qed.

Lemma ratio_key_no_zero_division (matrix : tableau) (col x : nat) (e : exn) :
  ratio_key matrix col x = Raise e -> e = IndexError \/ e = OverflowError.
Proof.
  unfold ratio_key.
  destruct (getitem2 matrix (Z.of_nat x) (Z.of_nat col)) as [c |] eqn:E1;
    cbn [bind]; [| intros [= <-]; left; eapply getitem2_error; eauto].
  destruct (num_eqb c (Int 0)) eqn:Ec; cbn [negb]; [discriminate |].
  apply value_nonzero in Ec.
  destruct (getitem2 matrix (Z.of_nat x) (-1)) as [rhs |] eqn:E2;
    cbn [bind]; [| intros [= <-]; left; eapply getitem2_error; eauto].
  destruct (py_truediv rhs c) as [q |] eqn:E3; cbn [bind]; [discriminate |].
  intros [= <-]. right. eapply py_truediv_no_zero_division; eauto.
Qed.

Lemma select_no_zero_division (matrix : tableau) (e : exn) :
  select matrix = Raise e -> e <> ZeroDivisionError.
Proof.
  unfold select, candidate_col.
  destruct (getitem matrix (-1)) as [last_row |] eqn:E1; cbn [bind];
    [| intros [= <-]; apply getitem_error in E1; subst; discriminate].
  destruct (py_min (removelast last_row)) as [mn |] eqn:E2; cbn [bind].
  2:{ intros [= <-]. unfold py_min in E2.
      destruct (removelast last_row); [| discriminate].
      injection E2 as <-. discriminate. }
  destruct (py_index mn (removelast last_row)) as [col |] eqn:E3; cbn [bind];
    [| intros [= <-]; apply index_from_error in E3; subst; discriminate].
  destruct (getitem2 matrix (-1) (Z.of_nat col)) as [c |] eqn:E4; cbn [bind];
    [| intros [= <-]; apply getitem2_error in E4; subst; discriminate].
  destruct (num_geb c (Int 0)); [discriminate |].
  destruct (min_ratio_row matrix col) as [row |] eqn:E5; cbn [bind].
  - destruct (getitem2 matrix (Z.of_nat row) (-1)) as [rhs |] eqn:E6;
      cbn [bind];
      [| intros [= <-]; apply getitem2_error in E6; subst; discriminate].
    destruct (num_eqb rhs (Int 0)); discriminate.
  - intros [= <-]. unfold min_ratio_row, py_min_key in E5.
    destruct (mapM _ (seq 0 (length matrix - 1))) as [ks |] eqn:E7;
      cbn [bind] in E5.
    + destruct ks as [| [i k] ks]; [| discriminate].
      injection E5 as <-. discriminate.
    + injection E5 as <-. apply mapM_error in E7 as (x & _ & E7).
      destruct (ratio_key matrix col x) as [k |] eqn:E8; cbn [bind] in E7;
        [discriminate |].
      injection E7 as <-.
      apply ratio_key_no_zero_division in E8 as [-> | ->]; discriminate.
Qed.

Lemma simplex_step_no_zero_division (ins : console) (matrix m' : tableau)
      (pos : nat) :
  simplex_step ins matrix pos <> Throw ZeroDivisionError m'.
Proof.
  unfold simplex_step.
  destruct (select matrix) as [[| | row col] | e] eqn:Esel; try discriminate.
  - destruct (read_choice _ _ _ _) as [[[[r c] pos'] out] | e] eqn:Eread.
    + destruct (pivot matrix r c) as [m2 | e m2] eqn:Epiv.
      * destruct (pretty_print m2) as [lines | e] eqn:Epp; [discriminate |].
        apply pretty_print_error in Epp as ->. discriminate.
      * apply pivot_error in Epiv as [-> | ->]; discriminate.
    + apply read_choice_error in Eread as ->. discriminate.
  - intros [= -> <-]. eapply select_no_zero_division; eauto.
Qed.

(** No run of the loop ends with a [ZeroDivisionError]: the ratio test
    never divides by zero, and the one [pivot] may raise is caught. *)
Theorem simplex_never_raises_ZeroDivisionError
        (fuel : nat) (ins : console) (matrix m' : tableau) (pos pos' : nat) :
  simplex fuel ins matrix pos <> Raised ZeroDivisionError m' pos'.
Proof.
  revert matrix pos. induction fuel as [| fuel IH]; intros matrix pos;
    cbn [simplex]; [discriminate |].
  destruct (simplex_step ins matrix pos) as [m | e m | m p out] eqn:E.
  - discriminate.
  - intros [= -> -> _]. eapply simplex_step_no_zero_division; eauto.
  - apply IH.
Qed.

(** ** What the controller suggests *)

Lemma select_Suggest_inv (matrix : tableau) (row col : nat) :
  select matrix = Ok (Suggest row col) ->
  exists last_row c rhs,
    getitem matrix (-1) = Ok last_row
    /\ candidate_col matrix = Ok col
    /\ getitem2 matrix (-1) (Z.of_nat col) = Ok c
    /\ num_ltb c (Int 0) = true
    /\ min_ratio_row matrix col = Ok row
    /\ getitem2 matrix (Z.of_nat row) (-1) = Ok rhs
    /\ num_eqb rhs (Int 0) = false.
Proof.
  intros H.
  assert (Hlast : exists last_row, getitem matrix (-1) = Ok last_row).
  { unfold select, candidate_col in H.
    destruct (getitem matrix (-1)) as [last_row |]; [eauto | discriminate]. }
  destruct Hlast as [last_row Hlast]. exists last_row.
  unfold select, num_geb in H.
  destruct (candidate_col matrix) as [c0 |] eqn:Ecol; cbn [bind] in H;
    [| discriminate].
  destruct (getitem2 matrix (-1) (Z.of_nat c0)) as [c |] eqn:Ec;
    cbn [bind] in H; [| discriminate].
  destruct (num_ltb c (Int 0)) eqn:Eneg; cbn [negb] in H; [| discriminate].
  destruct (min_ratio_row matrix c0) as [r0 |] eqn:Erow; cbn [bind] in H;
    [| discriminate].
  destruct (getitem2 matrix (Z.of_nat r0) (-1)) as [rhs |] eqn:Erhs;
    cbn [bind] in H; [| discriminate].
  destruct (num_eqb rhs (Int 0)) eqn:E0; [discriminate |].
  injection H as -> ->. exists c, rhs. auto 10.
Qed.

(** A suggested pivot is a constraint row and a decision column: the row is
    not the objective row, the column is not the last one; the objective
    entry of the column is negative and the right-hand side of the row is
    not zero. *)
Theorem suggestion_is_a_selection (matrix : tableau) (row col : nat) :
  select matrix = Ok (Suggest row col) ->
  exists last_row c rhs,
    getitem matrix (-1) = Ok last_row
    /\ (row + 2 <= length matrix)%nat
    /\ (col + 2 <= length last_row)%nat
    /\ getitem2 matrix (-1) (Z.of_nat col) = Ok c
    /\ (value c < 0)%Qc
    /\ getitem2 matrix (Z.of_nat row) (-1) = Ok rhs
    /\ value rhs <> 0%Qc.
Proof.
  intros H.
  apply select_Suggest_inv in H
    as (last_row & c & rhs & Hlast & Hcol & Hc & Hneg & Hrow & Hrhs & H0).
  exists last_row, c, rhs. split; [exact Hlast |].
  split; [| split; [| split; [exact Hc | split; [| split; [exact Hrhs |]]]]].
  - unfold min_ratio_row in Hrow.
    apply py_min_key_spec in Hrow as (keys & Hkeys & k & Hk & _).
    apply mapM_length in Hkeys. rewrite length_seq in Hkeys.
    assert (row < length keys)%nat by (apply nth_error_Some; congruence).
    lia.
  - unfold candidate_col in Hcol. rewrite Hlast in Hcol. cbn [bind] in Hcol.
    destruct (py_min (removelast last_row)) as [mn |]; cbn [bind] in Hcol;
      [| discriminate].
    apply index_from_spec in Hcol as (x & _ & Hx & _).
    rewrite Nat.sub_0_r in Hx.
    assert (Hlt : (col < length (removelast last_row))%nat)
      by (apply nth_error_Some; congruence).
    rewrite removelast_firstn_len, length_firstn in Hlt. lia.
  - unfold num_ltb in Hneg. apply Qc_ltb_lt in Hneg.
    cbn [value] in Hneg. now rewrite Qc_of_Z_0 in Hneg.
  - now apply value_nonzero.
Qed.

Lemma suggestion_is_a_selection_witness :
  exists last_row c rhs,
    getitem ex1 (-1) = Ok last_row
    /\ (0 + 2 <= length ex1)%nat
    /\ (0 + 2 <= length last_row)%nat
    /\ getitem2 ex1 (-1) (Z.of_nat 0) = Ok c
    /\ (value c < 0)%Qc
    /\ getitem2 ex1 (Z.of_nat 0) (-1) = Ok rhs
    /\ value rhs <> 0%Qc.
Proof.
  apply (suggestion_is_a_selection ex1 0 0).
  vm_compute. reflexivity.
Defined.

(** The suggested entry can be zero, but only when the column is zero in
    every candidate row. *)
Theorem suggested_zero_only_in_zero_column (matrix : tableau) (row col : nat)
        (c0 : num) :
  select matrix = Ok (Suggest row col) ->
  getitem2 matrix (Z.of_nat row) (Z.of_nat col) = Ok c0 ->
  value c0 = 0%Qc ->
  forall x, (x + 2 <= length matrix)%nat ->
            exists cx, getitem2 matrix (Z.of_nat x) (Z.of_nat col) = Ok cx
                       /\ value cx = 0%Qc.
Proof.
  intros Hsel Hc0 Hz x Hx.
  apply select_Suggest_inv in Hsel
    as (_ & _ & _ & _ & _ & _ & _ & Hrow & _ & _).
  unfold min_ratio_row in Hrow.
  apply py_min_key_spec in Hrow as (keys & Hkeys & k & Hk & Hmin).
  pose proof (ratio_keys_spec matrix col keys Hkeys) as Hspec.
  assert (Hinf : k = Infinity).
  { destruct (Hspec row k Hk) as (c & Hc & Hmatch).
    destruct k as [q |]; [| reflexivity].
    destruct Hmatch as [Hnz _]. congruence. }
  subst k.
  pose proof (mapM_length _ _ _ Hkeys) as Hlen. rewrite length_seq in Hlen.
  destruct (nth_error keys x) as [kx |] eqn:Hkx;
    [| apply nth_error_None in Hkx; lia].
  destruct (Hmin x kx Hkx) as [Hge _].
  destruct kx as [q |]; [discriminate |].
  destruct (Hspec x Infinity Hkx) as (cx & Hcx & Hzero). eauto.
Qed.

Lemma suggested_zero_only_in_zero_column_witness :
  exists cx, getitem2 ex_zero_column (Z.of_nat 0) (Z.of_nat 0) = Ok cx
             /\ value cx = 0%Qc.
Proof.
  apply (suggested_zero_only_in_zero_column ex_zero_column 0 0 (Int 0)).
  - vm_compute. reflexivity.
  - reflexivity.
  - reflexivity.
  - simpl. lia.
Defined.

(** A pivot choice outside the tableau is not caught: the turn raises
    [IndexError], with the tableau as it was, and the run ends there. *)
Theorem choice_out_of_range_aborts (ins : console) (matrix : tableau)
        (pos pos' : nat) (r0 c0 : nat) (r c : Z) (out : list event) (e : exn) :
  select matrix = Ok (Suggest r0 c0) ->
  read_choice ins pos (Z.of_nat r0) (Z.of_nat c0) = Ok (r, c, pos', out) ->
  getitem2 matrix r c = Raise e ->
  pivot matrix r c = Failed IndexError matrix
  /\ forall fuel,
      simplex (S fuel) ins matrix pos = Raised IndexError matrix pos.
Proof.
  intros Hsel Hread Hget.
  pose proof (getitem2_error _ _ _ _ Hget) as ->.
  assert (Hfail : pivot matrix r c = Failed IndexError matrix)
    by (unfold pivot; now rewrite Hget).
  split; [exact Hfail |].
  intros fuel. cbn [simplex]. unfold simplex_step.
  now rewrite Hsel, Hread, Hfail.
Qed.

Lemma choice_out_of_range_aborts_witness :
  pivot ex1 7 0 = Failed IndexError ex1
  /\ forall fuel,
      simplex (S fuel) picks_row_7 ex1 0
      = Raised IndexError ex1 0.
Proof.
  apply (choice_out_of_range_aborts picks_row_7 ex1 0 2 0 0 7 0 []
           IndexError).
  - vm_compute. reflexivity.
  - reflexivity.
  - reflexivity.
Defined.

(** ** The ratio test on Fractions *)

Lemma mapM_ext_in {A B : Type} (f g : A -> res B) (l : list A) :
  (forall a, In a l -> f a = g a) -> mapM f l = mapM g l.
Proof.
  induction l as [| a l IH]; intros H; cbn [mapM]; [reflexivity |].
  rewrite (H a (or_introl eq_refl)), IH; [reflexivity |].
  intros b Hb. apply H. now right.
Qed.

(** When in every candidate row the entry of the column or the right-hand
    side is a Fraction, no float is involved: the ratio test returns the
    first row, in row order, of smallest exact ratio. *)
Theorem ratio_test_exact_on_Fractions (matrix : tableau) (col row : nat) :
  (forall x, (x + 2 <= length matrix)%nat ->
             exists c rhs,
               getitem2 matrix (Z.of_nat x) (Z.of_nat col) = Ok c
               /\ getitem2 matrix (Z.of_nat x) (-1) = Ok rhs
               /\ isinstance_int rhs && isinstance_int c = false) ->
  min_ratio_row matrix col = Ok row <->
  exists keys,
    mapM (exact_key matrix col) (seq 0 (length matrix - 1)) = Ok keys
    /\ first_argmin keys row.
Proof.
  intros Hfrac. unfold min_ratio_row. rewrite py_min_key_spec.
  assert (E : mapM (ratio_key matrix col) (seq 0 (length matrix - 1))
              = mapM (exact_key matrix col) (seq 0 (length matrix - 1))).
  { apply mapM_ext_in. intros x Hx. apply in_seq in Hx.
    destruct (Hfrac x) as (c & rhs & Hc & Hrhs & Hty); [lia |].
    unfold ratio_key, exact_key. rewrite Hc, Hrhs. cbn [bind].
    destruct (num_eqb c (Int 0)) eqn:Ez; cbn [negb]; [reflexivity |].
    apply value_nonzero in Ez.
    now rewrite (py_truediv_exact rhs c Hty Ez). }
  rewrite E. reflexivity.
Qed.

Lemma ratio_test_exact_on_Fractions_witness :
  min_ratio_row ex_halves 0 = Ok 1%nat <->
  exists keys,
    mapM (exact_key ex_halves 0) (seq 0 (length ex_halves - 1)) = Ok keys
    /\ first_argmin keys 1.
Proof.
  apply (ratio_test_exact_on_Fractions ex_halves 0 1).
  intros [| [| x]] Hx.
  - eexists; eexists. repeat split; vm_compute; reflexivity.
  - eexists; eexists. repeat split; vm_compute; reflexivity.
  - simpl in Hx. lia.
Defined.

(** ** What [main] reports *)

Lemma index_from_absent (v : num) (l : list num) (i : nat) :
  (forall x, In x l -> value x <> value v) ->
  index_from v l i = Raise (ValueError "x is not in list").
Proof.
  revert i. induction l as [| a l IH]; intros i H; cbn [index_from];
    [reflexivity |].
  replace (num_eqb a v) with false
    by (symmetry; apply num_eqb_neq, H; now left).
  apply IH. intros x Hx. apply H. now right.
Qed.

(** The value printed for [x_i] is read in the first row, in row order,
    whose entry in column [i] equals 1: it is the right-hand side of that
    row when this can be shown, and 0 when its text is beyond the digit
    limit, the exception of the [print] being caught with the others. *)
Theorem report_reads_first_one (result : tableau) (i r : nat) (c : list num)
        (x v : num) :
  column result i = Ok c ->
  nth_error c r = Some x ->
  value x = 1%Qc ->
  (forall j y, (j < r)%nat -> nth_error c j = Some y -> value y <> 1%Qc) ->
  getitem2 result (Z.of_nat r) (-1) = Ok v ->
  report_var result i = if printable v then v else Int 0.
Proof.
  intros Hc Hx Hone Hfirst Hv.
  apply (report_var_shown result i r c v Hc); [| exact Hv].
  unfold py_index. rewrite (index_from_first (Int 1) c 0 r x Hx).
  - reflexivity.
  - cbn [value]. now rewrite Qc_of_Z_1.
  - intros j y Hj Hy. cbn [value]. rewrite Qc_of_Z_1. eauto.
Qed.

Lemma report_reads_first_one_witness :
  report_var ex1_final 1 = if printable (Int 4) then Int 4 else Int 0.
Proof.
  apply (report_reads_first_one ex1_final 1 0 [Int 1; Int (-1); Int 1]
           (Int 1) (Int 4)).
  - vm_compute. reflexivity.
  - reflexivity.
  - reflexivity.
  - intros j y Hj. lia.
  - reflexivity.
Defined.

(** When no entry of column [i] equals 1, or when some row is too short to
    have a column [i], the value printed for [x_i] is 0. *)
Theorem report_zero_without_one (result : tableau) (i : nat) :
  (forall c, column result i = Ok c ->
             forall x, In x c -> value x <> 1%Qc) ->
  report_var result i = Int 0.
Proof.
  intros H. unfold report_var, py_index.
  destruct (column result i) as [c | e]; cbn [bind]; [| reflexivity].
  rewrite index_from_absent; [reflexivity |].
  intros x Hx. cbn [value]. rewrite Qc_of_Z_1. now apply (H c).
Qed.

Lemma report_zero_without_one_witness : report_var ex_unbounded_1 1 = Int 0.
Proof.
  apply (report_zero_without_one ex_unbounded_1 1).
  intros c Hc x Hx. vm_compute in Hc. injection Hc as <-.
  destruct Hx as [<- | [<- | []]];
    intros E; rewrite <- Qc_of_Z_1 in E; apply Qc_of_Z_inj in E; discriminate.
Defined.

(** ** Pivoting twice *)

Lemma this_Qc_of_Z (z : Z) : this (Qc_of_Z z) = inject_Z z.
Proof.
  unfold Qc_of_Z, Q2Qc. cbn [this]. apply Qred_identity.
  simpl. apply Z.gcd_1_r.
Qed.

Lemma canonical_value_inj (x y : num) :
  canonical x -> canonical y -> value x = value y -> x = y.
Proof.
  destruct x as [a | p], y as [b | q]; cbn [canonical value]; intros Hx Hy E.
  - f_equal. now apply Qc_of_Z_inj.
  - exfalso. apply Hy. subst q. unfold denominator.
    now rewrite this_Qc_of_Z.
  - exfalso. apply Hx. subst p. unfold denominator.
    now rewrite this_Qc_of_Z.
  - now f_equal.
Qed.

Lemma canonical_exact_inj (m1 m2 : tableau) :
  Forall (Forall canonical) m1 ->
  Forall (Forall canonical) m2 ->
  exact m1 = exact m2 ->
  m1 = m2.
Proof.
  intros H1. revert m2.
  induction H1 as [| l1 m1 Hl1 H1 IH]; intros [| l2 m2] H2 E;
    try discriminate; [reflexivity |].
  inversion H2 as [| ? ? Hl2 H2']; subst.
  cbn [exact map] in E. injection E as El Em.
  f_equal; [| now apply IH].
  clear - Hl1 Hl2 El. revert l2 Hl2 El.
  induction Hl1 as [| x l1 Hx Hl1 IH]; intros [| y l2] Hl2 El;
    try discriminate; [reflexivity |].
  inversion Hl2; subst. cbn [map] in El. injection El as Exy El.
  f_equal; [now apply canonical_value_inj | now apply IH].
Qed.

Lemma map_fst_zip {A B : Type} (l1 : list A) (l2 : list B) :
  (length l1 <= length l2)%nat -> map fst (zip l1 l2) = l1.
Proof.
  revert l2. induction l1 as [| a l1 IH]; intros [| b l2] H; simpl in *;
    try reflexivity; [lia |].
  f_equal. apply IH. lia.
Qed.

(** The Gaussian step does nothing to a matrix whose column is already the
    unit column of the row. *)
Lemma gauss_pivot_fixed (M : list (list Qc)) (n row col : nat)
      (prow : list Qc) :
  rectangular n M ->
  nth_error M row = Some prow ->
  nth_error prow col = Some 1%Qc ->
  (forall r line, r <> row -> nth_error M r = Some line ->
                  nth_error line col = Some 0%Qc) ->
  gauss_pivot M row col = M.
Proof.
  intros Hrect Hrow Hone Hzero. apply nth_error_ext. intros r.
  unfold gauss_pivot.
  rewrite (nth_error_nth _ _ _ Hrow), (nth_error_nth _ _ _ Hone).
  rewrite nth_error_mapi_from. cbn [Nat.add].
  assert (Hunit : map (fun y => (y / 1)%Qc) prow = prow).
  { rewrite <- (map_id prow) at 2. apply map_ext. intros y. field.
    exact Q_apart_0_1. }
  rewrite Hunit.
  destruct (nth_error M r) as [line |] eqn:Hline; [| reflexivity].
  cbn [option_map]. f_equal.
  destruct (Nat.eqb_spec r row) as [-> | Hr]; [congruence |].
  rewrite (nth_error_nth _ _ _ (Hzero r line Hr Hline)).
  rewrite <- (map_fst_zip line prow) at 2.
  - apply map_ext. intros xy. ring.
  - rewrite (rectangular_nth n M r line Hrect Hline),
      (rectangular_nth n M row prow Hrect Hrow). lia.
Qed.

(** Pivoting again on the selection just pivoted on returns the same
    tableau. *)
Theorem pivot_idempotent (matrix m' : tableau) (n row col : nat) (pv : num) :
  rectangular n matrix ->
  getitem2 matrix (Z.of_nat row) (Z.of_nat col) = Ok pv ->
  num_eqb pv (Int 0) = false ->
  pivot matrix (Z.of_nat row) (Z.of_nat col) = Done m' ->
  pivot m' (Z.of_nat row) (Z.of_nat col) = Done m'.
Proof.
  intros Hrect Hpv Hnz Hdone.
  destruct (pivot_valid matrix n row col pv Hrect Hpv Hnz)
    as (m1 & H1 & _ & Hlen & Hrect' & Hcolumn).
  assert (m1 = m') by congruence. subst m1.
  assert (Hrow : (row < length matrix)%nat).
  { apply getitem2_of_nat_inv in Hpv as (line & Hline & _).
    apply nth_error_Some. congruence. }
  pose proof (Hcolumn row Hrow) as Hone. rewrite Nat.eqb_refl in Hone.
  assert (Hnz1 : num_eqb (Int 1) (Int 0) = false).
  { apply value_nonzero. cbn [value]. rewrite Qc_of_Z_1.
    exact Q_apart_0_1. }
  destruct (pivot_valid m' n row col (Int 1) Hrect' Hone Hnz1)
    as (m2 & H2 & Hex & _ & _ & _).
  rewrite H2. f_equal.
  apply canonical_exact_inj;
    [eapply pivot_Done_canonical; eauto
    | eapply pivot_Done_canonical; eauto |].
  rewrite Hex.
  apply getitem2_of_nat_inv in Hone as (l1 & Hl1 & Hone).
  apply (gauss_pivot_fixed (exact m') n row col (map value l1)).
  - now apply map_map_shape.
  - unfold exact. now rewrite nth_error_map, Hl1.
  - rewrite nth_error_map, Hone. cbn [option_map value].
    now rewrite Qc_of_Z_1.
  - intros r line Hr Hline. unfold exact in Hline.
    rewrite nth_error_map in Hline.
    destruct (nth_error m' r) as [l |] eqn:Hl; [| discriminate].
    injection Hline as <-.
    assert (Hr' : (r < length matrix)%nat)
      by (rewrite <- Hlen; apply nth_error_Some; congruence).
    pose proof (Hcolumn r Hr') as Hz.
    replace (r =? row)%nat with false in Hz
      by (symmetry; now apply Nat.eqb_neq).
    apply getitem2_of_nat_inv in Hz as (l' & Hl' & Hz).
    assert (l' = l) by congruence. subst l'.
    rewrite nth_error_map, Hz. cbn [option_map value].
    now rewrite Qc_of_Z_0.
Qed.

Lemma pivot_idempotent_witness :
  pivot ex1_final (Z.of_nat 0) (Z.of_nat 0) = Done ex1_final.
Proof.
  apply (pivot_idempotent ex1 ex1_final 5 0 0 (Int 1)).
  - repeat constructor.
  - reflexivity.
  - vm_compute. reflexivity.
  - vm_compute. reflexivity.
Defined.

(** ** The pivoted tableau stands for the same linear program *)

Lemma dot_scale (L y : list Qc) (p : Qc) :
  p <> 0%Qc ->
  dot (map (fun a => (a / p)%Qc) L) y = (dot L y / p)%Qc.
Proof.
  intros Hp. unfold dot. revert y.
  induction L as [| a L IH]; intros [| b y]; cbn [map zip fold_right fst snd];
    try (field; exact Hp).
  rewrite IH. field. exact Hp.
Qed.

Lemma dot_combine (L1 L2 y : list Qc) (f : Qc) :
  length L1 = length L2 ->
  dot (map (fun xy => (fst xy - f * snd xy)%Qc) (zip L1 L2)) y
  = (dot L1 y - f * dot L2 y)%Qc.
Proof.
  unfold dot. revert L2 y.
  induction L1 as [| a L1 IH]; intros [| b L2] [| c y] Hlen;
    cbn [map zip fold_right fst snd]; try discriminate; try ring.
  rewrite IH by (simpl in Hlen; lia). ring.
Qed.

Lemma dot_residual (L x : list Qc) :
  length L = S (length x) ->
  (dot (removelast L) x - last L 0)%Qc = dot L (x ++ [(- (1))%Qc]).
Proof.
  unfold dot. revert x.
  induction L as [| a L IH]; intros x Hlen; [discriminate |].
  destruct L as [| b L].
  - destruct x; [| discriminate].
    cbn [removelast last app map zip fold_right fst snd]. ring.
  - destruct x as [| c x]; [discriminate |].
    specialize (IH x ltac:(simpl in Hlen |- *; lia)).
    change (removelast (a :: b :: L)) with (a :: removelast (b :: L)).
    change (last (a :: b :: L) 0%Qc) with (last (b :: L) 0%Qc).
    cbn [app map zip fold_right fst snd] in *.
    rewrite <- IH. ring.
Qed.

Lemma map_removelast {A B : Type} (f : A -> B) (l : list A) :
  map f (removelast l) = removelast (map f l).
Proof.
  induction l as [| a [| b l] IH]; try reflexivity.
  change (removelast (a :: b :: l)) with (a :: removelast (b :: l)).
  cbn [map] in *. now rewrite IH.
Qed.

Lemma map_last {A B : Type} (f : A -> B) (l : list A) (d : A) :
  f (last l d) = last (map f l) (f d).
Proof. induction l as [| a [| b l] IH]; try reflexivity. exact IH. Qed.

Lemma last_nth_error {A : Type} (l : list A) (d : A) :
  l <> [] -> nth_error l (length l - 1) = Some (last l d).
Proof.
  induction l as [| a [| b l] IH]; intros H; [congruence | reflexivity |].
  change (last (a :: b :: l) d) with (last (b :: l) d).
  rewrite <- IH by discriminate. cbn [length].
  replace (S (S (length l)) - 1)%nat with (S (S (length l) - 1)) by lia.
  reflexivity.
Qed.

Lemma Forall_removelast {A : Type} (P : A -> Prop) (l : list A) :
  Forall P (removelast l) <->
  forall r a, (r + 2 <= length l)%nat -> nth_error l r = Some a -> P a.
Proof.
  assert (Hlen : length (removelast l) = (length l - 1)%nat).
  { rewrite removelast_firstn_len, length_firstn. lia. }
  rewrite Forall_forall. split.
  - intros H r a Hr Ha. apply H.
    apply (nth_error_In _ r). rewrite nth_error_removelast by lia. exact Ha.
  - intros H a Hin. apply In_nth_error in Hin as [r Hr].
    assert (r < length (removelast l))%nat
      by (apply nth_error_Some; congruence).
    rewrite nth_error_removelast in Hr by assumption.
    apply (H r a); [lia | exact Hr].
Qed.

(** A constraint read on the row of values: [L . (x, -1) = 0]. *)
Lemma row_constraint_iff (line : list num) (n : nat) (x : list Qc) :
  length line = n ->
  (1 <= n)%nat ->
  (length x = length (coefficients line)
   /\ dot (coefficients line) x = rhs_of line) <->
  (S (length x) = n
   /\ dot (map value line) (x ++ [(- (1))%Qc]) = 0%Qc).
Proof.
  intros Hline Hn. unfold coefficients, rhs_of.
  assert (Hl : length (removelast line) = (n - 1)%nat)
    by (rewrite removelast_firstn_len, length_firstn; lia).
  rewrite length_map, Hl, map_removelast, (map_last value line (Int 0)).
  change (value (Int 0)) with (Qc_of_Z 0). rewrite Qc_of_Z_0.
  split; intros [Hx Hdot].
  - assert (Hx' : S (length x) = n) by lia. split; [exact Hx' |].
    rewrite <- dot_residual by (rewrite length_map; lia).
    rewrite Hdot. ring.
  - split; [lia |].
    rewrite <- dot_residual in Hdot by (rewrite length_map; lia).
    set (a := dot _ x) in *. set (b := last _ _) in *.
    replace a with ((a - b) + b)%Qc by ring. rewrite Hdot. ring.
Qed.

Lemma feasible_constraints (n : nat) (m : tableau) (x : list Qc) :
  (1 <= n)%nat ->
  rectangular n m ->
  (feasible m x
   <-> Forall (fun xi => (0 <= xi)%Qc) x /\ constraints n m x).
Proof.
  intros Hn Hm. unfold feasible, constraints. rewrite Forall_removelast.
  split; intros [Hpos H]; (split; [exact Hpos |]); intros r l Hr Hl.
  - apply (row_constraint_iff l n x (rectangular_nth n m r l Hm Hl) Hn).
    now apply (H r l).
  - apply (row_constraint_iff l n x (rectangular_nth n m r l Hm Hl) Hn).
    now apply (H r l).
Qed.

Section SameProgram.
Variables (matrix m' : tableau) (n row col : nat).
Variables (prow : list num) (pv : num).
Hypothesis Hrect : rectangular n matrix.
Hypothesis Hrect' : rectangular n m'.
Hypothesis Hlen : length m' = length matrix.
Hypothesis Hex : exact m' = gauss_pivot (exact matrix) row col.
Hypothesis Hline : nth_error matrix row = Some prow.
Hypothesis Hpv : nth_error prow col = Some pv.
Hypothesis Hnz : value pv <> 0%Qc.
Hypothesis Hrow : (row + 2 <= length matrix)%nat.

Lemma new_row_values (r : nat) (l l' : list num) :
  nth_error matrix r = Some l ->
  nth_error m' r = Some l' ->
  map value l'
  = if (r =? row)%nat
    then map (fun a => (a / value pv)%Qc) (map value prow)
    else map (fun xy => (fst xy - nth col (map value l) 0 * snd xy)%Qc)
             (zip (map value l)
                  (map (fun a => (a / value pv)%Qc) (map value prow))).
Proof.
  intros Hl Hl'.
  assert (E : nth_error (exact m') r = Some (map value l'))
    by (unfold exact; now rewrite nth_error_map, Hl').
  rewrite Hex in E. unfold gauss_pivot in E.
  assert (Hprow : nth row (exact matrix) [] = map value prow).
  { apply nth_error_nth. unfold exact. now rewrite nth_error_map, Hline. }
  assert (Hp : nth col (map value prow) 0%Qc = value pv).
  { apply nth_error_nth. now rewrite nth_error_map, Hpv. }
  rewrite Hprow, Hp, nth_error_mapi_from in E. cbn [Nat.add] in E.
  unfold exact in E. rewrite nth_error_map, Hl in E. cbn [option_map] in E.
  now injection E as <-.
Qed.

Lemma dot_new_pivot_row (l' : list num) (z : list Qc) :
  nth_error m' row = Some l' ->
  dot (map value l') z = (dot (map value prow) z / value pv)%Qc.
Proof.
  intros Hl'. rewrite (new_row_values row prow l' Hline Hl'), Nat.eqb_refl.
  now apply dot_scale.
Qed.

Lemma dot_new_row (r : nat) (l l' : list num) (z : list Qc) :
  r <> row ->
  nth_error matrix r = Some l ->
  nth_error m' r = Some l' ->
  exists f, dot (map value l') z
            = (dot (map value l) z
               - f * (dot (map value prow) z / value pv))%Qc.
Proof.
  intros Hr Hl Hl'. rewrite (new_row_values r l l' Hl Hl').
  replace (r =? row)%nat with false by (symmetry; now apply Nat.eqb_neq).
  exists (nth col (map value l) 0%Qc).
  rewrite dot_combine, dot_scale; [reflexivity | exact Hnz |].
  rewrite !length_map.
  rewrite (rectangular_nth n matrix r l Hrect Hl),
    (rectangular_nth n matrix row prow Hrect Hline). reflexivity.
Qed.

Lemma constraints_pivoted (x : list Qc) :
  constraints n matrix x <-> constraints n m' x.
Proof.
  assert (Hrow' : exists l', nth_error m' row = Some l').
  { destruct (nth_error m' row) eqn:E; [eauto |].
    apply nth_error_None in E. lia. }
  destruct Hrow' as [lrow' Hlrow'].
  unfold constraints. split; intros H r l' Hr Hl'.
  - destruct (nth_error matrix r) as [l |] eqn:Hl;
      [| apply nth_error_None in Hl; lia].
    destruct (H row prow Hrow Hline) as [Hx Hp0].
    split; [exact Hx |].
    destruct (Nat.eq_dec r row) as [-> | Hr'].
    + rewrite (dot_new_pivot_row l' (x ++ [(- (1))%Qc]) Hl'), Hp0.
      field. exact Hnz.
    + destruct (dot_new_row r l l' (x ++ [(- (1))%Qc]) Hr' Hl Hl') as [f ->].
      destruct (H r l) as [_ ->]; [lia | exact Hl |].
      rewrite Hp0. field. exact Hnz.
  - destruct (nth_error m' r) as [l2 |] eqn:Hl2;
      [| apply nth_error_None in Hl2; lia].
    destruct (H row lrow') as [Hx Hp0]; [lia | exact Hlrow' |].
    rewrite (dot_new_pivot_row lrow' (x ++ [(- (1))%Qc]) Hlrow') in Hp0.
    split; [exact Hx |].
    destruct (Nat.eq_dec r row) as [-> | Hr'].
    + assert (l' = prow) by congruence. subst l'.
      set (d := dot (map value prow) (x ++ [(- (1))%Qc])) in *.
      replace d with ((d / value pv) * value pv)%Qc
        by (field; exact Hnz).
      rewrite Hp0. ring.
    + destruct (dot_new_row r l' l2 (x ++ [(- (1))%Qc]) Hr' Hl' Hl2) as [f Hf].
      destruct (H r l2) as [_ H0]; [lia | exact Hl2 |].
      rewrite Hf, Hp0 in H0.
      set (d := dot (map value l') (x ++ [(- (1))%Qc])) in *.
      replace d with (d - f * 0)%Qc by ring. exact H0.
Qed.

Lemma objective_residual (m : tableau) (x : list Qc) (l : list num) :
  nth_error m (length m - 1) = Some l ->
  length l = n ->
  S (length x) = n ->
  objective m x = (- dot (map value l) (x ++ [(- (1))%Qc]))%Qc.
Proof.
  intros Hl Hln Hx. unfold objective.
  assert (Hne : m <> []) by (intros ->; destruct (0 - 1)%nat; discriminate).
  rewrite (last_nth_error m [] Hne) in Hl. injection Hl as ->.
  unfold coefficients, rhs_of.
  rewrite map_removelast, (map_last value l (Int 0)).
  change (value (Int 0)) with (Qc_of_Z 0). rewrite Qc_of_Z_0.
  rewrite <- dot_residual by (rewrite length_map; lia). ring.
Qed.

Lemma objective_pivoted (x : list Qc) :
  constraints n matrix x -> objective m' x = objective matrix x.
Proof.
  intros H. destruct (H row prow Hrow Hline) as [Hx Hp0].
  destruct (nth_error matrix (length matrix - 1)) as [l |] eqn:Hl;
    [| apply nth_error_None in Hl; lia].
  destruct (nth_error m' (length m' - 1)) as [l' |] eqn:Hl';
    [| apply nth_error_None in Hl'; lia].
  rewrite (objective_residual m' x l' Hl'
             (rectangular_nth n m' _ l' Hrect' Hl') Hx).
  rewrite (objective_residual matrix x l Hl
             (rectangular_nth n matrix _ l Hrect Hl) Hx).
  rewrite Hlen in Hl'.
  destruct (dot_new_row (length matrix - 1) l l' (x ++ [(- (1))%Qc])) as [f ->];
    [lia | exact Hl | exact Hl' |].
  rewrite Hp0. field. exact Hnz.
Qed.
End SameProgram.

(** A pivot on a constraint row does not change the linear program the
    tableau stands for: the same points are feasible, and on them the
    objective has the same value. *)
Theorem pivot_keeps_program (matrix : tableau) (n row col : nat) (pv : num) :
  rectangular n matrix ->
  (row + 2 <= length matrix)%nat ->
  getitem2 matrix (Z.of_nat row) (Z.of_nat col) = Ok pv ->
  num_eqb pv (Int 0) = false ->
  exists m',
    pivot matrix (Z.of_nat row) (Z.of_nat col) = Done m'
    /\ forall x,
        (feasible matrix x <-> feasible m' x)
        /\ (feasible matrix x -> objective m' x = objective matrix x).
Proof.
  intros Hrect Hrow Hpv Hnz.
  destruct (pivot_valid matrix n row col pv Hrect Hpv Hnz)
    as (m' & Hdone & Hex & Hlen & Hrect' & _).
  apply getitem2_of_nat_inv in Hpv as (prow & Hline & Hpv).
  apply value_nonzero in Hnz.
  assert (Hn : (1 <= n)%nat).
  { rewrite <- (rectangular_nth n matrix row prow Hrect Hline).
    assert (col < length prow)%nat by (apply nth_error_Some; congruence).
    lia. }
  exists m'. split; [exact Hdone |]. intros x.
  pose proof (feasible_constraints n matrix x Hn Hrect) as F.
  pose proof (feasible_constraints n m' x Hn Hrect') as F'.
  assert (C : constraints n matrix x <-> constraints n m' x)
    by (eapply constraints_pivoted; eauto).
  split.
  - rewrite F, F', C. reflexivity.
  - intros Hf. apply F in Hf as [_ Hc].
    eapply objective_pivoted; eauto.
Qed.

Lemma pivot_keeps_program_witness :
  exists m',
    pivot ex1 (Z.of_nat 0) (Z.of_nat 0) = Done m'
    /\ forall x,
        (feasible ex1 x <-> feasible m' x)
        /\ (feasible ex1 x -> objective m' x = objective ex1 x).
Proof.
  apply (pivot_keeps_program ex1 5 0 0 (Int 1)).
  - repeat constructor.
  - simpl. lia.
  - reflexivity.
  - vm_compute. reflexivity.
Defined.

(** ** The report after a pivot *)

(** [l[-1]] is the last element. *)
Lemma getitem_minus_one {A : Type} (l : list A) (a : A) :
  getitem l (-1) = Ok a <-> nth_error l (length l - 1) = Some a.
Proof.
  unfold getitem, py_pos, len. destruct l as [| b l].
  - simpl. split; discriminate.
  - cbn [length].
    replace (0 <=? -1) with false by reflexivity.
    replace (-1 <? 0) with true by reflexivity.
    replace (0 <=? Z.of_nat (S (length l)) + -1) with true
      by (symmetry; apply Z.leb_le; lia).
    cbn [andb].
    replace (Z.to_nat (Z.of_nat (S (length l)) + -1))
      with (S (length l) - 1)%nat by lia.
    destruct (nth_error (b :: l) (S (length l) - 1)); split; congruence.
Qed.

Lemma column_of_entries (m : tableau) (i : nat) (g : nat -> num) :
  (forall r, (r < length m)%nat ->
             getitem2 m (Z.of_nat r) (Z.of_nat i) = Ok (g r)) ->
  column m i = Ok (map g (seq 0 (length m))).
Proof.
  intros H. unfold column.
  assert (G : forall k (l : tableau),
             (forall r line, nth_error l r = Some line ->
                             getitem line (Z.of_nat i) = Ok (g (k + r)%nat)) ->
             mapM (fun x => getitem x (Z.of_nat i)) l
             = Ok (map g (seq k (length l)))).
  { intros k l. revert k. induction l as [| line l IH]; intros k Hl.
    - reflexivity.
    - cbn [mapM length seq map].
      rewrite (Hl 0%nat line eq_refl), Nat.add_0_r. cbn [bind].
      rewrite (IH (S k)); [reflexivity |].
      intros r line' Hr. rewrite (Hl (S r) line' Hr). f_equal. f_equal. lia. }
  apply G. intros r line Hr. cbn [Nat.add].
  assert (Hlt : (r < length m)%nat) by (apply nth_error_Some; congruence).
  specialize (H r Hlt). unfold getitem2 in H.
  rewrite (getitem_of_nat _ _ _ Hr) in H. exact H.
Qed.

(** After a pivot on a nonzero entry the report of [main] reads, for the
    pivot column, the new right-hand side of the pivot row, which is the old
    one divided by the pivot entry: the variable has entered the basis at
    that value.  It is printed when it can be shown; beyond the digit limit
    0 is printed instead. *)
Theorem report_after_pivot (matrix : tableau) (n row col : nat)
        (pv b : num) :
  rectangular n matrix ->
  getitem2 matrix (Z.of_nat row) (Z.of_nat col) = Ok pv ->
  num_eqb pv (Int 0) = false ->
  getitem2 matrix (Z.of_nat row) (-1) = Ok b ->
  exists m' v,
    pivot matrix (Z.of_nat row) (Z.of_nat col) = Done m'
    /\ getitem2 m' (Z.of_nat row) (-1) = Ok v
    /\ value v = (value b / value pv)%Qc
    /\ report_var m' col = if printable v then v else Int 0.
Proof.
  intros Hrect Hpv Hnz Hb.
  destruct (pivot_valid matrix n row col pv Hrect Hpv Hnz)
    as (m' & Hdone & Hex & Hlen & Hrect' & Hcol).
  apply getitem2_of_nat_inv in Hpv as (line & Hline & Hpv).
  unfold getitem2 in Hb. rewrite (getitem_of_nat _ _ _ Hline) in Hb.
  cbn [bind] in Hb. apply getitem_minus_one in Hb.
  assert (Hrow : (row < length matrix)%nat)
    by (apply nth_error_Some; congruence).
  (* the pivot row of the result *)
  destruct (nth_error m' row) as [line' |] eqn:Hline';
    [| apply nth_error_None in Hline'; lia].
  assert (Hval : map value line'
                 = map (fun y => (y / value pv)%Qc) (map value line)).
  { assert (E : nth_error (exact m') row = Some (map value line'))
      by (unfold exact; now rewrite nth_error_map, Hline').
    rewrite Hex in E. unfold gauss_pivot in E.
    assert (Hl : nth row (exact matrix) [] = map value line).
    { apply nth_error_nth. unfold exact. now rewrite nth_error_map, Hline. }
    assert (Hp : nth col (map value line) 0%Qc = value pv).
    { apply nth_error_nth. now rewrite nth_error_map, Hpv. }
    rewrite Hl, Hp, nth_error_mapi_from in E. cbn [Nat.add] in E.
    unfold exact in E. rewrite nth_error_map, Hline in E.
    cbn [option_map] in E. rewrite Nat.eqb_refl in E.
    now injection E as <-. }
  pose proof (rectangular_nth n matrix row line Hrect Hline) as Hn.
  pose proof (rectangular_nth n m' row line' Hrect' Hline') as Hn'.
  destruct (nth_error line' (length line' - 1)) as [v |] eqn:Hv.
  2:{ apply nth_error_None in Hv.
      assert (col < length line)%nat by (apply nth_error_Some; congruence).
      lia. }
  assert (Hvv : value v = (value b / value pv)%Qc).
  { assert (E : nth_error (map value line') (length line' - 1)
                = Some (value v)) by (now rewrite nth_error_map, Hv).
    rewrite Hval, !nth_error_map, Hn', <- Hn, Hb in E.
    cbn [option_map] in E. now injection E as <-. }
  assert (Hget : getitem2 m' (Z.of_nat row) (-1) = Ok v).
  { unfold getitem2. rewrite (getitem_of_nat _ _ _ Hline'). cbn [bind].
    apply getitem_minus_one. exact Hv. }
  exists m', v. split; [exact Hdone |]. split; [exact Hget |].
  split; [exact Hvv |].
  apply (report_unit_column m' col row
           (map (fun r => if (r =? row)%nat then Int 1 else Int 0)
                (seq 0 (length m')))).
  - apply column_of_entries. intros r Hr. apply Hcol. lia.
  - intros i x Hx. rewrite nth_error_map in Hx.
    destruct (nth_error (seq 0 (length m')) i) as [k |] eqn:Hk;
      [| discriminate].
    assert (k = i).
    { assert (Hi : (i < length (seq 0 (length m')))%nat)
        by (apply nth_error_Some; congruence).
      rewrite length_seq in Hi.
      rewrite (nth_error_nth' _ 0%nat) in Hk by (rewrite length_seq; lia).
      rewrite seq_nth in Hk by lia. injection Hk as <-. reflexivity. }
    subst k. cbn [option_map] in Hx. injection Hx as <-.
    destruct (i =? row)%nat; reflexivity.
  - rewrite length_map, length_seq. lia.
  - exact Hget.
Qed.

Lemma report_after_pivot_witness :
  exists m' v,
    pivot ex1 (Z.of_nat 0) (Z.of_nat 0) = Done m'
    /\ getitem2 m' (Z.of_nat 0) (-1) = Ok v
    /\ value v = (value (Int 4) / value (Int 1))%Qc
    /\ report_var m' 0 = if printable v then v else Int 0.
Proof.
  apply (report_after_pivot ex1 5 0 0 (Int 1) (Int 4)).
  - repeat constructor.
  - reflexivity.
  - vm_compute. reflexivity.
  - reflexivity.
Defined.

(** ** The objective value after a pivot *)

Lemma exact_entry (m : tableau) (r j : nat) (l : list Qc) (q : Qc) :
  nth_error (exact m) r = Some l ->
  nth_error l j = Some q ->
  exists line x,
    nth_error m r = Some line /\ nth_error line j = Some x /\ value x = q.
Proof.
  unfold exact. rewrite nth_error_map.
  destruct (nth_error m r) as [line |]; [| discriminate].
  cbn [option_map]. intros [= <-]. rewrite nth_error_map.
  destruct (nth_error line j) as [x |] eqn:Hx; [| discriminate].
  cbn [option_map]. intros [= <-]. exists line, x. auto.
Qed.

Lemma entry_exact (m : tableau) (r j : nat) (line : list num) (x : num) :
  nth_error m r = Some line ->
  nth_error line j = Some x ->
  nth_error (exact m) r = Some (map value line)
  /\ nth_error (map value line) j = Some (value x).
Proof.
  intros Hr Hj. unfold exact. now rewrite !nth_error_map, Hr, Hj.
Qed.

Lemma Qc_step_not_lower (d c b p : Qc) :
  (c < 0)%Qc -> (0 <= b)%Qc -> (0 < p)%Qc -> (d <= d - c * (b / p))%Qc.
Proof.
  intros Hc Hb Hp.
  assert (Hp0 : p <> 0%Qc).
  { intros ->. exact (Qclt_not_le _ _ Hp (Qcle_refl _)). }
  assert (Hbp : (0 <= b / p)%Qc).
  { apply (Qcmult_lt_0_le_reg_r _ _ p Hp).
    replace (0 * p)%Qc with 0%Qc by ring.
    replace (b / p * p)%Qc with b by (field; exact Hp0). exact Hb. }
  assert (Hc' : (0 <= - c)%Qc).
  { replace 0%Qc with (- 0)%Qc by ring.
    apply Qcopp_le_compat, Qclt_le_weak, Hc. }
  apply Qcle_minus_iff.
  replace (d - c * (b / p) + - d)%Qc with (- c * (b / p))%Qc by ring.
  replace 0%Qc with (0 * (b / p))%Qc by ring.
  now apply Qcmult_le_compat_r.
Qed.

(** The number [main] prints as the value of the objective function is
    [matrix[-1][-1]].  A pivot on a nonzero entry of a constraint row
    replaces it by [d - c * (b / p)], with [c] the objective entry of the
    pivot column, [b] the right-hand side of the pivot row and [p] the
    pivot entry; with a negative [c], a positive [p] and a non-negative [b],
    as the simplex method chooses them, the value is not lowered. *)
Theorem pivot_objective_value (matrix : tableau) (n row col : nat)
        (pv b c d : num) :
  rectangular n matrix ->
  (row + 2 <= length matrix)%nat ->
  getitem2 matrix (Z.of_nat row) (Z.of_nat col) = Ok pv ->
  num_eqb pv (Int 0) = false ->
  getitem2 matrix (Z.of_nat row) (-1) = Ok b ->
  getitem2 matrix (-1) (Z.of_nat col) = Ok c ->
  getitem2 matrix (-1) (-1) = Ok d ->
  exists m' d',
    pivot matrix (Z.of_nat row) (Z.of_nat col) = Done m'
    /\ getitem2 m' (-1) (-1) = Ok d'
    /\ value d' = (value d - value c * (value b / value pv))%Qc
    /\ ((value c < 0)%Qc -> (0 <= value b)%Qc -> (0 < value pv)%Qc ->
        (value d <= value d')%Qc).
Proof.
  intros Hrect Hrow Hpv Hnz Hb Hc Hd.
  destruct (pivot_valid matrix n row col pv Hrect Hpv Hnz)
    as (m' & Hdone & Hex & Hlen & Hrect' & _).
  apply getitem2_of_nat_inv in Hpv as (line & Hline & Hpv).
  unfold getitem2 in Hb, Hc, Hd.
  rewrite (getitem_of_nat _ _ _ Hline) in Hb. cbn [bind] in Hb.
  apply getitem_minus_one in Hb.
  destruct (getitem matrix (-1)) as [bottom |] eqn:Hbottom; [| discriminate].
  cbn [bind] in Hc, Hd.
  apply getitem_minus_one in Hbottom, Hd. apply getitem_of_nat_inv in Hc.
  pose proof (rectangular_nth n matrix _ line Hrect Hline) as Hn.
  pose proof (rectangular_nth n matrix _ bottom Hrect Hbottom) as Hn2.
  rewrite Hn in Hb. rewrite Hn2 in Hd.
  destruct (entry_exact matrix row col line pv Hline Hpv) as [E1 E2].
  destruct (entry_exact matrix row (n - 1) line b Hline Hb) as [_ E3].
  destruct (entry_exact matrix _ col bottom c Hbottom Hc) as [E4 E5].
  destruct (entry_exact matrix _ (n - 1) bottom d Hbottom Hd) as [_ E6].
  destruct (gauss_pivot_entry (exact matrix) row col (length matrix - 1)
              (n - 1) _ _ _ _ _ _ E1 E2 E4 E5 E6 E3) as (l' & Hl' & Hentry).
  replace (length matrix - 1 =? row)%nat with false in Hentry
    by (symmetry; apply Nat.eqb_neq; lia).
  rewrite <- Hex in Hl'.
  destruct (exact_entry m' _ _ l' _ Hl' Hentry)
    as (bottom' & d' & H1 & H2 & H3).
  exists m', d'. split; [exact Hdone |].
  assert (Hget : getitem2 m' (-1) (-1) = Ok d').
  { unfold getitem2. rewrite <- Hlen in H1.
    rewrite (proj2 (getitem_minus_one m' bottom') H1). cbn [bind].
    apply getitem_minus_one.
    rewrite (rectangular_nth n m' _ bottom' Hrect' H1). exact H2. }
  split; [exact Hget |]. split; [exact H3 |].
  intros Hc0 Hb0 Hp0. rewrite H3. now apply Qc_step_not_lower.
Qed.

Lemma pivot_objective_value_witness :
  exists m' d',
    pivot ex1 (Z.of_nat 0) (Z.of_nat 0) = Done m'
    /\ getitem2 m' (-1) (-1) = Ok d'
    /\ value d'
       = (value (Int 0) - value (Int (-3)) * (value (Int 4) / value (Int 1)))%Qc
    /\ ((value (Int (-3)) < 0)%Qc -> (0 <= value (Int 4))%Qc ->
        (0 < value (Int 1))%Qc -> (value (Int 0) <= value d')%Qc).
Proof.
  apply (pivot_objective_value ex1 5 0 0 (Int 1) (Int 4) (Int (-3)) (Int 0)).
  - repeat constructor.
  - simpl. lia.
  - reflexivity.
  - vm_compute. reflexivity.
  - reflexivity.
  - reflexivity.
  - reflexivity.
Defined.

(** ** A negative row index

    [matrix[row]] accepts a negative [row], but [r == row] in the loop is
    then never true: the pivot row is reduced by itself. *)

Lemma eliminate_app (l1 l2 : list nat) (m : tableau) (row col : Z) :
  eliminate (l1 ++ l2) m row col
  = match eliminate l1 m row col with
    | Done m' => eliminate l2 m' row col
    | Failed e m' => Failed e m'
    end.
Proof.
  revert m. induction l1 as [| r l1 IH]; intros m; cbn [app eliminate].
  - reflexivity.
  - destruct (Z.of_nat r =? row); [apply IH |].
    destruct (eliminate_row m r row col); [apply IH | reflexivity].
Qed.

Lemma py_pos_length {A B : Type} (l1 : list A) (l2 : list B) (i : Z) :
  length l1 = length l2 -> py_pos l1 i = py_pos l2 i.
Proof. intros H. unfold py_pos, len. now rewrite H. Qed.

Lemma getitem_at {A : Type} (l : list A) (i : Z) (k : nat) (a : A) :
  py_pos l i = Some k -> nth_error l k = Some a -> getitem l i = Ok a.
Proof. intros H1 H2. unfold getitem. now rewrite H1, H2. Qed.

(** The new row [r] once the pivot row, at position [k], holds a 1 in the
    pivot column; [r] may be [k] itself. *)
Lemma eliminate_row_at (st : tableau) (r k : nat) (i : Z) (col : nat)
      (line_r line_row : list num) (p : num) :
  py_pos st i = Some k ->
  nth_error st r = Some line_r ->
  nth_error st k = Some line_row ->
  (col < length line_r)%nat ->
  nth_error line_row col = Some p ->
  value p = 1%Qc ->
  eliminate_row st r i (Z.of_nat col) = Ok (reduce_line col line_row line_r).
Proof.
  intros Hpos Hr Hk Hcol Hp Hone.
  destruct (nth_error line_r col) as [f |] eqn:Hf;
    [| apply nth_error_None in Hf; lia].
  unfold eliminate_row, getitem2, reduce_line.
  rewrite (getitem_of_nat _ _ _ Hr), (getitem_at _ _ _ _ Hpos Hk). cbn [bind].
  rewrite (getitem_of_nat _ _ _ Hf), (getitem_of_nat _ _ _ Hp). cbn [bind].
  rewrite Hf.
  destruct f as [a | qf]; destruct p as [b | qp]; cbn [isinstance_int];
    try (apply mapM_pure; reflexivity).
  apply value_one_int in Hone. subst b.
  apply mapM_pure. intros xy _. apply reduce_by_int_one.
Qed.

(** The rows above the pivot row. *)
Lemma eliminate_above (i : Z) (k col : nat) (new_row : list num) (p : num)
      (post todo done : tableau) :
  i < 0 ->
  py_pos (done ++ todo ++ new_row :: post) i = Some k ->
  k = (length done + length todo)%nat ->
  nth_error new_row col = Some p ->
  value p = 1%Qc ->
  Forall (fun line => (col < length line)%nat) todo ->
  eliminate (seq (length done) (length todo)) (done ++ todo ++ new_row :: post)
            i (Z.of_nat col)
  = Done (done ++ map (reduce_line col new_row) todo ++ new_row :: post).
Proof.
  intros Hneg Hpos Hk Hp Hone. revert done Hpos Hk.
  induction todo as [| line rest IH]; intros done Hpos Hk Hall.
  - reflexivity.
  - inversion Hall as [| ? ? Hline Hrest]; subst.
    cbn [length seq eliminate map app].
    replace (Z.of_nat (length done) =? i) with false
      by (symmetry; apply Z.eqb_neq; lia).
    rewrite (eliminate_row_at _ _ _ _ _ line new_row p Hpos); auto.
    2:{ rewrite nth_error_app2, Nat.sub_diag by lia. reflexivity. }
    2:{ rewrite nth_error_app2 by lia.
        replace (length done + length (line :: rest) - length done)%nat
          with (length (line :: rest)) by lia.
        rewrite nth_error_app2, Nat.sub_diag by lia. reflexivity. }
    rewrite set_nth_app.
    set (new := reduce_line col new_row line).
    assert (Hnext : S (length done) = length (done ++ [new]))
      by (rewrite length_app; simpl; lia).
    rewrite Hnext.
    replace (done ++ new :: rest ++ new_row :: post)
      with ((done ++ [new]) ++ rest ++ new_row :: post)
      by (rewrite <- app_assoc; reflexivity).
    rewrite IH; [| | | exact Hrest].
    + rewrite <- app_assoc. reflexivity.
    + rewrite <- Hpos. apply py_pos_length.
      repeat (rewrite length_app || cbn [length]). lia.
    + rewrite <- Hnext. cbn [length]. lia.
Qed.

(** The pivot row itself: reduced by itself. *)
Lemma eliminate_self (i : Z) (col : nat) (new_row : list num) (p : num)
      (pre post : tableau) :
  i < 0 ->
  py_pos (pre ++ new_row :: post) i = Some (length pre) ->
  nth_error new_row col = Some p ->
  value p = 1%Qc ->
  eliminate [length pre] (pre ++ new_row :: post) i (Z.of_nat col)
  = Done (pre ++ reduce_line col new_row new_row :: post).
Proof.
  intros Hneg Hpos Hp Hone. cbn [eliminate].
  replace (Z.of_nat (length pre) =? i) with false
    by (symmetry; apply Z.eqb_neq; lia).
  assert (Hk : nth_error (pre ++ new_row :: post) (length pre) = Some new_row)
    by (rewrite nth_error_app2, Nat.sub_diag by lia; reflexivity).
  rewrite (eliminate_row_at _ _ _ _ _ new_row new_row p Hpos Hk Hk); auto.
  - now rewrite set_nth_app.
  - apply nth_error_Some. congruence.
Qed.

(** A row reduced by itself holds zeros. *)
Lemma reduce_self_zero (col : nat) (new_row : list num) (p : num) :
  nth_error new_row col = Some p ->
  value p = 1%Qc ->
  Forall (fun x => value x = 0%Qc) (reduce_line col new_row new_row).
Proof.
  intros Hp Hone. unfold reduce_line. rewrite Hp.
  apply Forall_map, Forall_forall. intros [x y] Hin.
  cbn [fst snd]. rewrite value_sub, value_mul, Hone.
  assert (x = y); [| subst; ring].
  clear Hp. induction new_row as [| a l IH]; simpl in Hin; [contradiction |].
  destruct Hin as [[= <- <-] | Hin]; auto.
Qed.

Lemma to_int_zero_row (l : list num) :
  Forall (fun x => value x = 0%Qc) l ->
  map to_int_if_whole l = repeat (Int 0) (length l).
Proof.
  induction 1 as [| x l Hx _ IH]; cbn [map length repeat]; [reflexivity |].
  rewrite IH. f_equal. apply to_int_if_whole_of_Z. now rewrite Qc_of_Z_0.
Qed.

Lemma split_at {A : Type} (l : list A) (k : nat) (a : A) :
  nth_error l k = Some a ->
  exists pre post, l = pre ++ a :: post /\ length pre = k.
Proof.
  intros H. apply nth_error_split in H as (pre & post & -> & <-). eauto.
Qed.

Lemma py_pos_minus_one {A : Type} (l : list A) :
  l <> [] -> py_pos l (-1) = Some (length l - 1)%nat.
Proof.
  intros H. unfold py_pos, len. destruct l as [| b l]; [congruence |].
  cbn [length].
  replace (0 <=? -1) with false by reflexivity.
  replace (-1 <? 0) with true by reflexivity.
  replace (0 <=? Z.of_nat (S (length l)) + -1) with true
    by (symmetry; apply Z.leb_le; lia).
  cbn [andb]. f_equal. lia.
Qed.

(** What [pivot] leaves on row index -1 and an existing nonzero entry. *)
Lemma pivot_minus_one_stores (n col : nat) (pre : tableau)
      (line new_row : list num) (pv : num) :
  rectangular n (pre ++ [line]) ->
  nth_error line col = Some pv ->
  value pv <> 0%Qc ->
  normalize_row pv line = Ok new_row ->
  map value new_row = map (fun x => (value x / value pv)%Qc) line ->
  pivot (pre ++ [line]) (-1) (Z.of_nat col)
  = Done (map (map to_int_if_whole)
              (map (reduce_line col new_row) pre
               ++ [reduce_line col new_row new_row])).
Proof.
  intros Hrect Hpv Hnz Hnorm Hval.
  assert (Hline : nth_error (pre ++ [line]) (length pre) = Some line)
    by (rewrite nth_error_app2, Nat.sub_diag by lia; reflexivity).
  destruct (new_row_one _ n _ col line pv Hrect Hline Hpv Hnz new_row Hval)
    as (p & Hp & Hone).
  pose proof (selected_col_lt _ n _ col line pv Hrect Hline Hpv) as Hcol.
  assert (Hlen : length (pre ++ [line]) = S (length pre))
    by (rewrite length_app; simpl; lia).
  assert (Hpos : py_pos (pre ++ [line]) (-1) = Some (length pre)).
  { rewrite py_pos_minus_one by (destruct pre; discriminate).
    f_equal. lia. }
  unfold pivot, getitem2, setitem.
  rewrite (getitem_at _ _ _ _ Hpos Hline). cbn [bind].
  rewrite (getitem_of_nat _ _ _ Hpv), Hnorm, Hpos, set_nth_app.
  replace (length (pre ++ [new_row])) with (length pre + 1)%nat
    by (rewrite length_app; reflexivity).
  rewrite seq_app, eliminate_app. cbn [Nat.add seq].
  assert (Hpos1 : forall pre' : tableau,
             length pre' = length pre ->
             py_pos (pre' ++ [new_row]) (-1) = Some (length pre')).
  { intros pre' E. rewrite py_pos_minus_one by (destruct pre'; discriminate).
    f_equal. rewrite length_app. simpl. lia. }
  pose proof (eliminate_above (-1) (length pre) col new_row p [] pre [])
    as Habove.
  cbn [app length] in Habove. rewrite Habove; auto; try lia.
  - pose proof (eliminate_self (-1) col new_row p
                  (map (reduce_line col new_row) pre) []) as Hself.
    rewrite length_map in Hself. rewrite Hself; auto; try lia.
    rewrite <- (length_map (reduce_line col new_row) pre).
    apply Hpos1. apply length_map.
  - unfold rectangular in Hrect. apply Forall_app in Hrect as [Hrect _].
    eapply Forall_impl; [| exact Hrect]. simpl. intros l ->. exact Hcol.
Qed.

(** Row index -1 on an existing nonzero entry: what is stored, and the
    last row of it. *)
Lemma pivot_minus_one_valid (matrix : tableau) (n col : nat) (pv : num) :
  rectangular n matrix ->
  getitem2 matrix (-1) (Z.of_nat col) = Ok pv ->
  num_eqb pv (Int 0) = false ->
  exists pre line new_row m',
    matrix = pre ++ [line]
    /\ nth_error line col = Some pv
    /\ map value new_row = map (fun x => (value x / value pv)%Qc) line
    /\ m' = map (map to_int_if_whole)
                (map (reduce_line col new_row) pre
                 ++ [reduce_line col new_row new_row])
    /\ pivot matrix (-1) (Z.of_nat col) = Done m'
    /\ getitem m' (-1) = Ok (repeat (Int 0) n).
Proof.
  intros Hrect Hget Hnz. apply value_nonzero in Hnz.
  unfold getitem2 in Hget.
  destruct (getitem matrix (-1)) as [line |] eqn:Hline; [| discriminate].
  cbn [bind] in Hget. apply getitem_of_nat_inv in Hget.
  apply getitem_minus_one in Hline.
  destruct (split_at _ _ _ Hline) as (pre & post & Hm & Hpre).
  assert (post = []).
  { destruct post; [reflexivity |]. exfalso.
    rewrite Hm, length_app in Hpre. simpl in Hpre. lia. }
  subst post. clear Hpre. subst matrix.
  assert (Hk : (length (pre ++ [line]) - 1 = length pre)%nat)
    by (rewrite length_app; simpl; lia).
  rewrite Hk in *.
  destruct (normalize_row_ok pv line Hnz) as (new_row & Hnorm & Hval).
  destruct (new_row_one _ n _ col line pv Hrect Hline Hget Hnz new_row Hval)
    as (p & Hp & Hone).
  pose proof (new_row_length _ n _ line pv Hrect Hline new_row Hval) as Hnew.
  exists pre, line, new_row. eexists.
  split; [reflexivity |]. split; [exact Hget |]. split; [exact Hval |].
  split; [reflexivity |].
  split; [eapply pivot_minus_one_stores; eauto |].
  apply getitem_minus_one.
  rewrite length_map, length_app, length_map. cbn [length].
  rewrite nth_error_map, nth_error_app2 by (rewrite length_map; lia).
  replace (length pre + 1 - 1
           - length (map (reduce_line col new_row) pre))%nat
    with 0%nat by (rewrite length_map; lia).
  cbn [nth_error option_map]. f_equal.
  rewrite (to_int_zero_row _ (reduce_self_zero col new_row p Hp Hone)).
  rewrite length_reduce_line by reflexivity. now rewrite Hnew.
Qed.

(** With row index -1 the call returns, but the last row is lost: the loop
    never skips it, reduces it by itself, and leaves it holding int zeros.
    The rows above it are those of the Gaussian step. *)
Theorem pivot_row_minus_one (matrix : tableau) (n col : nat) (pv : num) :
  rectangular n matrix ->
  getitem2 matrix (-1) (Z.of_nat col) = Ok pv ->
  num_eqb pv (Int 0) = false ->
  exists m',
    pivot matrix (-1) (Z.of_nat col) = Done m'
    /\ length m' = length matrix
    /\ getitem m' (-1) = Ok (repeat (Int 0) n)
    /\ forall r, (r + 2 <= length matrix)%nat ->
                 nth_error (exact m') r
                 = nth_error
                     (gauss_pivot (exact matrix) (length matrix - 1) col) r.
Proof.
  intros Hrect Hget Hnz.
  destruct (pivot_minus_one_valid matrix n col pv Hrect Hget Hnz)
    as (pre & line & new_row & m' & -> & Hpv & Hval & -> & Hdone & Hlast).
  eexists. split; [exact Hdone |].
  assert (Hline : nth_error (pre ++ [line]) (length pre) = Some line)
    by (rewrite nth_error_app2, Nat.sub_diag by lia; reflexivity).
  assert (Hk : (length (pre ++ [line]) - 1 = length pre)%nat)
    by (rewrite length_app; simpl; lia).
  split; [| split; [exact Hlast |]].
  - rewrite length_map, !length_app, length_map. reflexivity.
  - intros r Hr. rewrite Hk.
    assert (Hr' : (r < length pre)%nat)
      by (rewrite length_app in Hr; simpl in Hr; lia).
    rewrite <- (exact_pivoted _ n _ col line pv Hrect Hline Hpv new_row Hval).
    unfold exact, pivoted.
    rewrite !nth_error_map, nth_error_mapi_from, set_nth_app.
    rewrite !nth_error_app1 by (rewrite ?length_map; lia).
    rewrite nth_error_map. cbn [Nat.add].
    replace (r =? length pre)%nat with false
      by (symmetry; apply Nat.eqb_neq; lia).
    reflexivity.
Qed.

Lemma pivot_row_minus_one_witness :
  exists m',
    pivot ex1 (-1) (Z.of_nat 0) = Done m'
    /\ length m' = length ex1
    /\ getitem m' (-1) = Ok (repeat (Int 0) 5)
    /\ forall r, (r + 2 <= length ex1)%nat ->
                 nth_error (exact m') r
                 = nth_error (gauss_pivot (exact ex1) (length ex1 - 1) 0) r.
Proof.
  apply (pivot_row_minus_one ex1 5 0 (Int (-3))).
  - repeat constructor.
  - reflexivity.
  - vm_compute. reflexivity.
Defined.

Lemma candidate_col_lt (matrix : tableau) (last_row : list num) (col : nat) :
  getitem matrix (-1) = Ok last_row ->
  candidate_col matrix = Ok col ->
  (col + 2 <= length last_row)%nat.
Proof.
  intros Hlast Hcol.
  unfold candidate_col in Hcol. rewrite Hlast in Hcol. cbn [bind] in Hcol.
  destruct (py_min (removelast last_row)) as [mn |]; cbn [bind] in Hcol;
    [| discriminate].
  apply index_from_spec in Hcol as (x & _ & Hx & _).
  rewrite Nat.sub_0_r in Hx.
  assert (Hlt : (col < length (removelast last_row))%nat)
    by (apply nth_error_Some; congruence).
  rewrite removelast_firstn_len, length_firstn in Hlt. lia.
Qed.

Lemma removelast_repeat {A : Type} (a : A) (n : nat) :
  removelast (repeat a n) = repeat a (n - 1).
Proof.
  induction n as [| [| n] IH]; try reflexivity.
  change (repeat a (S (S n))) with (a :: repeat a (S n)).
  change (removelast (a :: repeat a (S n)))
    with (a :: removelast (repeat a (S n))).
  rewrite IH. simpl. now rewrite Nat.sub_0_r.
Qed.

(** An operator who answers the row prompt with -1 ends the run: the pivot
    is carried out on the objective row, which is left holding zeros.  When
    the new tableau can be displayed, the next turn finds no negative
    objective entry and returns it as optimal; when an entry of it is beyond
    the digit limit, the display raises [ValueError] and the run ends
    there. *)
Theorem row_minus_one_ends_run (fuel : nat) (ins : console)
        (matrix : tableau) (n pos row col c : nat) (pv : num) :
  rectangular n matrix ->
  select matrix = Ok (Suggest row col) ->
  ins pos = IntLine (Z.of_nat c) ->
  ins (S pos) = IntLine (-1) ->
  getitem2 matrix (-1) (Z.of_nat c) = Ok pv ->
  num_eqb pv (Int 0) = false ->
  exists m',
    pivot matrix (-1) (Z.of_nat c) = Done m'
    /\ getitem m' (-1) = Ok (repeat (Int 0) n)
    /\ simplex (S (S fuel)) ins matrix pos
       = if all_printable m' then Returned m' (S (S pos))
         else Raised digits_error m' pos.
Proof.
  intros Hrect Hsel Hc Hr Hpv Hnz.
  destruct (pivot_minus_one_valid matrix n c pv Hrect Hpv Hnz)
    as (_ & _ & _ & m' & _ & _ & _ & _ & Hdone & Hlast').
  exists m'. split; [exact Hdone |]. split; [exact Hlast' |].
  apply select_Suggest_inv in Hsel as Hinv.
  destruct Hinv as (last_row & _ & _ & Hlast & Hcol & _).
  pose proof (candidate_col_lt matrix last_row col Hlast Hcol) as Hn.
  assert (Hlen : length last_row = n).
  { unfold rectangular in Hrect. rewrite Forall_forall in Hrect.
    apply Hrect. eapply getitem_In; eauto. }
  assert (Hopt : select m' = Ok Optimal).
  { apply (select_Optimal_iff m' (repeat (Int 0) n) Hlast').
    - rewrite removelast_repeat.
      destruct (n - 1)%nat eqn:E; [lia | discriminate].
    - rewrite removelast_repeat. apply Forall_forall. intros x Hx.
      apply repeat_spec in Hx. subst x. reflexivity. }
  cbn [simplex]. unfold simplex_step at 1. rewrite Hsel.
  unfold read_choice. rewrite Hc, Hr, Hdone.
  destruct (all_printable m') eqn:Hshow.
  - destruct (pretty_print_Ok m' Hshow) as [lines ->].
    unfold simplex_step. rewrite Hopt. reflexivity.
  - rewrite (pretty_print_not_printable m' Hshow). reflexivity.
Qed.

Lemma row_minus_one_ends_run_witness :
  exists m',
    pivot ex1 (-1) (Z.of_nat 0) = Done m'
    /\ getitem m' (-1) = Ok (repeat (Int 0) 5)
    /\ simplex 2 (fun k => match k with O => IntLine (Z.of_nat 0)
                                      | _ => IntLine (-1) end) ex1 0
       = if all_printable m' then Returned m' 2
         else Raised digits_error m' 0.
Proof.
  apply (row_minus_one_ends_run 0 _ ex1 5 0 0 0 0 (Int (-3))).
  - repeat constructor.
  - vm_compute. reflexivity.
  - reflexivity.
  - reflexivity.
  - reflexivity.
  - vm_compute. reflexivity.
Defined.

(** With an int pivot the pivot column of the new pivot row holds the int 1,
    and the row reduced by itself holds the int 0 there. *)
Lemma normalize_row_int_one (z : Z) (col : nat) (line new_row : list num) :
  z <> 0 ->
  nth_error line col = Some (Int z) ->
  normalize_row (Int z) line = Ok new_row ->
  nth_error new_row col = Some (Int 1).
Proof.
  intros Hz Hcol Hnorm. cbn [normalize_row] in Hnorm.
  pose proof (mapM_length _ _ _ Hnorm) as Hlen.
  apply mapM_Ok_Forall2 in Hnorm.
  destruct (nth_error new_row col) as [p |] eqn:Hp.
  2:{ apply nth_error_None in Hp.
      assert (col < length line)%nat by (apply nth_error_Some; congruence).
      lia. }
  pose proof (Forall2_nth_error _ _ _ _ _ _ Hnorm Hcol Hp) as H.
  cbn beta in H. unfold divide_by_int, py_mod, py_floordiv in H.
  assert (E0 : num_eqb (Int z) (Int 0) = false).
  { apply num_eqb_neq. cbn [value]. intros E. apply Qc_of_Z_inj in E. lia. }
  rewrite E0 in H. cbn [bind] in H. rewrite Z.mod_same in H by exact Hz.
  replace (num_eqb (Int 0) (Int 0)) with true in H
    by (symmetry; now apply num_eqb_eq).
  rewrite Z.div_same in H by exact Hz. congruence.
Qed.

Lemma reduce_self_int_zero (col : nat) (new_row : list num) :
  nth_error new_row col = Some (Int 1) ->
  nth_error (reduce_line col new_row new_row) col = Some (Int 0).
Proof.
  intros Hp. unfold reduce_line. rewrite Hp.
  rewrite nth_error_map, nth_error_zip, Hp. reflexivity.
Qed.

(** A row below the wiped pivot row, with an int in the pivot column:
    [matrix[r][col] % matrix[row][col]] divides by the int 0. *)
Lemma eliminate_row_below (st : tableau) (r k : nat) (i : Z) (col : nat)
      (line_r zrow : list num) (f : Z) :
  py_pos st i = Some k ->
  nth_error st r = Some line_r ->
  nth_error st k = Some zrow ->
  nth_error line_r col = Some (Int f) ->
  nth_error zrow col = Some (Int 0) ->
  eliminate_row st r i (Z.of_nat col) = Raise ZeroDivisionError.
Proof.
  intros Hpos Hr Hk Hf Hp.
  unfold eliminate_row, getitem2.
  rewrite (getitem_of_nat _ _ _ Hr), (getitem_at _ _ _ _ Hpos Hk). cbn [bind].
  rewrite (getitem_of_nat _ _ _ Hf), (getitem_of_nat _ _ _ Hp).
  cbn [bind isinstance_int].
  destruct line_r as [| x line_r]; [destruct col; discriminate |].
  destruct zrow as [| y zrow]; [destruct col; discriminate |].
  reflexivity.
Qed.

(** What a failing call with a negative row index leaves behind. *)
Lemma pivot_negative_stores (n col : nat) (i : Z) (z f : Z)
      (pre post : tableau) (line next new_row : list num) :
  rectangular n (pre ++ line :: next :: post) ->
  i < 0 ->
  py_pos (pre ++ line :: next :: post) i = Some (length pre) ->
  nth_error line col = Some (Int z) ->
  z <> 0 ->
  nth_error next col = Some (Int f) ->
  normalize_row (Int z) line = Ok new_row ->
  map value new_row = map (fun x => (value x / value (Int z))%Qc) line ->
  pivot (pre ++ line :: next :: post) i (Z.of_nat col)
  = Failed ZeroDivisionError
           (map (reduce_line col new_row) pre
            ++ reduce_line col new_row new_row :: next :: post).
Proof.
  intros Hrect Hneg Hpos Hpv Hz Hf Hnorm Hval.
  assert (Hnz : value (Int z) <> 0%Qc).
  { cbn [value]. rewrite <- Qc_of_Z_0. intros E. apply Qc_of_Z_inj in E. lia. }
  assert (Hline : nth_error (pre ++ line :: next :: post) (length pre)
                  = Some line)
    by (rewrite nth_error_app2, Nat.sub_diag by lia; reflexivity).
  pose proof (normalize_row_int_one z col line new_row Hz Hpv Hnorm) as Hp.
  assert (Hone : value (Int 1) = 1%Qc) by (cbn [value]; apply Qc_of_Z_1).
  pose proof (selected_col_lt _ n _ col line (Int z) Hrect Hline Hpv) as Hcol.
  unfold pivot, getitem2, setitem.
  rewrite (getitem_at _ _ _ _ Hpos Hline). cbn [bind].
  rewrite (getitem_of_nat _ _ _ Hpv), Hnorm, Hpos, set_nth_app.
  assert (Hsame : forall (pre' : tableau) (l : list num),
             length pre' = length pre ->
             py_pos (pre' ++ l :: next :: post) i = Some (length pre')).
  { intros pre' l E. rewrite E, <- Hpos. apply py_pos_length.
    rewrite !length_app. cbn [length]. lia. }
  replace (length (pre ++ new_row :: next :: post))
    with (length pre + (1 + S (length post)))%nat
    by (rewrite length_app; cbn [length]; lia).
  rewrite seq_app, eliminate_app. cbn [Nat.add].
  pose proof (eliminate_above i (length pre) col new_row (Int 1)
                (next :: post) pre []) as Habove.
  cbn [app length] in Habove. rewrite Habove; auto; try lia.
  2:{ unfold rectangular in Hrect. apply Forall_app in Hrect as [Hrect _].
      eapply Forall_impl; [| exact Hrect]. simpl. intros l ->. exact Hcol. }
  set (pre' := map (reduce_line col new_row) pre).
  assert (Hpre' : length pre' = length pre) by apply length_map.
  change (seq (length pre) (S (S (length post))))
    with ([length pre] ++ seq (S (length pre)) (S (length post))).
  rewrite eliminate_app, <- Hpre'.
  rewrite (eliminate_self i col new_row (Int 1) pre' (next :: post));
    auto.
  cbn [seq eliminate].
  replace (Z.of_nat (S (length pre')) =? i) with false
    by (symmetry; apply Z.eqb_neq; lia).
  rewrite (eliminate_row_below _ _ (length pre') _ _ next
             (reduce_line col new_row new_row) f); auto.
  - rewrite nth_error_app2 by lia.
    replace (S (length pre') - length pre')%nat with 1%nat by lia.
    reflexivity.
  - rewrite nth_error_app2, Nat.sub_diag by lia. reflexivity.
  - now apply reduce_self_int_zero.
Qed.

Lemma value_zero_row (l : list num) :
  Forall (fun x => value x = 0%Qc) l ->
  map value l = repeat 0%Qc (length l).
Proof.
  induction 1 as [| x l Hx _ IH]; cbn [map length repeat]; congruence.
Qed.

(** With a negative row index other than that of the last row, on ints, the
    call fails although the selected entry is not zero, and not before it
    has written: the rows above the pivot row hold the Gaussian step, the
    pivot row holds zeros, the rows below are as before.  The division by
    zero is that of the first row below by the wiped pivot row. *)
Theorem pivot_negative_row_fails_midway (matrix : tableau) (n col k : nat)
        (i z f : Z) (line next : list num) :
  rectangular n matrix ->
  i < 0 ->
  py_pos matrix i = Some k ->
  nth_error matrix k = Some line ->
  nth_error line col = Some (Int z) ->
  z <> 0 ->
  nth_error matrix (S k) = Some next ->
  nth_error next col = Some (Int f) ->
  exists m',
    pivot matrix i (Z.of_nat col) = Failed ZeroDivisionError m'
    /\ length m' = length matrix
    /\ (forall r, (r < k)%nat ->
                  nth_error (exact m') r
                  = nth_error (gauss_pivot (exact matrix) k col) r)
    /\ nth_error (exact m') k = Some (repeat 0%Qc n)
    /\ (forall r, (k < r)%nat -> nth_error m' r = nth_error matrix r).
Proof.
  intros Hrect Hneg Hpos Hline Hpv Hz Hnext Hf.
  destruct (split_at _ _ _ Hline) as (pre & post0 & Hm & Hpre).
  subst matrix k.
  assert (Hpost : exists post, post0 = next :: post).
  { rewrite nth_error_app2 in Hnext by lia.
    replace (S (length pre) - length pre)%nat with 1%nat in Hnext by lia.
    destruct post0 as [| l post]; [discriminate |].
    injection Hnext as ->. eauto. }
  destruct Hpost as [post ->].
  assert (Hnz : value (Int z) <> 0%Qc).
  { cbn [value]. rewrite <- Qc_of_Z_0. intros E. apply Qc_of_Z_inj in E. lia. }
  destruct (normalize_row_ok (Int z) line Hnz) as (new_row & Hnorm & Hval).
  destruct (new_row_one _ n _ col line (Int z) Hrect Hline Hpv Hnz new_row
              Hval) as (p & Hp & Hone).
  pose proof (new_row_length _ n _ line (Int z) Hrect Hline new_row Hval)
    as Hnew.
  eexists. split; [eapply pivot_negative_stores; eauto |].
  split; [| split; [| split]].
  - rewrite !length_app, length_map. reflexivity.
  - intros r Hr.
    rewrite <- (exact_pivoted _ n _ col line (Int z) Hrect Hline Hpv new_row
                  Hval).
    unfold exact, pivoted.
    rewrite !nth_error_map, nth_error_mapi_from, set_nth_app.
    rewrite !nth_error_app1 by (rewrite ?length_map; lia).
    rewrite nth_error_map. cbn [Nat.add].
    replace (r =? length pre)%nat with false
      by (symmetry; apply Nat.eqb_neq; lia).
    destruct (nth_error pre r) as [l |]; [| reflexivity].
    cbn [option_map]. now rewrite map_value_to_int.
  - unfold exact. rewrite nth_error_map.
    rewrite nth_error_app2 by (rewrite length_map; lia).
    rewrite length_map, Nat.sub_diag. cbn [nth_error option_map]. f_equal.
    rewrite (value_zero_row _ (reduce_self_zero col new_row p Hp Hone)).
    rewrite length_reduce_line by reflexivity. now rewrite Hnew.
  - intros r Hr.
    rewrite !nth_error_app2 by (rewrite ?length_map; lia).
    rewrite length_map.
    destruct (r - length pre)%nat as [| j] eqn:E; [lia | reflexivity].
Qed.

Lemma pivot_negative_row_fails_midway_witness :
  exists m',
    pivot ex1 (-2) (Z.of_nat 0) = Failed ZeroDivisionError m'
    /\ length m' = length ex1
    /\ (forall r, (r < 1)%nat ->
                  nth_error (exact m') r
                  = nth_error (gauss_pivot (exact ex1) 1 0) r)
    /\ nth_error (exact m') 1 = Some (repeat 0%Qc 5)
    /\ (forall r, (1 < r)%nat -> nth_error m' r = nth_error ex1 r).
Proof.
  apply (pivot_negative_row_fails_midway ex1 5 0 1 (-2) 2 (-3)
           [Int 2; Int 1; Int 0; Int 1; Int 10]
           [Int (-3); Int (-2); Int 0; Int 0; Int 0]).
  - repeat constructor.
  - lia.
  - reflexivity.
  - reflexivity.
  - reflexivity.
  - lia.
  - reflexivity.
  - reflexivity.
Defined.

(** ** The display *)

Lemma substring_prefix (s t : String.string) :
  String.substring 0 (String.length s) (String.append s t) = s.
Proof. induction s as [| c s IH]; simpl; [now destruct t | congruence]. Qed.

Lemma substring_all (s : String.string) :
  String.substring 0 (String.length s) s = s.
Proof. induction s as [| c s IH]; simpl; congruence. Qed.

Lemma substring_skip (s t : String.string) (n m : nat) :
  String.substring (String.length s + n) m (String.append s t)
  = String.substring n m t.
Proof. induction s as [| c s IH]; simpl; auto. Qed.

(** In a line joined from cells of one width [w], cell [j] occupies the [w]
    characters from offset [j * (w + 1)]. *)
Lemma substring_concat (w : nat) (cells : list String.string) (j : nat)
      (c : String.string) :
  Forall (fun s => String.length s = w) cells ->
  nth_error cells j = Some c ->
  String.substring (j * (w + 1)) w (String.concat " " cells) = c.
Proof.
  intros Hall. revert j. induction Hall as [| c0 rest Hc0 Hrest IH];
    intros j Hj; [destruct j; discriminate |].
  destruct j as [| j]; cbn [nth_error] in Hj.
  - injection Hj as <-. cbn [Nat.mul]. subst w.
    destruct rest; cbn [String.concat];
      [apply substring_all | apply substring_prefix].
  - destruct rest as [| c1 rest]; [destruct j; discriminate |].
    change (String.concat " " (c0 :: c1 :: rest))
      with (String.append c0
              (String.append " " (String.concat " " (c1 :: rest)))).
    replace (S j * (w + 1))%nat with (String.length c0 + S (j * (w + 1)))%nat
      by (rewrite Hc0; lia).
    rewrite substring_skip. cbn [String.append String.substring].
    destruct w; apply IH; exact Hj.
Qed.

Lemma Forall2_nth_error_left {A B : Type} (R : A -> B -> Prop) (l : list A)
      (l' : list B) (i : nat) (a : A) :
  Forall2 R l l' -> nth_error l i = Some a ->
  exists b, nth_error l' i = Some b /\ R a b.
Proof.
  intros HF. revert i. induction HF as [| x y l l' Hxy HF IH]; intros i Ha.
  - destruct i; discriminate.
  - destruct i as [| i]; simpl in Ha.
    + injection Ha as <-. exists y. auto.
    + apply IH. exact Ha.
Qed.

Lemma Forall2_Forall_right {A B : Type} (R : A -> B -> Prop) (P : B -> Prop)
      (l : list A) (l' : list B) :
  (forall a b, R a b -> P b) -> Forall2 R l l' -> Forall P l'.
Proof. intros H HF. induction HF; constructor; eauto. Qed.

(** When every entry can be shown, [pretty_print] prints, and the columns
    are aligned: with [w] the width it computes, the line of row [r] holds
    the text of entry [j], padded on the left to exactly [w] characters and
    not cut, in the [w] characters from offset [j * (w + 1)], whatever the
    row. *)
Theorem pretty_print_aligned (matrix : tableau) (r j : nat)
        (row : list num) (x : num) :
  all_printable matrix = true ->
  nth_error matrix r = Some row ->
  nth_error row j = Some x ->
  exists w lines line s,
    max_chars matrix = Ok w
    /\ pretty_print matrix = Ok lines
    /\ nth_error lines r = Some line
    /\ formatted x = Ok s
    /\ String.substring (j * (w + 1)) w line = rjust s w
    /\ String.length (rjust s w) = w.
Proof.
  intros Hall Hrow Hx.
  destruct (pretty_print_printable matrix Hall) as (w & lines & Hw & Hpp & HF).
  destruct (Forall2_nth_error_left _ _ _ r row HF Hrow)
    as (line & Hline & cells & -> & Hcells).
  assert (Hwide : Forall (fun c => String.length c = w) cells).
  { eapply Forall2_Forall_right; [| exact Hcells].
    intros y c' (_ & _ & _ & Hy). exact Hy. }
  destruct (Forall2_nth_error_left _ _ _ j x Hcells Hx)
    as (c & Hc & s & Hs & -> & Hlen).
  exists w, lines, (String.concat " " cells), s.
  repeat (split; [assumption |]). split; [| exact Hlen].
  now apply substring_concat.
Qed.

Lemma pretty_print_aligned_witness :
  exists w lines line s,
    max_chars ex_halves = Ok w
    /\ pretty_print ex_halves = Ok lines
    /\ nth_error lines 0 = Some line
    /\ formatted (Fraction (Q2Qc (1 # 2))) = Ok s
    /\ String.substring (1 * (w + 1)) w line = rjust s w
    /\ String.length (rjust s w) = w.
Proof.
  apply (pretty_print_aligned ex_halves 0 1
           [Int 1; Fraction (Q2Qc (1 # 2))]).
  - vm_compute. reflexivity.
  - reflexivity.
  - reflexivity.
Defined.

(** [pretty_print] raises exactly when showing some entry converts an int
    of more than 4300 digits, and what it raises then is the [ValueError]
    of the digit limit; no line has been printed. *)
Theorem pretty_print_digit_limit (matrix : tableau) (e : exn) :
  pretty_print matrix = Raise e <->
  e = digits_error /\ all_printable matrix = false.
Proof.
  split.
  - intros H. split; [eapply pretty_print_error; eauto |].
    destruct (all_printable matrix) eqn:Hall; [| reflexivity].
    destruct (pretty_print_Ok matrix Hall) as [lines E]. congruence.
  - intros [-> H]. now apply pretty_print_not_printable.
Qed.

(** ** An answer that is not an integer *)

(** When the answer to the column prompt is not an integer, the row prompt
    is skipped, the request for an integer is printed, and the pivot is
    carried out all the same, on the row and column the program had
    selected itself.  The turn then shows the new tableau and goes on, or,
    when an entry of it is beyond the digit limit, ends the run with the
    [ValueError] of the display. *)
Theorem non_integer_answer_pivots_on_suggestion (ins : console)
        (matrix : tableau) (n pos row col : nat) (pv : num) :
  rectangular n matrix ->
  select matrix = Ok (Suggest row col) ->
  ins pos = NotInt ->
  getitem2 matrix (Z.of_nat row) (Z.of_nat col) = Ok pv ->
  num_eqb pv (Int 0) = false ->
  exists m',
    pivot matrix (Z.of_nat row) (Z.of_nat col) = Done m'
    /\ exact m' = gauss_pivot (exact matrix) row col
    /\ simplex_step ins matrix pos
       = if all_printable m'
         then Continue m' (S pos) [SayEnterInteger; ShowMatrix m']
         else Throw digits_error m'.
Proof.
  intros Hrect Hsel Hins Hpv Hnz.
  destruct (pivot_valid matrix n row col pv Hrect Hpv Hnz)
    as (m' & Hdone & Hex & _).
  exists m'. split; [exact Hdone |]. split; [exact Hex |].
  unfold simplex_step, read_choice. rewrite Hsel, Hins, Hdone.
  destruct (all_printable m') eqn:Hshow.
  - destruct (pretty_print_Ok m' Hshow) as [lines ->]. reflexivity.
  - rewrite (pretty_print_not_printable m' Hshow). reflexivity.
Qed.

Lemma non_integer_answer_pivots_on_suggestion_witness :
  exists m',
    pivot ex1 (Z.of_nat 0) (Z.of_nat 0) = Done m'
    /\ exact m' = gauss_pivot (exact ex1) 0 0
    /\ simplex_step accepts_suggestions ex1 0
       = if all_printable m'
         then Continue m' 1 [SayEnterInteger; ShowMatrix m']
         else Throw digits_error m'.
Proof.
  apply (non_integer_answer_pivots_on_suggestion
           accepts_suggestions ex1 5 0 0 0 (Int 1)).
  - repeat constructor.
  - vm_compute. reflexivity.
  - reflexivity.
  - reflexivity.
  - vm_compute. reflexivity.
Defined.
